(** * Signal derivation and composite scoring: a shallow embedding

    This development embeds [src/backend/signals.ts] and
    [src/backend/server.ts] and states the properties of the scoring
    engine and of its result cache.

    Modelling conventions.
    - A JavaScript [number] that the source computes from filtered
      data is an exact rational ([Q]).  The source keeps the closes, the
      volumes, the implied volatilities and the fundamentals only when
      they pass [Number.isFinite], and everything it derives from them
      is a rational here: rounding and overflow of IEEE-754 doubles are
      not represented.  The source guards every division whose divisor
      is computed from such data against a zero divisor, and the guards
      are kept as written; the other divisors are the window lengths,
      which are positive constants at every call.  Strict equality
      [x === 0] on these numbers is [Qeq_bool x 0].
    - The percentages of the sentiment payload are the one input that
      the source parses with [Number.parseFloat] and does not filter.
      They, the sentiment signal and the composite score are values of
      [number], which adds the two infinities and NaN to the rationals;
      the arithmetic on [number] is that of doubles without rounding.
      The functions of the source that receive such a value are embedded
      twice: on rationals, under the name of the source, and on
      [number], under that name followed by [_number]; the second
      restricted to rationals is the first (see [clamp_number_Num],
      [weightedComposite_number_numeric] and
      [buildExplanation_number_numeric]).
    - [null] is [None].
    - A [Promise] that has settled is a value of type [promise]: either
      [Resolved v] or [Rejected error].  [throw] inside an [async]
      function rejects its promise.
    - [Math.sqrt] and [Number.prototype.toFixed] belong to the JavaScript
      runtime; they are the two operations of the class [JsRuntime].
    - A timestamp is the number of milliseconds since the epoch ([Z]);
      [toISOString] is an order-preserving rendering of it and is not
      represented. *)

From Stdlib Require Import QArith Qminmax Qabs Qround Lqa Lia ZArith List Ascii String DecimalString
  Permutation Sorted.
From stdpp Require Import base option list gmap strings.

Open Scope Q_scope.

(** ** The JavaScript runtime *)

Class JsRuntime := {
  Math_sqrt : Q -> Q;
  toFixed : Q -> nat -> string
}.

(** [for (let i = lo; i < hi; i += 1) body] threading the loop-carried
    variables as a state. *)
Fixpoint for_steps {St : Type} (steps i : nat) (body : nat -> St -> St) (s : St) : St :=
  match steps with
  | O => s
  | S steps' => for_steps steps' (S i) body (body i s)
  end.

Definition for_range {St : Type} (lo hi : nat) (body : nat -> St -> St) (s : St) : St :=
  for_steps (hi - lo) lo body s.

(** [values[i]] for an index inside the array.  Every read of the source
    happens at an index below [values.length] (the loops stop at the
    length and the window guards cover the other reads), so the default
    is never observed; see [at_index_in_bounds] and [for_range_ext]. *)
Definition at_index (values : list Q) (i : nat) : Q := nth i values 0.

(** [Array.prototype.slice(start, end)] with JavaScript's treatment of
    negative and out-of-range indices. *)
Definition relative_index (len : nat) (k : Z) : nat :=
  if (k <? 0)%Z then Z.to_nat (Z.max (Z.of_nat len + k) 0)
  else Nat.min (Z.to_nat k) len.

Definition slice {A : Type} (l : list A) (start stop : Z) : list A :=
  let from := relative_index (length l) start in
  let to := relative_index (length l) stop in
  firstn (to - from) (skipn from l).

Definition slice_from {A : Type} (l : list A) (start : Z) : list A :=
  slice l start (Z.of_nat (length l)).

(** [Array.prototype.sort(compare)]: a stable sort; [x] stays in front of
    [y] unless [compare x y > 0]. *)
Fixpoint sort_insert {A : Type} (compare : A -> A -> Q) (x : A) (l : list A) : list A :=
  match l with
  | [] => [x]
  | y :: l' =>
      if Qle_bool (compare x y) 0 then x :: y :: l'
      else y :: sort_insert compare x l'
  end.

Definition array_sort {A : Type} (compare : A -> A -> Q) (l : list A) : list A :=
  fold_right (sort_insert compare) [] l.

(** [Math.max(...xs)] and [Math.min(...xs)] of a non-empty array. *)
Definition Math_max_of (x : Q) (xs : list Q) : Q := fold_left Qmax xs x.
Definition Math_min_of (x : Q) (xs : list Q) : Q := fold_left Qmin xs x.

(** ** Numbers that may be infinite or NaN

    The value of a JavaScript [number] where the source does not filter
    it with [Number.isFinite]. *)
Inductive number :=
| Num (value : Q)
| PlusInfinity
| MinusInfinity
| NaN.

(** [a + b] *)
Definition number_add (a b : number) : number :=
  match a, b with
  | NaN, _ | _, NaN => NaN
  | Num x, Num y => Num (x + y)
  | PlusInfinity, MinusInfinity | MinusInfinity, PlusInfinity => NaN
  | PlusInfinity, _ | _, PlusInfinity => PlusInfinity
  | MinusInfinity, _ | _, MinusInfinity => MinusInfinity
  end.

(** [a - b] *)
Definition number_sub (a b : number) : number :=
  match a, b with
  | NaN, _ | _, NaN => NaN
  | Num x, Num y => Num (x - y)
  | PlusInfinity, PlusInfinity | MinusInfinity, MinusInfinity => NaN
  | PlusInfinity, _ | _, MinusInfinity => PlusInfinity
  | MinusInfinity, _ | _, PlusInfinity => MinusInfinity
  end.

(** [a * b] for a rational [b]. *)
Definition number_mul (a : number) (b : Q) : number :=
  match a with
  | NaN => NaN
  | Num x => Num (x * b)
  | PlusInfinity =>
      if Qeq_bool b 0 then NaN else if Qle_bool 0 b then PlusInfinity else MinusInfinity
  | MinusInfinity =>
      if Qeq_bool b 0 then NaN else if Qle_bool 0 b then MinusInfinity else PlusInfinity
  end.

(** [a / b] for a rational [b]; the zero of [Q] is read as [+0]. *)
Definition number_div (a : number) (b : Q) : number :=
  match a with
  | NaN => NaN
  | Num x =>
      if Qeq_bool b 0 then
        if Qeq_bool x 0 then NaN else if Qle_bool 0 x then PlusInfinity else MinusInfinity
      else Num (x / b)
  | PlusInfinity => if Qle_bool 0 b then PlusInfinity else MinusInfinity
  | MinusInfinity => if Qle_bool 0 b then MinusInfinity else PlusInfinity
  end.

(** [Math.min(a, b)] and [Math.max(a, b)]: NaN when an argument is NaN. *)
Definition number_min (a b : number) : number :=
  match a, b with
  | NaN, _ | _, NaN => NaN
  | MinusInfinity, _ | _, MinusInfinity => MinusInfinity
  | PlusInfinity, other | other, PlusInfinity => other
  | Num x, Num y => Num (Qmin x y)
  end.

Definition number_max (a b : number) : number :=
  match a, b with
  | NaN, _ | _, NaN => NaN
  | PlusInfinity, _ | _, PlusInfinity => PlusInfinity
  | MinusInfinity, other | other, MinusInfinity => other
  | Num x, Num y => Num (Qmax x y)
  end.

(** [a > b] and [a < b] for a rational [b]: false when [a] is NaN. *)
Definition number_gt (a : number) (b : Q) : bool :=
  match a with
  | Num x => negb (Qle_bool x b)
  | PlusInfinity => true
  | MinusInfinity | NaN => false
  end.

Definition number_lt (a : number) (b : Q) : bool :=
  match a with
  | Num x => negb (Qle_bool b x)
  | MinusInfinity => true
  | PlusInfinity | NaN => false
  end.

(** [a <= b] between two numbers: false when one of them is NaN. *)
Definition number_le (a b : number) : Prop :=
  match a, b with
  | NaN, _ | _, NaN => False
  | MinusInfinity, _ | _, PlusInfinity => True
  | Num x, Num y => x <= y
  | _, _ => False
  end.

(** What [Array.prototype.sort] makes of the result [v] of its
    comparator (ECMAScript, SortCompare): NaN is read as [+0], and only
    the sign of [v] matters. *)
Definition SortCompare (v : number) : Q :=
  match v with
  | Num value => value
  | PlusInfinity => 1
  | MinusInfinity => -1
  | NaN => 0
  end.

(** [x.toFixed(digits)]: a number that is not finite is rendered by its
    name (ECMAScript, Number.prototype.toFixed). *)
Definition toFixed_number {runtime : JsRuntime} (x : number) (digits : nat) : string :=
  match x with
  | Num value => toFixed value digits
  | PlusInfinity => "Infinity"
  | MinusInfinity => "-Infinity"
  | NaN => "NaN"
  end.

(** ** Settled promises *)

Inductive promise (A : Type) : Type :=
| Resolved (value : A)
| Rejected (error : string).
Arguments Resolved {A} value.
Arguments Rejected {A} error.

Definition await_then {A B : Type} (p : promise A) (k : A -> promise B) : promise B :=
  match p with
  | Resolved v => k v
  | Rejected e => Rejected e
  end.

Notation "x <- p ;; k" := (await_then p (fun x => k))
  (at level 100, p at next level, right associativity, only parsing).

(** [p.catch(handler)] and [try { await p } catch (error) { handler }]. *)
Definition catch_with {A : Type} (p : promise A) (handler : string -> A) : promise A :=
  match p with
  | Resolved v => Resolved v
  | Rejected e => Resolved (handler e)
  end.

(** [Promise.all]: resolves with every value, or rejects with the first
    rejection. *)
Fixpoint Promise_all {A : Type} (ps : list (promise A)) : promise (list A) :=
  match ps with
  | [] => Resolved []
  | p :: ps' => v <- p ;; vs <- Promise_all ps' ;; Resolved (v :: vs)
  end.

Definition is_rejected {A : Type} (p : promise A) : bool :=
  match p with Rejected _ => true | Resolved _ => false end.

(** ** Data model ([signals.ts], lines 5-47) *)

Record PriceBar := {
  bar_date : Z;
  bar_close : Q;
  bar_volume : Q
}.

(** The percentages are the results of [Number.parseFloat], which the
    source does not filter. *)
Record SentimentSnapshot := {
  bullishPercent : number;
  bearishPercent : number;
  sentiment_score : number
}.

Record VolatilitySnapshot := {
  currentIv : Q;
  lowIv : Q;
  highIv : Q
}.

(** The seven signals.  Six of them are computed from filtered data and
    are rationals; the sentiment signal is a rational in the record
    [IndicatorSignals], the argument of the functions of the source read
    on rationals, and a [number] in the record that [getCompositeSignal]
    builds. *)
Record IndicatorSignalsOf (N : Type) := {
  smaTrend : option Q;
  rsi : option Q;
  macd : option Q;
  bollinger : option Q;
  volumeSurge : option Q;
  sentiment : option N;
  ivRank : option Q
}.
Arguments Build_IndicatorSignalsOf {N} _ _ _ _ _ _ _.
Arguments smaTrend {N} _.
Arguments rsi {N} _.
Arguments macd {N} _.
Arguments bollinger {N} _.
Arguments volumeSurge {N} _.
Arguments sentiment {N} _.
Arguments ivRank {N} _.

Abbreviation IndicatorSignals := (IndicatorSignalsOf Q).

(** The same signals, as the record that [getCompositeSignal] builds. *)
Definition with_numbers (s : IndicatorSignals) : IndicatorSignalsOf number :=
  {| smaTrend := smaTrend s;
     rsi := rsi s;
     macd := macd s;
     bollinger := bollinger s;
     volumeSurge := volumeSurge s;
     sentiment := Num <$> sentiment s;
     ivRank := ivRank s |}.

Record IndicatorDetail := {
  detail_name : string;
  detail_value : string;
  detail_signal : option number
}.

Record CompositePick := {
  symbol : string;
  score : number;
  updatedAt : Z;
  latestPrice : option Q;
  explanation : string;
  signals : IndicatorSignalsOf number;
  details : list IndicatorDetail
}.

(** The keys of an [IndicatorSignals] object, in the order in which the
    object literal of [getCompositeSignal] declares them (the order of
    [Object.keys]). *)
Inductive SignalKey :=
| KsmaTrend | Krsi | Kmacd | Kbollinger | KvolumeSurge | Ksentiment | KivRank.

Definition Object_keys : list SignalKey :=
  [KsmaTrend; Krsi; Kmacd; Kbollinger; KvolumeSurge; Ksentiment; KivRank].

Definition signal_of (s : IndicatorSignals) (key : SignalKey) : option Q :=
  match key with
  | KsmaTrend => smaTrend s
  | Krsi => rsi s
  | Kmacd => macd s
  | Kbollinger => bollinger s
  | KvolumeSurge => volumeSurge s
  | Ksentiment => sentiment s
  | KivRank => ivRank s
  end.

Record MacdValue := {
  macd_macd : Q;
  macd_signal : Q;
  macd_histogram : Q
}.

Record Bands := {
  middle : Q;
  upper : Q;
  lower : Q;
  stdDev : Q
}.

(** ** Numeric helpers ([signals.ts], lines 53-59) *)

Definition clamp_between (value min max : Q) : Q := Qmax min (Qmin max value).

(** [clamp(value)] with the default bounds [min = -1], [max = 1]; every
    call of the source uses the defaults. *)
Definition clamp (value : Q) : Q := clamp_between value (-1) 1.

(** [clamp(value)] on a number that may be infinite or NaN:
    [Math.max(min, Math.min(max, value))] with the default bounds. *)
Definition clamp_number (value : number) : number :=
  number_max (Num (-1)) (number_min (Num 1) value).

Definition rollingAverage (values : list Q) : Q :=
  fold_left Qplus values 0 / inject_Z (Z.of_nat (length values)).

Definition number_of_nat (n : nat) : Q := inject_Z (Z.of_nat n).

Section Indicators.
Context {runtime : JsRuntime}.

(** ** Indicator library ([signals.ts], lines 181-293) *)

Definition calculateSMA (values : list Q) (period : nat) : option Q :=
  if (length values <? period)%nat then None
  else
    let slice := slice_from values (- Z.of_nat period) in
    Some (rollingAverage slice).

Definition calculateEMA (values : list Q) (period : nat) : option Q :=
  if (length values <? period)%nat then None
  else
    let smoothing := 2 / (number_of_nat period + 1) in
    let ema := rollingAverage (slice values 0 (Z.of_nat period)) in
    Some (for_range period (length values)
            (fun i ema => at_index values i * smoothing + ema * (1 - smoothing))
            ema).

(** The two running averages of [calculateRSI] when control reaches the
    test [avgLoss === 0]: [(avgGain, avgLoss)]. *)
Definition rsiAverages (values : list Q) (period : nat) : Q * Q :=
  let '(gains, losses) :=
    for_range 1 (period + 1)
      (fun i '(gains, losses) =>
         let change := at_index values i - at_index values (i - 1) in
         if Qle_bool 0 change then (gains + change, losses)
         else (gains, losses + Qabs change))
      (0, 0) in
  let avgGain := gains / number_of_nat period in
  let avgLoss := losses / number_of_nat period in
  for_range (period + 1) (length values)
    (fun i '(avgGain, avgLoss) =>
       let change := at_index values i - at_index values (i - 1) in
       let gain := Qmax change 0 in
       let loss := Qmax (- change) 0 in
       ((avgGain * (number_of_nat period - 1) + gain) / number_of_nat period,
        (avgLoss * (number_of_nat period - 1) + loss) / number_of_nat period))
    (avgGain, avgLoss).

Definition calculateRSI (values : list Q) (period : nat) : option Q :=
  if (length values <=? period)%nat then None
  else
    let '(avgGain, avgLoss) := rsiAverages values period in
    if Qeq_bool avgLoss 0 then Some 100
    else
      let rs := avgGain / avgLoss in
      Some (100 - 100 / (1 + rs)).

(** The series [macdValues] built by the first loop of [calculateMACD]. *)
Definition macdSeries (values : list Q) : list Q :=
  let shortPeriod := 12%nat in
  let longPeriod := 26%nat in
  let kShort := 2 / (number_of_nat shortPeriod + 1) in
  let kLong := 2 / (number_of_nat longPeriod + 1) in
  let emaShort := rollingAverage (slice values 0 (Z.of_nat shortPeriod)) in
  let emaLong := rollingAverage (slice values 0 (Z.of_nat longPeriod)) in
  let '(_, _, macdValues) :=
    for_range longPeriod (length values)
      (fun i '(emaShort, emaLong, macdValues) =>
         let emaShort := at_index values i * kShort + emaShort * (1 - kShort) in
         let emaLong := at_index values i * kLong + emaLong * (1 - kLong) in
         (emaShort, emaLong, macdValues ++ [emaShort - emaLong]))
      (emaShort, emaLong, []) in
  macdValues.

Definition calculateMACD (values : list Q) : option MacdValue :=
  if (length values <? 35)%nat then None
  else
    let signalPeriod := 9%nat in
    let macdValues := macdSeries values in
    if (length macdValues <? signalPeriod)%nat then None
    else
      let signal := rollingAverage (slice macdValues 0 (Z.of_nat signalPeriod)) in
      let kSignal := 2 / (number_of_nat signalPeriod + 1) in
      let signal :=
        for_range signalPeriod (length macdValues)
          (fun i signal => at_index macdValues i * kSignal + signal * (1 - kSignal))
          signal in
      let macd := at_index macdValues (length macdValues - 1) in
      let histogram := macd - signal in
      Some {| macd_macd := macd; macd_signal := signal; macd_histogram := histogram |}.

Definition calculateBollinger (values : list Q) (period : nat) (multiplier : Q) : option Bands :=
  if (length values <? period)%nat then None
  else
    let slice := slice_from values (- Z.of_nat period) in
    let middle := rollingAverage slice in
    let variance :=
      fold_left (fun sum value => sum + (value - middle) ^ 2) slice 0
      / number_of_nat period in
    let stdDev := Math_sqrt variance in
    Some {| middle := middle;
            upper := middle + multiplier * stdDev;
            lower := middle - multiplier * stdDev;
            stdDev := stdDev |}.

Definition calculateVolumeSurge (volumes : list Q) (period : nat) : option Q :=
  if (length volumes <=? period)%nat then None
  else
    let recent := at_index volumes (length volumes - 1) in
    let baseline := rollingAverage (slice volumes (- (Z.of_nat period + 1)) (-1)) in
    if Qeq_bool baseline 0 then None
    else
      let ratio := recent / baseline in
      Some (clamp (ratio - 1)).

(** ** Normalizer ([signals.ts], lines 295-346) *)

(** [Number.isFinite] holds of every rational, so only the test
    [highIv === lowIv] of the source's guard remains. *)
Definition calculateIvRank (snapshot : option VolatilitySnapshot) : option Q :=
  match snapshot with
  | None => None
  | Some snapshot =>
      if Qeq_bool (highIv snapshot) (lowIv snapshot) then None
      else
        let rank := (currentIv snapshot - lowIv snapshot)
                    / (highIv snapshot - lowIv snapshot) in
        Some (clamp (rank * 2 - 1))
  end.

Definition sentimentSignal (snapshot : option SentimentSnapshot) : option number :=
  match snapshot with
  | None => None
  | Some snapshot => Some (clamp_number (sentiment_score snapshot))
  end.

Definition macdSignal (macd : option MacdValue) : option Q :=
  match macd with
  | None => None
  | Some macd =>
      let base := macd_histogram macd in
      let scale := Qmax 0.01 (Qabs (macd_signal macd)) in
      Some (clamp (base / scale))
  end.

Definition bollingerSignal (latestPrice : option Q) (bands : option Bands) : option Q :=
  match bands, latestPrice with
  | Some bands, Some latestPrice =>
      if Qeq_bool (stdDev bands) 0 then Some 0
      else Some (clamp ((latestPrice - middle bands) / (2 * stdDev bands)))
  | _, _ => None
  end.

Definition smaSignal (sma50 sma200 : option Q) : option Q :=
  match sma50, sma200 with
  | Some sma50, Some sma200 =>
      if Qeq_bool sma200 0 then None
      else Some (clamp ((sma50 - sma200) / sma200))
  | _, _ => None
  end.

Definition rsiSignal (rsi : option Q) : option Q :=
  match rsi with
  | None => None
  | Some rsi => Some (clamp ((rsi - 50) / 25))
  end.

End Indicators.

(** ** Process configuration and upstream providers

    [process.env].  A key is tested for truth ([!KEY]), so an unset key
    and an empty key are both [None].  [SIGNAL_CACHE_MS] is read with
    [??], which replaces only an unset variable: [None] is the unset
    variable, and [Some n] a variable whose text [Number] reads as the
    integer [n] (the empty text reads as [0], so it is [Some 0]). *)
Record Config := {
  ALPHA_VANTAGE_KEY : option string;
  FINNHUB_KEY : option string;
  POLYGON_KEY : option string;
  SIGNAL_CACHE_MS : option Z
}.

(** The result of [Number.parseFloat] on a field of a provider payload. *)
Inductive parsed :=
| Finite (value : Q)
| NotFinite.

(** One entry of ['Time Series (Daily)']: the date (as the time value of
    [new Date(date)]), ['4. close'] and ['6. volume'] ?? ['5. volume']. *)
Record DailyEntry := {
  entry_date : Z;
  entry_close : parsed;
  entry_volume : parsed
}.

(** The fields of the company overview that [buildDetails] reads; a
    missing key is [None]. *)
Record Fundamentals := {
  PERatio : option parsed;
  ProfitMargin : option parsed
}.

(** [data.sentiment] of the news-sentiment payload: each percentage
    as [Number.parseFloat] reads it, which is [NaN] for a text that does
    not start with a number and an infinity for the text [Infinity]; a
    missing percentage is [None].  The source does not filter these
    numbers. *)
Record SentimentPayload := {
  payload_bullishPercent : option number;
  payload_bearishPercent : option number
}.

(** What [fetchJson] settles to for each of the four request URLs, for a
    symbol.  [Rejected] covers a network error and a response that is not
    [ok].
    - [daily]: [None] when the payload has no ['Time Series (Daily)'];
    - [overview]: [None] when the payload is falsy or has no key;
    - [newsSentiment]: [None] when the payload has no [sentiment];
    - [optionContracts]: [implied_volatility] of [data?.results ?? []].
    [latency] is the time, in milliseconds, that the four concurrent
    requests of one assembly take to settle. *)
Record Providers := {
  daily : string -> promise (option (list DailyEntry));
  overview : string -> promise (option Fundamentals);
  newsSentiment : string -> promise (option SentimentPayload);
  optionContracts : string -> promise (list parsed);
  latency : string -> nat
}.

(** A bar passes the filter of [fetchPriceHistory] when
    [Number.isFinite(bar.close) && Number.isFinite(bar.volume)]. *)
Definition finite_bar (entry : DailyEntry) : option PriceBar :=
  match entry_close entry, entry_volume entry with
  | Finite close, Finite volume =>
      Some {| bar_date := entry_date entry; bar_close := close; bar_volume := volume |}
  | _, _ => None
  end.

(** A value passes the filter of [fetchVolatility] when
    [Number.isFinite(value)]. *)
Definition finite_value (p : parsed) : option Q :=
  match p with Finite v => Some v | NotFinite => None end.

(** ** Fetch layer ([signals.ts], lines 69-179) *)

Definition fetchPriceHistory (cfg : Config) (net : Providers) (symbol : string)
  : promise (list PriceBar) :=
  match ALPHA_VANTAGE_KEY cfg with
  | None =>
      Rejected "Missing Alpha Vantage API key. Set ALPHA_VANTAGE_KEY in your environment."
  | Some _ =>
      data <- daily net symbol ;;
      match data with
      | None =>
          Rejected ("Alpha Vantage response missing daily time series for " +:+ symbol)
      | Some series =>
          (* entries.filter(finite close and volume).sort(by date) *)
          Resolved
            (array_sort (fun a b => inject_Z (bar_date a) - inject_Z (bar_date b))
               (omap finite_bar series))
      end
  end.

Definition fetchFundamentals (cfg : Config) (net : Providers) (symbol : string)
  : promise Fundamentals :=
  match ALPHA_VANTAGE_KEY cfg with
  | None =>
      Rejected "Missing Alpha Vantage API key. Set ALPHA_VANTAGE_KEY in your environment."
  | Some _ =>
      data <- overview net symbol ;;
      match data with
      | None => Rejected ("Alpha Vantage overview not available for " +:+ symbol)
      | Some data => Resolved data
      end
  end.

Definition fetchSentiment (cfg : Config) (net : Providers) (symbol : string)
  : promise (option SentimentSnapshot) :=
  match FINNHUB_KEY cfg with
  | None => Resolved None
  | Some _ =>
      catch_with
        (data <- newsSentiment net symbol ;;
         match data with
         | None => Resolved None
         | Some sentiment =>
             let bullishPercent := default (Num 0) (payload_bullishPercent sentiment) in
             let bearishPercent := default (Num 0) (payload_bearishPercent sentiment) in
             let score := clamp_number (number_div (number_sub bullishPercent bearishPercent) 100) in
             Resolved (Some {| bullishPercent := bullishPercent;
                               bearishPercent := bearishPercent;
                               sentiment_score := score |})
         end)
        (fun error => None)
  end.

Definition fetchVolatility (cfg : Config) (net : Providers) (symbol : string)
  : promise (option VolatilitySnapshot) :=
  match POLYGON_KEY cfg with
  | None => Resolved None
  | Some _ =>
      catch_with
        (results <- optionContracts net symbol ;;
         if (length results =? 0)%nat then Resolved None
         else
           let ivValues := omap finite_value results in
           match ivValues with
           | [] => Resolved None
           | currentIv :: rest =>
               let highIv := Math_max_of currentIv rest in
               let lowIv := Math_min_of currentIv rest in
               Resolved (Some {| currentIv := currentIv; highIv := highIv; lowIv := lowIv |})
           end)
        (fun error => None)
  end.

Definition Qlt_bool (x y : Q) : bool := negb (Qle_bool y x).

Section Assembly.
Context {runtime : JsRuntime}.

(** ** Explanation builder ([signals.ts], lines 348-465) *)

Record DetailParams := {
  p_symbol : string;
  p_latestPrice : option Q;
  p_sma50 : option Q;
  p_sma200 : option Q;
  p_rsi : option Q;
  p_macd : option MacdValue;
  p_bollinger : option Bands;
  p_volumeSurge : option Q;
  p_sentiment : option SentimentSnapshot;
  p_ivRank : option Q;
  p_fundamentals : option Fundamentals
}.

Definition buildDetails (params : DetailParams) : list IndicatorDetail :=
  let details := [] in
  let price :=
    match p_latestPrice params with
    | Some latestPrice => "$" +:+ toFixed latestPrice 2
    | None => "n/a"
    end in
  let details :=
    details ++ [{| detail_name := "Last Price"; detail_value := price; detail_signal := None |}] in
  let details :=
    match p_sma50 params, p_sma200 params with
    | Some sma50, Some sma200 =>
        details ++ [{| detail_name := "SMA50 / SMA200";
                       detail_value := toFixed sma50 2 +:+ " / " +:+ toFixed sma200 2;
                       detail_signal := Num <$> smaSignal (Some sma50) (Some sma200) |}]
    | _, _ => details
    end in
  let details :=
    match p_rsi params with
    | Some rsi =>
        details ++ [{| detail_name := "RSI(14)";
                       detail_value := toFixed rsi 1;
                       detail_signal := Num <$> rsiSignal (Some rsi) |}]
    | None => details
    end in
  let details :=
    match p_macd params with
    | Some macd =>
        details ++ [{| detail_name := "MACD (Hist)";
                       detail_value := toFixed (macd_histogram macd) 3;
                       detail_signal := Num <$> macdSignal (Some macd) |}]
    | None => details
    end in
  let details :=
    match p_bollinger params with
    | Some bands =>
        details ++ [{| detail_name := "Bollinger Band";
                       detail_value := toFixed (lower bands) 2 +:+ " - " +:+ toFixed (upper bands) 2;
                       detail_signal :=
                         Num <$> bollingerSignal (p_latestPrice params) (Some bands) |}]
    | None => details
    end in
  let details :=
    match p_volumeSurge params with
    | Some volumeSurge =>
        let percent := toFixed (volumeSurge * 100) 1 in
        details ++ [{| detail_name := "Volume vs Avg";
                       detail_value := percent +:+ "%";
                       detail_signal := Some (Num (clamp volumeSurge)) |}]
    | None => details
    end in
  let details :=
    match p_sentiment params with
    | Some snapshot =>
        details ++ [{| detail_name := "Sentiment (Bull/Bear)";
                       detail_value := toFixed_number (bullishPercent snapshot) 1 +:+ "% / "
                                       +:+ toFixed_number (bearishPercent snapshot) 1 +:+ "%";
                       detail_signal := sentimentSignal (Some snapshot) |}]
    | None => details
    end in
  let details :=
    match p_ivRank params with
    | Some ivRank =>
        details ++ [{| detail_name := "IV Rank";
                       detail_value := toFixed (((ivRank + 1) / 2) * 100) 0;
                       detail_signal := Some (Num ivRank) |}]
    | None => details
    end in
  match p_fundamentals params with
  | Some fundamentals =>
      let peRatio := default (Finite 0) (PERatio fundamentals) in
      let profitMargin := default (Finite 0) (ProfitMargin fundamentals) in
      let details :=
        match peRatio with
        | Finite peRatio =>
            if Qlt_bool 0 peRatio then
              details ++ [{| detail_name := "P/E Ratio";
                             detail_value := toFixed peRatio 1;
                             detail_signal := None |}]
            else details
        | NotFinite => details
        end in
      match profitMargin with
      | Finite profitMargin =>
          details ++ [{| detail_name := "Profit Margin";
                         detail_value := toFixed (profitMargin * 100) 1 +:+ "%";
                         detail_signal := None |}]
      | NotFinite => details
      end
  | None => details
  end.

End Assembly.

(** [highlights.push(bullish)] when [value > threshold], else
    [highlights.push(bearish)] when [value < -threshold]; one [if] block
    of [buildExplanation], which is skipped when the signal is [null]. *)
Definition push_highlight (highlights : list string) (signal : option Q)
    (threshold : Q) (bullish bearish : string) : list string :=
  match signal with
  | Some value =>
      if Qlt_bool threshold value then highlights ++ [bullish]
      else if Qlt_bool value (- threshold) then highlights ++ [bearish]
      else highlights
  | None => highlights
  end.

Definition neutral_sentence : string :=
  "Signals are mixed with no single driver dominating the setup.".

Definition buildExplanation (signals : IndicatorSignals) : string :=
  let highlights := [] in
  let highlights :=
    push_highlight highlights (smaTrend signals) 0.2
      "Trend momentum: 50-day moving average is comfortably above the 200-day"
      "Downtrend pressure: 50-day average is tracking below the 200-day" in
  let highlights :=
    push_highlight highlights (rsi signals) 0.3
      "RSI momentum remains bullish"
      "RSI shows oversold momentum" in
  let highlights :=
    push_highlight highlights (macd signals) 0.3
      "MACD histogram is expanding above the signal line"
      "MACD histogram is weakening below the signal line" in
  let highlights :=
    push_highlight highlights (volumeSurge signals) 0.3
      "Volume is expanding versus the 20-day average"
      "Volume is contracting versus the 20-day average" in
  let highlights :=
    push_highlight highlights (sentiment signals) 0.2
      "News sentiment skewed bullish"
      "News sentiment skewed cautious" in
  let highlights :=
    push_highlight highlights (ivRank signals) 0.2
      "Implied volatility running hot relative to its range"
      "Implied volatility deeply discounted" in
  if (length highlights =? 0)%nat then neutral_sentence
  else String.concat ". " highlights +:+ ".".

(** The same [if] block for the sentiment signal of the record that
    [getCompositeSignal] builds: a NaN is neither above the threshold
    nor below its opposite. *)
Definition push_highlight_number (highlights : list string) (signal : option number)
    (threshold : Q) (bullish bearish : string) : list string :=
  match signal with
  | Some value =>
      if number_gt value threshold then highlights ++ [bullish]
      else if number_lt value (- threshold) then highlights ++ [bearish]
      else highlights
  | None => highlights
  end.

(** [buildExplanation] on the record that [getCompositeSignal] builds. *)
Definition buildExplanation_number (signals : IndicatorSignalsOf number) : string :=
  let highlights := [] in
  let highlights :=
    push_highlight highlights (smaTrend signals) 0.2
      "Trend momentum: 50-day moving average is comfortably above the 200-day"
      "Downtrend pressure: 50-day average is tracking below the 200-day" in
  let highlights :=
    push_highlight highlights (rsi signals) 0.3
      "RSI momentum remains bullish"
      "RSI shows oversold momentum" in
  let highlights :=
    push_highlight highlights (macd signals) 0.3
      "MACD histogram is expanding above the signal line"
      "MACD histogram is weakening below the signal line" in
  let highlights :=
    push_highlight highlights (volumeSurge signals) 0.3
      "Volume is expanding versus the 20-day average"
      "Volume is contracting versus the 20-day average" in
  let highlights :=
    push_highlight_number highlights (sentiment signals) 0.2
      "News sentiment skewed bullish"
      "News sentiment skewed cautious" in
  let highlights :=
    push_highlight highlights (ivRank signals) 0.2
      "Implied volatility running hot relative to its range"
      "Implied volatility deeply discounted" in
  if (length highlights =? 0)%nat then neutral_sentence
  else String.concat ". " highlights +:+ ".".

(** ** Composite scorer ([signals.ts], lines 467-490) *)

Definition weights (key : SignalKey) : Q :=
  match key with
  | KsmaTrend => 0.2
  | Krsi => 0.15
  | Kmacd => 0.2
  | Kbollinger => 0.1
  | KvolumeSurge => 0.1
  | Ksentiment => 0.15
  | KivRank => 0.1
  end.

(** The callback of [forEach] in [weightedComposite], on the pair of
    accumulators [(weightedSum, totalWeight)]. *)
Definition composite_step (signals : IndicatorSignals) : Q * Q -> SignalKey -> Q * Q :=
  fun '(weightedSum, totalWeight) key =>
    match signal_of signals key with
    | Some value => (weightedSum + value * weights key, totalWeight + weights key)
    | None => (weightedSum, totalWeight)
    end.

Definition weightedComposite (signals : IndicatorSignals) : Q :=
  let '(weightedSum, totalWeight) :=
    fold_left (composite_step signals) Object_keys (0, 0) in
  if Qeq_bool totalWeight 0 then 0
  else clamp (weightedSum / totalWeight).

(** [signals[key]] and [weightedComposite] on the record that
    [getCompositeSignal] builds.  A NaN is not [null]: it enters the
    weighted sum, and its weight the total. *)
Definition signal_of_number (s : IndicatorSignalsOf number) (key : SignalKey) : option number :=
  match key with
  | KsmaTrend => Num <$> smaTrend s
  | Krsi => Num <$> rsi s
  | Kmacd => Num <$> macd s
  | Kbollinger => Num <$> bollinger s
  | KvolumeSurge => Num <$> volumeSurge s
  | Ksentiment => sentiment s
  | KivRank => Num <$> ivRank s
  end.

Definition composite_step_number (signals : IndicatorSignalsOf number)
  : number * Q -> SignalKey -> number * Q :=
  fun '(weightedSum, totalWeight) key =>
    match signal_of_number signals key with
    | Some value =>
        (number_add weightedSum (number_mul value (weights key)), totalWeight + weights key)
    | None => (weightedSum, totalWeight)
    end.

Definition weightedComposite_number (signals : IndicatorSignalsOf number) : number :=
  let '(weightedSum, totalWeight) :=
    fold_left (composite_step_number signals) Object_keys (Num 0, 0) in
  if Qeq_bool totalWeight 0 then Num 0
  else clamp_number (number_div weightedSum totalWeight).

Section Orchestrator.
Context {runtime : JsRuntime}.

(** ** Signal assembly ([signals.ts], lines 492-553) *)

(** The body of [getCompositeSignal] once the four inputs are known and
    the price history is not empty (lines 507-552).  [stamp] is the clock
    reading of [new Date()] when the record is built. *)
Definition composePick (symbol : string) (stamp : Z) (prices : list PriceBar)
    (fundamentals : option Fundamentals) (sentiment : option SentimentSnapshot)
    (volatility : option VolatilitySnapshot) : CompositePick :=
  let closes := map bar_close prices in
  let volumes := map bar_volume prices in
  let latestPrice := last closes in
  let sma50 := calculateSMA closes 50 in
  let sma200 := calculateSMA closes 200 in
  let rsi := calculateRSI closes 14 in
  let macd := calculateMACD closes in
  let bollinger := calculateBollinger closes 20 2 in
  let volumeSurge := calculateVolumeSurge volumes 20 in
  let ivRank := calculateIvRank volatility in
  let indicatorSignals :=
    {| smaTrend := smaSignal sma50 sma200;
       rsi := rsiSignal rsi;
       macd := macdSignal macd;
       bollinger := bollingerSignal latestPrice bollinger;
       volumeSurge := volumeSurge;
       sentiment := sentimentSignal sentiment;
       ivRank := ivRank |} in
  let score := weightedComposite_number indicatorSignals in
  let explanation := buildExplanation_number indicatorSignals in
  let details :=
    buildDetails {| p_symbol := symbol;
                    p_latestPrice := latestPrice;
                    p_sma50 := sma50;
                    p_sma200 := sma200;
                    p_rsi := rsi;
                    p_macd := macd;
                    p_bollinger := bollinger;
                    p_volumeSurge := volumeSurge;
                    p_sentiment := sentiment;
                    p_ivRank := ivRank;
                    p_fundamentals := fundamentals |} in
  {| symbol := symbol;
     score := score;
     updatedAt := stamp;
     latestPrice := latestPrice;
     explanation := explanation;
     signals := indicatorSignals;
     details := details |}.

(** [Promise.all] over the four requests, of which the last three are
    guarded ([.catch] on the fundamentals, [try]/[catch] inside the other
    two), then the emptiness test on the prices (lines 493-505). *)
Definition getCompositeSignal (cfg : Config) (net : Providers) (symbol : string) (stamp : Z)
  : promise CompositePick :=
  prices <- fetchPriceHistory cfg net symbol ;;
  fundamentals <- catch_with (fundamentals <- fetchFundamentals cfg net symbol ;;
                              Resolved (Some fundamentals))
                             (fun error => None) ;;
  sentiment <- fetchSentiment cfg net symbol ;;
  volatility <- fetchVolatility cfg net symbol ;;
  if (length prices =? 0)%nat then
    Rejected ("No price data returned for " +:+ symbol)
  else
    Resolved (composePick symbol stamp prices fundamentals sentiment volatility).

End Orchestrator.

(** ** Result cache and batch handler ([server.ts])

    The server state: the module-level [cache], the wall clock read by
    [Date.now()] and [new Date()], and a log of the symbols for which
    [getCompositeSignal] has been called (one entry per assembly, that is
    per round of upstream requests). *)
Record CachedSignal := {
  cached_updatedAt : Z;
  cached_payload : CompositePick
}.

Record Server := {
  cache : gmap string CachedSignal;
  clock : Z;
  assemblies : list string
}.

(** [Number(process.env.SIGNAL_CACHE_MS ?? 2 * 60 * 1000)] *)
Definition CACHE_TTL_MS (cfg : Config) : Z :=
  default (2 * 60 * 1000)%Z (SIGNAL_CACHE_MS cfg).

(** What one call of [loadSignal] has done when its promise settles: the
    settled promise, the time at which it settles, the [cache.set] it has
    executed (if any) and the assemblies it has started. *)
Record Settlement := {
  for_symbol : string;
  result : promise CompositePick;
  settledAt : Z;
  cacheWrite : option CachedSignal;
  upstreamCalls : list string
}.

Section Server.
Context {runtime : JsRuntime}.

(** [loadSignal(symbol)] ([server.ts], lines 24-34), called at time [now]
    when the cache holds [entries].  The code before the [await] reads the
    cache and the clock; the code after it writes the cache. *)
Definition loadSignal (cfg : Config) (net : Providers)
    (entries : gmap string CachedSignal) (now : Z) (symbol : string) : Settlement :=
  let cached := entries !! symbol in
  let assemble :=
    let settledAt := (now + Z.of_nat (latency net symbol))%Z in
    let awaited := getCompositeSignal cfg net symbol settledAt in
    {| for_symbol := symbol;
       result := awaited;
       settledAt := settledAt;
       cacheWrite :=
         match awaited with
         | Resolved payload => Some {| cached_payload := payload; cached_updatedAt := now |}
         | Rejected _ => None
         end;
       upstreamCalls := [symbol] |} in
  match cached with
  | Some cached =>
      if (now - cached_updatedAt cached <? CACHE_TTL_MS cfg)%Z then
        {| for_symbol := symbol;
           result := Resolved (cached_payload cached);
           settledAt := now;
           cacheWrite := None;
           upstreamCalls := [] |}
      else assemble
  | None => assemble
  end.

(** The effect of a settled call on the server. *)
Definition settle (srv : Server) (s : Settlement) : Server :=
  {| cache :=
       match cacheWrite s with
       | Some entry => <[for_symbol s := entry]> (cache srv)
       | None => cache srv
       end;
     clock := Z.max (clock srv) (settledAt s);
     assemblies := assemblies srv ++ upstreamCalls s |}.

(** A call of [loadSignal] that runs to completion on its own. *)
Definition call_loadSignal (cfg : Config) (net : Providers) (symbol : string) (srv : Server)
  : promise CompositePick * Server :=
  let s := loadSignal cfg net (cache srv) (clock srv) symbol in
  (result s, settle srv s).

(** The record of the inner [catch] of the handler ([server.ts], lines
    51-67). *)
Definition degraded (symbol : string) (now : Z) : CompositePick :=
  {| symbol := symbol;
     score := Num 0;
     updatedAt := now;
     latestPrice := None;
     explanation := "Signal unavailable due to upstream data error.";
     signals := {| smaTrend := None; rsi := None; macd := None; bollinger := None;
                   volumeSurge := None; sentiment := None; ivRank := None |};
     details := [] |}.

Record PicksBody := {
  body_updatedAt : Z;
  body_symbols : list string;
  body_picks : list CompositePick
}.

Inductive Response :=
| Json (body : PicksBody)
| Status500 (message : string).

(** The per-symbol task of the handler: [loadSignal] inside [try], the
    degraded record in [catch]. *)
Definition pick_task (s : Settlement) : promise CompositePick :=
  catch_with (result s) (fun error => degraded (for_symbol s) (settledAt s)).

(** The handler of [GET /api/picks] for the requested [symbols]
    ([server.ts], lines 44-82).

    [symbols.map(async ...)] runs every [loadSignal] up to its [await]
    before any of them resumes: each call reads the cache and the clock as
    they are when the request arrives.  The calls then settle, each one
    executing its own [cache.set]; calls for the same symbol write the
    same record, so the order of these writes does not matter and they
    are taken in the order of [symbols].

    The comparator of the sort is [b.score - a.score].  It is NaN when a
    score is NaN; ECMAScript then leaves the order of the result to the
    implementation, and [array_sort] gives the order of a stable
    insertion sort that reads NaN as [+0]. *)
Definition getPicks (cfg : Config) (net : Providers) (symbols : list string) (srv : Server)
  : Response * Server :=
  let settlements := map (loadSignal cfg net (cache srv) (clock srv)) symbols in
  let srv' := fold_left settle settlements srv in
  match Promise_all (map pick_task settlements) with
  | Resolved picks =>
      let sorted :=
        array_sort (fun a b => SortCompare (number_sub (score b) (score a))) picks in
      (Json {| body_updatedAt := clock srv'; body_symbols := symbols; body_picks := sorted |},
       srv')
  | Rejected error =>
      (Status500 "Unable to generate picks at this time.", srv')
  end.

End Server.

(** * The scoring rule in the words of the specification

    The definitions of this part follow the specification, not the code;
    the theorems below compare them with the embedded code. *)

(** The fixed weights: trend 0.20, oscillator 0.15, momentum-divergence
    0.20, band-position 0.10, volume-anomaly 0.10, sentiment 0.15,
    volatility-rank 0.10. *)
Definition spec_weight (key : SignalKey) : Q :=
  match key with
  | KsmaTrend => 0.20
  | Krsi => 0.15
  | Kmacd => 0.20
  | Kbollinger => 0.10
  | KvolumeSurge => 0.10
  | Ksentiment => 0.15
  | KivRank => 0.10
  end.

(** Σ (present signal × its weight), over the seven signals. *)
Definition spec_weighted_sum (s : IndicatorSignals) : Q :=
  fold_right
    (fun key sum =>
       match signal_of s key with
       | Some value => value * spec_weight key + sum
       | None => sum
       end)
    0 Object_keys.

(** Σ (weights of present signals). *)
Definition spec_present_weight (s : IndicatorSignals) : Q :=
  fold_right
    (fun key sum =>
       match signal_of s key with
       | Some _ => spec_weight key + sum
       | None => sum
       end)
    0 Object_keys.

Definition all_absent (s : IndicatorSignals) : Prop :=
  forall key, signal_of s key = None.

Definition some_present (s : IndicatorSignals) : Prop :=
  exists key value, signal_of s key = Some value.

Definition in_signal_range (s : IndicatorSignals) : Prop :=
  forall key value, signal_of s key = Some value -> -1 <= value <= 1.

(** The narrative rule of the specification: the threshold of each
    signal (the band position has none), and the clause library. *)
Definition spec_threshold (key : SignalKey) : option Q :=
  match key with
  | KsmaTrend | Ksentiment | KivRank => Some 0.2
  | Krsi | Kmacd | KvolumeSurge => Some 0.3
  | Kbollinger => None
  end.

Definition phrasing (key : SignalKey) (bullish : bool) : string :=
  match key, bullish with
  | KsmaTrend, true => "Trend momentum: 50-day moving average is comfortably above the 200-day"
  | KsmaTrend, false => "Downtrend pressure: 50-day average is tracking below the 200-day"
  | Krsi, true => "RSI momentum remains bullish"
  | Krsi, false => "RSI shows oversold momentum"
  | Kmacd, true => "MACD histogram is expanding above the signal line"
  | Kmacd, false => "MACD histogram is weakening below the signal line"
  | KvolumeSurge, true => "Volume is expanding versus the 20-day average"
  | KvolumeSurge, false => "Volume is contracting versus the 20-day average"
  | Ksentiment, true => "News sentiment skewed bullish"
  | Ksentiment, false => "News sentiment skewed cautious"
  | KivRank, true => "Implied volatility running hot relative to its range"
  | KivRank, false => "Implied volatility deeply discounted"
  | Kbollinger, _ => ""
  end.

(** One clause for a present signal whose absolute value exceeds its
    threshold: the bullish phrasing for a positive value, the bearish one
    for a negative value. *)
Definition spec_clause (s : IndicatorSignals) (key : SignalKey) : option string :=
  match signal_of s key, spec_threshold key with
  | Some value, Some threshold =>
      if Qlt_bool threshold (Qabs value) then Some (phrasing key (Qlt_bool 0 value))
      else None
  | _, _ => None
  end.

Definition spec_clauses (s : IndicatorSignals) : list string :=
  omap (spec_clause s) Object_keys.

(** The narrative as the specification words it: the clauses joined with
    ". ", or the neutral sentence as the specification quotes it. *)
Definition spec_explanation (s : IndicatorSignals) : string :=
  match spec_clauses s with
  | [] => "signals are mixed, no single driver dominating"
  | clauses => String.concat ". " clauses
  end.







(** The mandatory price history cannot be obtained: the API key is
    missing, the provider fails, the payload has no daily series, or the
    series has no usable bar. *)
Definition price_history_unavailable (cfg : Config) (net : Providers) (symbol : string) : Prop :=
  ALPHA_VANTAGE_KEY cfg = None
  \/ (exists error, daily net symbol = Rejected error)
  \/ daily net symbol = Resolved None
  \/ (exists series, daily net symbol = Resolved (Some series) /\ omap finite_bar series = []).

(** No sentiment snapshot: the provider is not configured, fails, or has
    no sentiment for the symbol. *)
Definition sentiment_unavailable (cfg : Config) (net : Providers) (symbol : string) : Prop :=
  FINNHUB_KEY cfg = None
  \/ (exists error, newsSentiment net symbol = Rejected error)
  \/ newsSentiment net symbol = Resolved None.

(** No volatility snapshot: the provider is not configured, fails, or
    lists no contract with a finite implied volatility. *)
Definition volatility_unavailable (cfg : Config) (net : Providers) (symbol : string) : Prop :=
  POLYGON_KEY cfg = None
  \/ (exists error, optionContracts net symbol = Rejected error)
  \/ (exists results, optionContracts net symbol = Resolved results
                      /\ omap finite_value results = []).

(** No fundamentals: the API key is missing, the provider fails, or the
    overview is empty. *)
Definition fundamentals_unavailable (cfg : Config) (net : Providers) (symbol : string) : Prop :=
  ALPHA_VANTAGE_KEY cfg = None
  \/ (exists error, overview net symbol = Rejected error)
  \/ overview net symbol = Resolved None.

(** The five signals that are derived from the price history alone. *)
Definition price_signals (pick : CompositePick) : list (option Q) :=
  [smaTrend (signals pick); rsi (signals pick); macd (signals pick);
   bollinger (signals pick); volumeSurge (signals pick)].

(** * Auxiliary predicates *)


(** The cache holds an entry for [symbol] that is still fresh at [now]. *)
Definition fresh_at (cfg : Config) (entries : gmap string CachedSignal) (now : Z)
    (symbol : string) : Prop :=
  exists entry,
    entries !! symbol = Some entry
    /\ (now - cached_updatedAt entry < CACHE_TTL_MS cfg)%Z.

(** Every cached payload was stamped at or before the current time. *)
Definition stamped_in_past (srv : Server) : Prop :=
  forall symbol entry,
    cache srv !! symbol = Some entry ->
    (updatedAt (cached_payload entry) <= clock srv)%Z.

(** Time passes and nothing else happens. *)
Definition at_time (now : Z) (srv : Server) : Server :=
  {| cache := cache srv; clock := now; assemblies := assemblies srv |}.

(** The server when the process starts. *)
Definition boot (now : Z) : Server :=
  {| cache := ∅; clock := now; assemblies := [] |}.

(** Descending order of score. *)
Definition score_ge (a b : CompositePick) : Prop := number_le (score b) (score a).

(** A sentence without its capital and its final full stop, for
    comparison with the wording of the specification. *)
Definition lowercase_ascii (c : ascii) : ascii :=
  let n := nat_of_ascii c in
  if ((65 <=? n) && (n <=? 90))%nat then ascii_of_nat (n + 32) else c.

Fixpoint drop_final_stop (s : string) : string :=
  match s with
  | EmptyString => EmptyString
  | String "." EmptyString => EmptyString
  | String c rest => String c (drop_final_stop rest)
  end.

Definition sentence_text (s : string) : string :=
  match drop_final_stop s with
  | EmptyString => EmptyString
  | String c rest => String (lowercase_ascii c) rest
  end.

(** The record that the handler lists for a settled call: the payload,
    or the degraded record when the call has rejected. *)
Definition listed_pick (s : Settlement) : CompositePick :=
  match result s with
  | Resolved payload => payload
  | Rejected _ => degraded (for_symbol s) (settledAt s)
  end.

Section Reachable.
Context {runtime : JsRuntime}.

(** The states of the server: it starts with an empty cache; time
    passes; [loadSignal] is called; a batch is handled. *)
Inductive reachable (cfg : Config) : Server -> Prop :=
| reach_boot (now : Z) :
    reachable cfg (boot now)
| reach_later (srv : Server) (later : Z) :
    reachable cfg srv -> (clock srv <= later)%Z -> reachable cfg (at_time later srv)
| reach_call (srv : Server) (net : Providers) (symbol : string) :
    reachable cfg srv -> reachable cfg (call_loadSignal cfg net symbol srv).2
| reach_batch (srv : Server) (net : Providers) (symbols : list string) :
    reachable cfg srv -> reachable cfg (getPicks cfg net symbols srv).2.

End Reachable.

(** * Sample runtime and sample data

    A concrete runtime and small concrete inputs, on which the properties
    below are instantiated. *)
Module Sample.

(** Square root through the integer square root: exact on squares of
    rationals. *)
Definition sqrt (x : Q) : Q :=
  inject_Z (Z.sqrt (Qnum x * Zpos (Qden x))) / inject_Z (Zpos (Qden x)).

Fixpoint pad_left (width : nat) (s : string) : string :=
  match width with
  | O => s
  | S width' =>
      if (String.length s <? width)%nat then pad_left width' ("0" +:+ s) else s
  end.

(** Fixed-point rendering, rounding half away from zero. *)
Definition fixed (x : Q) (digits : nat) : string :=
  let scale := (10 ^ Z.of_nat digits)%Z in
  let scaled := Qfloor (Qabs x * inject_Z scale + (1 # 2)) in
  let whole := DecimalString.NilZero.string_of_uint (N.to_uint (Z.to_N (scaled / scale))) in
  let fraction := DecimalString.NilZero.string_of_uint (N.to_uint (Z.to_N (scaled mod scale))) in
  (if Qlt_bool x 0 then "-" else "")
  +:+ whole
  +:+ (if (digits =? 0)%nat then "" else "." +:+ pad_left digits fraction).

Definition runtime : JsRuntime := {| Math_sqrt := sqrt; toFixed := fixed |}.

Definition cfg : Config :=
  {| ALPHA_VANTAGE_KEY := Some "demo";
     FINNHUB_KEY := Some "demo";
     POLYGON_KEY := None;
     SIGNAL_CACHE_MS := None |}.

(** Four daily entries for "AAA", out of order and one of them without
    a finite volume; an empty series for "ZZZ"; a failing request for
    every other symbol. *)
Definition bars : list DailyEntry :=
  [ {| entry_date := 2; entry_close := Finite 102; entry_volume := Finite 1000 |};
    {| entry_date := 1; entry_close := Finite 100; entry_volume := Finite 1000 |};
    {| entry_date := 3; entry_close := Finite 101; entry_volume := NotFinite |};
    {| entry_date := 4; entry_close := Finite 104; entry_volume := Finite 1500 |} ].

Definition net : Providers :=
  {| daily := fun symbol =>
       if String.eqb symbol "AAA" then Resolved (Some bars)
       else if String.eqb symbol "ZZZ" then Resolved (Some [])
       else Rejected "Request failed: 503 Service Unavailable";
     overview := fun symbol => Rejected "Request failed: 429 Too Many Requests";
     newsSentiment := fun symbol =>
       Resolved (Some {| payload_bullishPercent := Some (Num 80);
                         payload_bearishPercent := Some (Num 20) |});
     optionContracts := fun symbol => Resolved [];
     latency := fun symbol => 250%nat |}.

(** Scenario D of the specification: only the sentiment is present. *)
Definition sentiment_only : IndicatorSignals :=
  {| smaTrend := None; rsi := None; macd := None; bollinger := None;
     volumeSurge := None; sentiment := Some 0.6; ivRank := None |}.

Definition nothing_present : IndicatorSignals :=
  {| smaTrend := None; rsi := None; macd := None; bollinger := None;
     volumeSurge := None; sentiment := None; ivRank := None |}.

(** Fifteen closing prices. *)
Definition closes : list Q :=
  [100; 101; 102; 101; 103; 104; 103; 105; 106; 105; 107; 108; 107; 109; 110].

(** The server after a first request for "AAA" at time 0, once the
    process has started with an empty cache. *)
Definition warm : Server :=
  (call_loadSignal (runtime := runtime) cfg net "AAA" (boot 0)).2.

(** A second configuration, with the volatility provider configured and
    four contracts, one of which has no finite implied volatility. *)
Definition cfg_polygon : Config :=
  {| ALPHA_VANTAGE_KEY := Some "demo";
     FINNHUB_KEY := Some "demo";
     POLYGON_KEY := Some "demo";
     SIGNAL_CACHE_MS := Some 0%Z |}.

Definition net_polygon : Providers :=
  {| daily := daily net;
     overview := overview net;
     newsSentiment := newsSentiment net;
     optionContracts := fun symbol => Resolved [Finite 0.3; NotFinite; Finite 0.5; Finite 0.2];
     latency := latency net |}.

(** A configuration without the Alpha Vantage key. *)
Definition cfg_no_key : Config :=
  {| ALPHA_VANTAGE_KEY := None;
     FINNHUB_KEY := Some "demo";
     POLYGON_KEY := None;
     SIGNAL_CACHE_MS := None |}.

(** Sixteen prices that never fall, and sixteen that never rise. *)
Definition rising : list Q :=
  [1; 2; 2; 3; 4; 5; 6; 7; 8; 9; 10; 11; 12; 13; 14; 15].



Definition strong_trend : IndicatorSignals :=
  {| smaTrend := Some 0.5; rsi := None; macd := None; bollinger := None;
     volumeSurge := None; sentiment := Some 0.6; ivRank := None |}.

(** The same providers, but the sentiment payload has the text "n/a"
    for its bullish percentage, which [Number.parseFloat] reads as NaN. *)
Definition net_malformed : Providers :=
  {| daily := daily net;
     overview := overview net;
     newsSentiment := fun symbol =>
       Resolved (Some {| payload_bullishPercent := Some NaN;
                         payload_bearishPercent := Some (Num 20) |});
     optionContracts := optionContracts net;
     latency := latency net |}.

(** The first configuration without the sentiment provider. *)
Definition cfg_no_sentiment : Config :=
  {| ALPHA_VANTAGE_KEY := Some "demo";
     FINNHUB_KEY := None;
     POLYGON_KEY := None;
     SIGNAL_CACHE_MS := None |}.

End Sample.

(** * Rows of the detail list

    The rows that [buildDetails] pushes, one definition per [push] of the
    source, and the list they form.  [buildDetails_rows] shows that this
    is the list that [buildDetails] returns. *)
Section DetailRows.
Context {runtime : JsRuntime}.

Definition row_lastPrice (latestPrice : option Q) : IndicatorDetail :=
  {| detail_name := "Last Price";
     detail_value := match latestPrice with
                     | Some latestPrice => "$" +:+ toFixed latestPrice 2
                     | None => "n/a"
                     end;
     detail_signal := None |}.

Definition row_sma (sma50 sma200 : Q) : IndicatorDetail :=
  {| detail_name := "SMA50 / SMA200";
     detail_value := toFixed sma50 2 +:+ " / " +:+ toFixed sma200 2;
     detail_signal := Num <$> smaSignal (Some sma50) (Some sma200) |}.

Definition row_rsi (rsi : Q) : IndicatorDetail :=
  {| detail_name := "RSI(14)";
     detail_value := toFixed rsi 1;
     detail_signal := Num <$> rsiSignal (Some rsi) |}.

Definition row_macd (macd : MacdValue) : IndicatorDetail :=
  {| detail_name := "MACD (Hist)";
     detail_value := toFixed (macd_histogram macd) 3;
     detail_signal := Num <$> macdSignal (Some macd) |}.

Definition row_bollinger (latestPrice : option Q) (bands : Bands) : IndicatorDetail :=
  {| detail_name := "Bollinger Band";
     detail_value := toFixed (lower bands) 2 +:+ " - " +:+ toFixed (upper bands) 2;
     detail_signal := Num <$> bollingerSignal latestPrice (Some bands) |}.

Definition row_volume (volumeSurge : Q) : IndicatorDetail :=
  {| detail_name := "Volume vs Avg";
     detail_value := toFixed (volumeSurge * 100) 1 +:+ "%";
     detail_signal := Some (Num (clamp volumeSurge)) |}.

Definition row_sentiment (snapshot : SentimentSnapshot) : IndicatorDetail :=
  {| detail_name := "Sentiment (Bull/Bear)";
     detail_value := toFixed_number (bullishPercent snapshot) 1 +:+ "% / "
                     +:+ toFixed_number (bearishPercent snapshot) 1 +:+ "%";
     detail_signal := sentimentSignal (Some snapshot) |}.

Definition row_ivRank (ivRank : Q) : IndicatorDetail :=
  {| detail_name := "IV Rank";
     detail_value := toFixed (((ivRank + 1) / 2) * 100) 0;
     detail_signal := Some (Num ivRank) |}.

Definition rows_peRatio (fundamentals : Fundamentals) : list IndicatorDetail :=
  match default (Finite 0) (PERatio fundamentals) with
  | Finite peRatio =>
      if Qlt_bool 0 peRatio then
        [{| detail_name := "P/E Ratio"; detail_value := toFixed peRatio 1;
            detail_signal := None |}]
      else []
  | NotFinite => []
  end.

Definition rows_profitMargin (fundamentals : Fundamentals) : list IndicatorDetail :=
  match default (Finite 0) (ProfitMargin fundamentals) with
  | Finite profitMargin =>
      [{| detail_name := "Profit Margin";
          detail_value := toFixed (profitMargin * 100) 1 +:+ "%";
          detail_signal := None |}]
  | NotFinite => []
  end.

Definition rows_fundamentals (fundamentals : option Fundamentals) : list IndicatorDetail :=
  match fundamentals with
  | Some fundamentals => rows_peRatio fundamentals ++ rows_profitMargin fundamentals
  | None => []
  end.

Definition rows_indicators (params : DetailParams) : list IndicatorDetail :=
  match p_sma50 params, p_sma200 params with
  | Some sma50, Some sma200 => [row_sma sma50 sma200]
  | _, _ => []
  end
  ++ option_list (row_rsi <$> p_rsi params)
  ++ option_list (row_macd <$> p_macd params)
  ++ option_list (row_bollinger (p_latestPrice params) <$> p_bollinger params)
  ++ option_list (row_volume <$> p_volumeSurge params)
  ++ option_list (row_sentiment <$> p_sentiment params)
  ++ option_list (row_ivRank <$> p_ivRank params).

Definition detail_rows (params : DetailParams) : list IndicatorDetail :=
  row_lastPrice (p_latestPrice params)
  :: rows_indicators params ++ rows_fundamentals (p_fundamentals params).

End DetailRows.

(** The order in which the names of the rows can appear. *)
Definition detail_order : list string :=
  ["Last Price"; "SMA50 / SMA200"; "RSI(14)"; "MACD (Hist)"; "Bollinger Band";
   "Volume vs Avg"; "Sentiment (Bull/Bear)"; "IV Rank"; "P/E Ratio"; "Profit Margin"].

(** The signal that a row displays, by the name of the row. *)
Definition detail_key (name : string) : option SignalKey :=
  if String.eqb name "SMA50 / SMA200" then Some KsmaTrend
  else if String.eqb name "RSI(14)" then Some Krsi
  else if String.eqb name "MACD (Hist)" then Some Kmacd
  else if String.eqb name "Bollinger Band" then Some Kbollinger
  else if String.eqb name "Volume vs Avg" then Some KvolumeSurge
  else if String.eqb name "Sentiment (Bull/Bear)" then Some Ksentiment
  else if String.eqb name "IV Rank" then Some KivRank
  else None.

(** The parameters of [buildDetails] with other fundamentals. *)
Definition with_fundamentals (fundamentals : option Fundamentals) (params : DetailParams)
  : DetailParams :=
  {| p_symbol := p_symbol params;
     p_latestPrice := p_latestPrice params;
     p_sma50 := p_sma50 params;
     p_sma200 := p_sma200 params;
     p_rsi := p_rsi params;
     p_macd := p_macd params;
     p_bollinger := p_bollinger params;
     p_volumeSurge := p_volumeSurge params;
     p_sentiment := p_sentiment params;
     p_ivRank := p_ivRank params;
     p_fundamentals := fundamentals |}.

(** A row agrees with a record of signals: when it is the row of one of
    the seven signals, it displays that signal. *)
Definition row_agrees (s : IndicatorSignalsOf number) (row : IndicatorDetail) : Prop :=
  forall key,
    detail_key (detail_name row) = Some key -> detail_signal row = signal_of_number s key.

(** * Shapes of a price series *)

(** No value is lower than the one before it. *)
Definition never_falls (values : list Q) : Prop :=
  forall i, (1 <= i < length values)%nat -> at_index values (i - 1) <= at_index values i.



(** * Relations between records of signals *)

(** Every signal reversed. *)
Definition reversed (s : IndicatorSignals) : IndicatorSignals :=
  {| smaTrend := Qopp <$> smaTrend s;
     rsi := Qopp <$> rsi s;
     macd := Qopp <$> macd s;
     bollinger := Qopp <$> bollinger s;
     volumeSurge := Qopp <$> volumeSurge s;
     sentiment := Qopp <$> sentiment s;
     ivRank := Qopp <$> ivRank s |}.

(** The same signals are present in both records, and none is lower in
    the second one. *)
Definition signals_le (s s' : IndicatorSignals) : Prop :=
  forall key,
    match signal_of s key, signal_of s' key with
    | Some value, Some value' => value <= value'
    | None, None => True
    | _, _ => False
    end.


(** The six signals that are computed from filtered data, without the
    sentiment signal. *)
Definition without_sentiment {N : Type} (s : IndicatorSignalsOf N) : IndicatorSignals :=
  {| smaTrend := smaTrend s;
     rsi := rsi s;
     macd := macd s;
     bollinger := bollinger s;
     volumeSurge := volumeSurge s;
     sentiment := None;
     ivRank := ivRank s |}.

(** In the record that [getCompositeSignal] builds, a signal is in
    range when it is a number of [-1,1] or, for the sentiment signal
    only, NaN. *)
Definition in_signal_range_number (s : IndicatorSignalsOf number) : Prop :=
  forall key value,
    signal_of_number s key = Some value ->
    (exists bounded, value = Num bounded /\ -1 <= bounded <= 1)
    \/ (key = Ksentiment /\ value = NaN).

(** The record with another band-position signal. *)
Definition with_bollinger (band : option Q) (s : IndicatorSignals) : IndicatorSignals :=
  {| smaTrend := smaTrend s;
     rsi := rsi s;
     macd := macd s;
     bollinger := band;
     volumeSurge := volumeSurge s;
     sentiment := sentiment s;
     ivRank := ivRank s |}.

(** No signal is beyond the threshold at which the narrative mentions
    it. *)
Definition within_thresholds (s : IndicatorSignals) : Prop :=
  forall key value threshold,
    signal_of s key = Some value -> spec_threshold key = Some threshold ->
    Qabs value <= threshold.

(** * Cache *)

(** The freshness test of [loadSignal], as a boolean. *)
Definition is_fresh (cfg : Config) (entries : gmap string CachedSignal) (now : Z)
    (symbol : string) : bool :=
  match entries !! symbol with
  | Some entry => (now - cached_updatedAt entry <? CACHE_TTL_MS cfg)%Z
  | None => false
  end.

(** Every entry is filed under the symbol of its payload, was written
    at or before the time its payload was stamped, which is not in the
    future, and holds an assembled record (a record with details, which
    the degraded record has not). *)
Definition cache_consistent (srv : Server) : Prop :=
  forall key entry,
    cache srv !! key = Some entry ->
    symbol (cached_payload entry) = key
    /\ (cached_updatedAt entry <= updatedAt (cached_payload entry) <= clock srv)%Z
    /\ details (cached_payload entry) <> [].


(** * Requested symbols ([server.ts], lines 12-14 and 37-42)

    Strings are sequences of ASCII characters: [trim] removes the ASCII
    white space (tab, line feed, vertical tab, form feed, carriage return,
    space) and [toUpperCase] maps the letters a-z. *)

(** [s.split(',')] *)
Fixpoint split_commas (s : string) : list string :=
  match s with
  | EmptyString => [EmptyString]
  | String c rest =>
      if Ascii.eqb c "," then EmptyString :: split_commas rest
      else match split_commas rest with
           | [] => [String c EmptyString]
           | piece :: pieces => String c piece :: pieces
           end
  end.

Definition is_white_space (c : ascii) : bool :=
  let n := nat_of_ascii c in
  ((9 <=? n) && (n <=? 13))%nat || (n =? 32)%nat.

Fixpoint trimStart (s : string) : string :=
  match s with
  | EmptyString => EmptyString
  | String c rest => if is_white_space c then trimStart rest else s
  end.

Fixpoint trimEnd (s : string) : string :=
  match s with
  | EmptyString => EmptyString
  | String c rest =>
      match trimEnd rest with
      | EmptyString => if is_white_space c then EmptyString else String c EmptyString
      | kept => String c kept
      end
  end.

(** [s.trim()] *)
Definition trim (s : string) : string := trimEnd (trimStart s).

Definition uppercase_ascii (c : ascii) : ascii :=
  let n := nat_of_ascii c in
  if ((97 <=? n) && (n <=? 122))%nat then ascii_of_nat (n - 32) else c.

(** [s.toUpperCase()] *)
Fixpoint toUpperCase (s : string) : string :=
  match s with
  | EmptyString => EmptyString
  | String c rest => String (uppercase_ascii c) (toUpperCase rest)
  end.

(** [Boolean(s)] for a string: the empty string is falsy. *)
Definition truthy (s : string) : bool :=
  match s with EmptyString => false | String _ _ => true end.

(** [.split(',').map((symbol) => symbol.trim().toUpperCase()).filter(Boolean)] *)
Definition parseSymbols (s : string) : list string :=
  List.filter truthy (map (fun symbol => toUpperCase (trim symbol)) (split_commas s)).

(** [DEFAULT_SYMBOLS], from [process.env.WATCHLIST]. *)
Definition DEFAULT_SYMBOLS (WATCHLIST : option string) : list string :=
  parseSymbols (default "SPY,QQQ,AAPL,MSFT,NVDA" WATCHLIST).

(** The [symbols] of the handler, from [req.query.symbols]. *)
Definition requestedSymbols (WATCHLIST : option string) (query : option string) : list string :=
  let querySymbols := parseSymbols <$> query in
  match querySymbols with
  | Some querySymbols =>
      if (0 <? length querySymbols)%nat then querySymbols else DEFAULT_SYMBOLS WATCHLIST
  | None => DEFAULT_SYMBOLS WATCHLIST
  end.

(** A well-formed symbol: not empty, without comma, without white space
    at either end and without lower-case letter. *)
Fixpoint has_char (test : ascii -> bool) (s : string) : bool :=
  match s with
  | EmptyString => false
  | String c rest => test c || has_char test rest
  end.

Fixpoint last_char (s : string) : option ascii :=
  match s with
  | EmptyString => None
  | String c EmptyString => Some c
  | String _ rest => last_char rest
  end.

Definition first_char (s : string) : option ascii :=
  match s with
  | EmptyString => None
  | String c _ => Some c
  end.

Definition is_lower_case (c : ascii) : bool :=
  let n := nat_of_ascii c in ((97 <=? n) && (n <=? 122))%nat.

Definition well_formed_symbol (s : string) : Prop :=
  s <> EmptyString
  /\ has_char (fun c => Ascii.eqb c ",") s = false
  /\ has_char is_lower_case s = false
  /\ (forall c, first_char s = Some c -> is_white_space c = false)
  /\ (forall c, last_char s = Some c -> is_white_space c = false).

(** * Properties *)

(** ** Clamping *)

Lemma clamp_between_bounds (value min max : Q) :
  min <= max -> min <= clamp_between value min max <= max.
Proof.
  intros Hle. unfold clamp_between. split.
  - apply Q.le_max_l.
  - apply Q.max_lub; [exact Hle | apply Q.le_min_l].
Qed.

Lemma clamp_bounds (value : Q) : -1 <= clamp value <= 1.
Proof. apply clamp_between_bounds. discriminate. Qed.

Lemma clamp_inside (value : Q) : -1 <= value <= 1 -> clamp value == value.
Proof.
  intros [Hlo Hhi]. unfold clamp, clamp_between.
  rewrite (Q.min_r 1 value) by exact Hhi.
  apply Q.max_r. exact Hlo.
Qed.

#[export] Instance clamp_proper : Proper (Qeq ==> Qeq) clamp.
Proof.
  intros x y Hxy. unfold clamp, clamp_between. rewrite Hxy. reflexivity.
Qed.

(** [Math.max] and [Math.min] return one of their arguments, so clamping
    twice returns the very same number as clamping once. *)
Lemma clamp_idempotent (value : Q) : clamp (clamp value) = clamp value.
Proof.
  unfold clamp, clamp_between, Qmax, Qmin, GenericMinMax.gmax, GenericMinMax.gmin.
  destruct (1 ?= value) eqn:Hhi; destruct (-1 ?= value) eqn:Hlo;
    change (-1 ?= 1) with Lt; cbv iota;
    rewrite ?Hhi, ?Hlo; cbv iota; try reflexivity;
    rewrite ?Hhi, ?Hlo; reflexivity.
Qed.

(** ** Numbers that may be infinite or NaN *)

(** On a rational, [clamp_number] is [clamp]. *)
Lemma clamp_number_Num (value : Q) : clamp_number (Num value) = Num (clamp value).
Proof. reflexivity. Qed.

(** Clamping sends the infinities to the bounds and leaves NaN, and
    nothing else, outside [-1,1]. *)
Lemma clamp_number_cases (value : number) :
  (value = NaN /\ clamp_number value = NaN)
  \/ exists clamped, clamp_number value = Num clamped /\ -1 <= clamped <= 1.
Proof.
  destruct value as [x| | |].
  - right. exists (clamp x). split; [reflexivity | apply clamp_bounds].
  - right. exists 1. split; [reflexivity | split; discriminate].
  - right. exists (-1). split; [reflexivity | split; discriminate].
  - left. split; reflexivity.
Qed.

Lemma clamp_number_idempotent (value : number) :
  clamp_number (clamp_number value) = clamp_number value.
Proof.
  destruct value as [x| | |]; try reflexivity.
  rewrite !clamp_number_Num, clamp_idempotent. reflexivity.
Qed.

Lemma number_div_Num (value divisor : Q) :
  Qeq_bool divisor 0 = false -> number_div (Num value) divisor = Num (value / divisor).
Proof. intros Hdivisor. cbn. rewrite Hdivisor. reflexivity. Qed.

(** A difference is NaN exactly when a term is NaN or both terms are the
    same infinity. *)
Lemma number_sub_NaN (a b : number) :
  number_sub a b = NaN
  <-> a = NaN \/ b = NaN
      \/ (a = PlusInfinity /\ b = PlusInfinity)
      \/ (a = MinusInfinity /\ b = MinusInfinity).
Proof.
  destruct a, b; cbn; split; intros H; try discriminate; try reflexivity; auto;
    destruct H as [H|[H|[[H H']|[H H']]]]; discriminate.
Qed.

(** ** Composite scorer *)

Lemma weights_positive (key : SignalKey) : 0 < weights key.
Proof. destruct key; reflexivity. Qed.

(** The loop of [weightedComposite] accumulates, from the left, the two
    sums that the specification writes as Σ. *)
Lemma composite_loop (s : IndicatorSignals) (keys : list SignalKey) (weightedSum totalWeight : Q) :
  let sums := fold_left (composite_step s) keys (weightedSum, totalWeight) in
  fst sums ==
    weightedSum
    + fold_right (fun key sum => match signal_of s key with
                                 | Some value => value * weights key + sum
                                 | None => sum
                                 end) 0 keys
  /\ snd sums ==
    totalWeight
    + fold_right (fun key sum => match signal_of s key with
                                 | Some _ => weights key + sum
                                 | None => sum
                                 end) 0 keys.
Proof.
  revert weightedSum totalWeight.
  induction keys as [|key keys IH]; intros weightedSum totalWeight; cbn [fold_left fold_right].
  - cbn. split; ring.
  - unfold composite_step at 2 4. destruct (signal_of s key) as [value|].
    + destruct (IH (weightedSum + value * weights key) (totalWeight + weights key)) as [Hs Hw].
      cbv zeta in Hs, Hw. rewrite Hs, Hw. split; ring.
    + apply IH.
Qed.

Lemma weights_spec (key : SignalKey) : weights key == spec_weight key.
Proof. destruct key; reflexivity. Qed.

Lemma spec_weights_total : fold_right (fun key sum => spec_weight key + sum) 0 Object_keys == 1.
Proof. reflexivity. Qed.

Lemma spec_sums (s : IndicatorSignals) (keys : list SignalKey) :
  fold_right (fun key sum => match signal_of s key with
                             | Some value => value * weights key + sum
                             | None => sum
                             end) 0 keys
  == fold_right (fun key sum => match signal_of s key with
                                | Some value => value * spec_weight key + sum
                                | None => sum
                                end) 0 keys
  /\ fold_right (fun key sum => match signal_of s key with
                                | Some _ => weights key + sum
                                | None => sum
                                end) 0 keys
     == fold_right (fun key sum => match signal_of s key with
                                   | Some _ => spec_weight key + sum
                                   | None => sum
                                   end) 0 keys.
Proof.
  induction keys as [|key keys [IHsum IHweight]]; cbn [fold_right]; [split; reflexivity|].
  destruct (signal_of s key); [|split; assumption].
  rewrite IHsum, IHweight, (weights_spec key). split; reflexivity.
Qed.

(** The result of the loop of [weightedComposite], in the terms of the
    specification. *)
Lemma composite_sums (s : IndicatorSignals) :
  let sums := fold_left (composite_step s) Object_keys (0, 0) in
  fst sums == spec_weighted_sum s /\ snd sums == spec_present_weight s.
Proof.
  destruct (composite_loop s Object_keys 0 0) as [Hsum Hweight].
  destruct (spec_sums s Object_keys) as [Hsum' Hweight'].
  cbv zeta in *. rewrite Hsum, Hweight, Hsum', Hweight', !Qplus_0_l.
  split; reflexivity.
Qed.

Lemma weightedComposite_unfold (s : IndicatorSignals) :
  weightedComposite s =
    let sums := fold_left (composite_step s) Object_keys (0, 0) in
    if Qeq_bool (snd sums) 0 then 0 else clamp (fst sums / snd sums).
Proof.
  unfold weightedComposite.
  destruct (fold_left (composite_step s) Object_keys (0, 0)) as [weightedSum totalWeight].
  reflexivity.
Qed.

Lemma present_weight_nonneg (s : IndicatorSignals) (keys : list SignalKey) :
  0 <= fold_right (fun key sum => match signal_of s key with
                                  | Some _ => weights key + sum
                                  | None => sum
                                  end) 0 keys.
Proof.
  induction keys as [|key keys IH]; cbn [fold_right]; [discriminate|].
  destruct (signal_of s key); [|exact IH].
  pose proof (weights_positive key). lra.
Qed.

Lemma present_weight_positive (s : IndicatorSignals) (keys : list SignalKey) (key : SignalKey) :
  In key keys -> is_Some (signal_of s key) ->
  0 < fold_right (fun key sum => match signal_of s key with
                                 | Some _ => weights key + sum
                                 | None => sum
                                 end) 0 keys.
Proof.
  intros Hin [value Hvalue].
  induction keys as [|key' keys IH]; cbn [fold_right]; [contradiction|].
  pose proof (present_weight_nonneg s keys) as Hnonneg.
  destruct Hin as [->|Hin].
  - rewrite Hvalue. pose proof (weights_positive key). lra.
  - specialize (IH Hin). destruct (signal_of s key'); [|exact IH].
    pose proof (weights_positive key'). lra.
Qed.

Lemma Object_keys_complete (key : SignalKey) : In key Object_keys.
Proof. destruct key; cbn; tauto. Qed.

Lemma spec_present_weight_positive (s : IndicatorSignals) :
  some_present s -> 0 < spec_present_weight s.
Proof.
  intros (key & value & Hvalue).
  unfold spec_present_weight. rewrite <- (proj2 (spec_sums s Object_keys)).
  apply (present_weight_positive s Object_keys key); [apply Object_keys_complete | eauto].
Qed.

(** C1. The composite score is the clamped quotient of the weighted sum
    of the present signals by the sum of their weights, whenever a signal
    is present; it always lies in [-1,1]; and it is the number 0 when all
    seven signals are absent.  The sums are taken with the weights of
    the specification ([spec_weight]: 0.20, 0.15, 0.20, 0.10, 0.10, 0.15,
    0.10).  No assumption on the range of the signals is needed (so the
    statement holds in particular for signals in [-1,1], for which see
    also [weightedComposite_in_range]). *)
Theorem weightedComposite_spec (s : IndicatorSignals) :
  (some_present s ->
   weightedComposite s == clamp (spec_weighted_sum s / spec_present_weight s))
  /\ -1 <= weightedComposite s <= 1
  /\ (all_absent s -> weightedComposite s = 0).
Proof.
  rewrite weightedComposite_unfold.
  destruct (composite_sums s) as [Hsum Hweight]. cbv zeta in *.
  split; [|split].
  - intros Hpresent. apply spec_present_weight_positive in Hpresent.
    destruct (Qeq_bool _ 0) eqn:Hzero.
    + apply Qeq_bool_eq in Hzero. rewrite Hweight in Hzero. lra.
    + rewrite Hsum, Hweight. reflexivity.
  - destruct (Qeq_bool _ 0); [split; discriminate | apply clamp_bounds].
  - intros Habsent.
    assert (Hloop : forall keys acc, fold_left (composite_step s) keys acc = acc).
    { induction keys as [|key keys IH]; intros [weightedSum totalWeight]; [reflexivity|].
      cbn [fold_left]. unfold composite_step at 2. rewrite (Habsent key). apply IH. }
    rewrite Hloop. reflexivity.
Qed.



(** ** Loops *)



(** A loop only runs its body at the indices [lo <= i < hi]. *)
Lemma for_steps_ext {St : Type} (body body' : nat -> St -> St) :
  forall steps i s,
    (forall j s, (i <= j < i + steps)%nat -> body j s = body' j s) ->
    for_steps steps i body s = for_steps steps i body' s.
Proof.
  induction steps as [|steps IH]; intros i s Hagree; cbn [for_steps]; [reflexivity|].
  rewrite (Hagree i s) by lia. apply IH. intros j s' Hj. apply Hagree. lia.
Qed.

Lemma for_range_ext {St : Type} (body body' : nat -> St -> St) (lo hi : nat) (s : St) :
  (forall i s, (lo <= i < hi)%nat -> body i s = body' i s) ->
  for_range lo hi body s = for_range lo hi body' s.
Proof.
  intros Hagree. unfold for_range. apply for_steps_ext.
  intros j s' Hj. apply Hagree. lia.
Qed.

Lemma at_index_in_bounds (values : list Q) (i : nat) (other : Q) :
  (i < length values)%nat -> at_index values i = nth i values other.
Proof. intros Hi. unfold at_index. apply nth_indep. exact Hi. Qed.

(** The loop of [calculateEMA] reads [values] inside its bounds only. *)
Lemma calculateEMA_reads_in_bounds (values : list Q) (period : nat) (other smoothing ema : Q) :
  for_range period (length values)
    (fun i ema => at_index values i * smoothing + ema * (1 - smoothing)) ema
  = for_range period (length values)
      (fun i ema => nth i values other * smoothing + ema * (1 - smoothing)) ema.
Proof.
  apply for_range_ext. intros i s Hi.
  rewrite (at_index_in_bounds values i other) by lia. reflexivity.
Qed.

(** So do the two loops of [calculateRSI], on more than [period] values. *)
Lemma calculateRSI_reads_in_bounds (values : list Q) (period i : nat) (other : Q) :
  (period < length values)%nat ->
  (1 <= i < period + 1)%nat \/ (period + 1 <= i < length values)%nat ->
  at_index values i = nth i values other
  /\ at_index values (i - 1) = nth (i - 1) values other.
Proof.
  intros Hlength Hi. split; apply at_index_in_bounds; lia.
Qed.

Lemma number_of_nat_positive (n : nat) : (0 < n)%nat -> 0 < number_of_nat n.
Proof.
  intros Hn. unfold number_of_nat, Qlt. cbn. lia.
Qed.



(** ** Relative-strength oscillator *)












(** ** Sorting *)

Lemma sort_insert_perm {A : Type} (compare : A -> A -> Q) (x : A) (l : list A) :
  Permutation (x :: l) (sort_insert compare x l).
Proof.
  induction l as [|y l IH]; cbn [sort_insert]; [reflexivity|].
  destruct (Qle_bool (compare x y) 0); [reflexivity|].
  rewrite perm_swap. apply perm_skip, IH.
Qed.

Lemma array_sort_perm {A : Type} (compare : A -> A -> Q) (l : list A) :
  Permutation l (array_sort compare l).
Proof.
  induction l as [|x l IH]; cbn [array_sort fold_right]; [reflexivity|].
  rewrite <- sort_insert_perm. apply perm_skip, IH.
Qed.

Lemma array_sort_length {A : Type} (compare : A -> A -> Q) (l : list A) :
  length (array_sort compare l) = length l.
Proof. symmetry. apply Permutation_length, array_sort_perm. Qed.

Lemma array_sort_nil {A : Type} (compare : A -> A -> Q) (l : list A) :
  array_sort compare l = [] -> l = [].
Proof.
  intros Hsorted. apply Permutation_nil. rewrite <- Hsorted. symmetry. apply array_sort_perm.
Qed.

(** ** Window requirements *)

Lemma macdSeries_length (values : list Q) :
  length (macdSeries values) = (length values - 26)%nat.
Proof.
  unfold macdSeries, for_range.
  match goal with
  | |- context [for_steps ?n 26 ?body ?init] =>
      assert (Hlen : forall steps i s,
                 length (for_steps steps i body s).2 = (length s.2 + steps)%nat)
  end.
  { induction steps as [|steps IH]; intros i [[emaShort emaLong] macdValues];
      cbn [for_steps]; [cbn; lia|].
    rewrite IH. cbn [snd]. rewrite length_app. cbn. lia. }
  match goal with
  | |- context [for_steps ?n 26 ?body ?init] =>
      specialize (Hlen n 26%nat init); destruct (for_steps n 26 body init) as [[e1 e2] series]
  end.
  cbn [snd] in Hlen. cbn in Hlen. exact Hlen.
Qed.

(** The baseline of the volume-anomaly ratio: the mean of the [period]
    volumes that precede the most recent one. *)
Lemma calculateVolumeSurge_absent (volumes : list Q) (period : nat) :
  calculateVolumeSurge volumes period = None <->
  (length volumes <= period)%nat
  \/ rollingAverage (slice volumes (- (Z.of_nat period + 1)) (-1)) == 0.
Proof.
  unfold calculateVolumeSurge.
  destruct (length volumes <=? period)%nat eqn:Hguard.
  - apply Nat.leb_le in Hguard. split; [left; exact Hguard | reflexivity].
  - apply Nat.leb_gt in Hguard.
    destruct (Qeq_bool _ 0) eqn:Hbaseline.
    + apply Qeq_bool_eq in Hbaseline. split; [right; exact Hbaseline | reflexivity].
    + apply Qeq_bool_neq in Hbaseline. split; [discriminate|].
      intros [Hshort|Hzero]; [lia | contradiction].
Qed.

Section Windows.
Context {runtime : JsRuntime}.

(** C5. Each indicator function is a total function into "a number or
    absence" (the embedding has no exceptional outcome, as the source has
    no [throw] and no operation that can raise on an array of numbers),
    and it returns absence on every input below its window: fewer than
    [period] values for the two moving averages and the band statistics,
    at most [period] values for the oscillator and the volume-anomaly
    ratio, fewer than 35 values for the trend-convergence indicator.
    Above the window each returns a value, except that the
    volume-anomaly ratio is also absent when its baseline is zero. *)
Theorem indicators_absent_below_window (values : list Q) (period : nat) (multiplier : Q) :
  (calculateSMA values period = None <-> (length values < period)%nat)
  /\ (calculateEMA values period = None <-> (length values < period)%nat)
  /\ (calculateBollinger values period multiplier = None <-> (length values < period)%nat)
  /\ (calculateRSI values period = None <-> (length values <= period)%nat)
  /\ (calculateVolumeSurge values period = None <->
      (length values <= period)%nat
      \/ rollingAverage (slice values (- (Z.of_nat period + 1)) (-1)) == 0)
  /\ (calculateMACD values = None <-> (length values < 35)%nat).
Proof.
  repeat split.
  - unfold calculateSMA. destruct (length values <? period)%nat eqn:Hguard;
      [intros _; apply Nat.ltb_lt, Hguard | discriminate].
  - intros Hshort. unfold calculateSMA. apply Nat.ltb_lt in Hshort. rewrite Hshort. reflexivity.
  - unfold calculateEMA. destruct (length values <? period)%nat eqn:Hguard;
      [intros _; apply Nat.ltb_lt, Hguard | discriminate].
  - intros Hshort. unfold calculateEMA. apply Nat.ltb_lt in Hshort. rewrite Hshort. reflexivity.
  - unfold calculateBollinger. destruct (length values <? period)%nat eqn:Hguard;
      [intros _; apply Nat.ltb_lt, Hguard | discriminate].
  - intros Hshort. unfold calculateBollinger. apply Nat.ltb_lt in Hshort.
    rewrite Hshort. reflexivity.
  - unfold calculateRSI. destruct (length values <=? period)%nat eqn:Hguard;
      [intros _; apply Nat.leb_le, Hguard|].
    destruct (rsiAverages values period) as [avgGain avgLoss].
    destruct (Qeq_bool avgLoss 0); discriminate.
  - intros Hshort. unfold calculateRSI. apply Nat.leb_le in Hshort. rewrite Hshort. reflexivity.
  - apply calculateVolumeSurge_absent.
  - apply calculateVolumeSurge_absent.
  - unfold calculateMACD. destruct (length values <? 35)%nat eqn:Hguard;
      [intros _; apply Nat.ltb_lt, Hguard|].
    apply Nat.ltb_ge in Hguard. rewrite macdSeries_length.
    destruct (length values - 26 <? 9)%nat eqn:Hseries; [|discriminate].
    apply Nat.ltb_lt in Hseries. lia.
  - intros Hshort. unfold calculateMACD. apply Nat.ltb_lt in Hshort. rewrite Hshort. reflexivity.
Qed.

End Windows.

(** ** Sentiment signal *)

Lemma fetchSentiment_resolves (cfg : Config) (net : Providers) (symbol : string) :
  exists snapshot, fetchSentiment cfg net symbol = Resolved snapshot.
Proof.
  unfold fetchSentiment. destruct (FINNHUB_KEY cfg); [|eauto].
  destruct (newsSentiment net symbol) as [[payload|]|error]; cbn; eauto.
Qed.

Lemma fetchSentiment_score (cfg : Config) (net : Providers) (symbol : string)
    (snapshot : SentimentSnapshot) :
  fetchSentiment cfg net symbol = Resolved (Some snapshot) ->
  sentiment_score snapshot
  = clamp_number (number_div (number_sub (bullishPercent snapshot) (bearishPercent snapshot)) 100).
Proof.
  unfold fetchSentiment. destruct (FINNHUB_KEY cfg); [|discriminate].
  destruct (newsSentiment net symbol) as [[payload|]|error]; cbn; try discriminate.
  intros [= <-]. reflexivity.
Qed.

Lemma fetchSentiment_absent (cfg : Config) (net : Providers) (symbol : string) :
  fetchSentiment cfg net symbol = Resolved None <-> sentiment_unavailable cfg net symbol.
Proof.
  unfold fetchSentiment, sentiment_unavailable.
  destruct (FINNHUB_KEY cfg) as [key|]; [|split; auto].
  destruct (newsSentiment net symbol) as [[payload|]|error]; cbn; split;
    try discriminate; eauto.
  intros [Hkey|[[error Herror]|Hnone]]; discriminate.
Qed.

(** C8. The sentiment signal of a snapshot delivered by [fetchSentiment]
    is [clamp((bullishPercent - bearishPercent) / 100)]: the clamp is
    applied where the snapshot is built and clamping again in
    [sentimentSignal] changes nothing.  This holds in the arithmetic of
    [number] for every snapshot, and for a snapshot whose percentages are
    numbers it is the clamp on rationals.  The signal is absent exactly
    when there is no snapshot, which happens exactly when the sentiment
    provider is unconfigured, fails or has no sentiment.  With 80%
    bullish and 20% bearish the signal is 0.6. *)
Theorem sentimentSignal_spec (cfg : Config) (net : Providers) (symbol : string) :
  (forall snapshot,
      fetchSentiment cfg net symbol = Resolved (Some snapshot) ->
      sentimentSignal (Some snapshot)
      = Some (clamp_number
                (number_div (number_sub (bullishPercent snapshot) (bearishPercent snapshot))
                   100)))
  /\ (forall snapshot bullish bearish,
      fetchSentiment cfg net symbol = Resolved (Some snapshot) ->
      bullishPercent snapshot = Num bullish -> bearishPercent snapshot = Num bearish ->
      sentimentSignal (Some snapshot) = Some (Num (clamp ((bullish - bearish) / 100))))
  /\ (forall snapshot, sentimentSignal snapshot = None <-> snapshot = None)
  /\ (fetchSentiment cfg net symbol = Resolved None <-> sentiment_unavailable cfg net symbol)
  /\ (forall snapshot bullish bearish,
      fetchSentiment cfg net symbol = Resolved (Some snapshot) ->
      bullishPercent snapshot = Num bullish -> bearishPercent snapshot = Num bearish ->
      bullish == 80 -> bearish == 20 ->
      exists value, sentimentSignal (Some snapshot) = Some (Num value) /\ value == 0.6).
Proof.
  assert (Hsignal : forall snapshot,
             fetchSentiment cfg net symbol = Resolved (Some snapshot) ->
             sentimentSignal (Some snapshot)
             = Some (clamp_number
                       (number_div
                          (number_sub (bullishPercent snapshot) (bearishPercent snapshot))
                          100))).
  { intros snapshot Hfetch. cbn [sentimentSignal].
    rewrite (fetchSentiment_score _ _ _ _ Hfetch), clamp_number_idempotent. reflexivity. }
  assert (Hnumeric : forall snapshot bullish bearish,
             fetchSentiment cfg net symbol = Resolved (Some snapshot) ->
             bullishPercent snapshot = Num bullish -> bearishPercent snapshot = Num bearish ->
             sentimentSignal (Some snapshot) = Some (Num (clamp ((bullish - bearish) / 100)))).
  { intros snapshot bullish bearish Hfetch Hbull Hbear.
    rewrite (Hsignal _ Hfetch), Hbull, Hbear. reflexivity. }
  split; [exact Hsignal|]. split; [exact Hnumeric|]. split; [|split].
  - intros [snapshot|]; cbn; split; congruence.
  - apply fetchSentiment_absent.
  - intros snapshot bullish bearish Hfetch Hbull Hbear Heighty Htwenty.
    eexists. split; [apply (Hnumeric _ _ _ Hfetch Hbull Hbear)|].
    rewrite Heighty, Htwenty. reflexivity.
Qed.

(** ** Explanation builder *)

Lemma Qlt_bool_iff (x y : Q) : Qlt_bool x y = true <-> x < y.
Proof.
  unfold Qlt_bool. rewrite negb_true_iff. split.
  - intros Hle. apply Qnot_le_lt. intros Hyx. apply Qle_bool_iff in Hyx. congruence.
  - intros Hlt. destruct (Qle_bool y x) eqn:Hle; [|reflexivity].
    apply Qle_bool_iff in Hle. lra.
Qed.

Lemma Qlt_bool_false_iff (x y : Q) : Qlt_bool x y = false <-> y <= x.
Proof.
  unfold Qlt_bool. rewrite negb_false_iff. apply Qle_bool_iff.
Qed.

(** A block of [buildExplanation] appends the clause that the
    specification describes with an absolute value. *)
Lemma push_highlight_clause (highlights : list string) (signal : option Q)
    (threshold : Q) (bullish bearish : string) :
  0 <= threshold ->
  push_highlight highlights signal threshold bullish bearish
  = highlights ++
      match signal with
      | Some value =>
          if Qlt_bool threshold (Qabs value)
          then [if Qlt_bool 0 value then bullish else bearish]
          else []
      | None => []
      end.
Proof.
  intros Hthreshold. unfold push_highlight.
  destruct signal as [value|]; [|symmetry; apply app_nil_r].
  destruct (Qlt_bool threshold value) eqn:Hup.
  - apply Qlt_bool_iff in Hup.
    assert (Habs : Qlt_bool threshold (Qabs value) = true).
    { apply Qlt_bool_iff. pose proof (Qle_Qabs value). lra. }
    assert (Hpos : Qlt_bool 0 value = true) by (apply Qlt_bool_iff; lra).
    rewrite Habs, Hpos. reflexivity.
  - apply Qlt_bool_false_iff in Hup.
    destruct (Qlt_bool value (- threshold)) eqn:Hdown.
    + apply Qlt_bool_iff in Hdown.
      assert (Habs : Qlt_bool threshold (Qabs value) = true).
      { apply Qlt_bool_iff. rewrite Qabs_neg by lra. lra. }
      assert (Hneg : Qlt_bool 0 value = false) by (apply Qlt_bool_false_iff; lra).
      rewrite Habs, Hneg. reflexivity.
    + apply Qlt_bool_false_iff in Hdown.
      assert (Habs : Qlt_bool threshold (Qabs value) = false).
      { apply Qlt_bool_false_iff. apply Qabs_Qle_condition. split; lra. }
      rewrite Habs. symmetry. apply app_nil_r.
Qed.

Lemma omap_cons_app {A B : Type} (f : A -> option B) (x : A) (l : list A) :
  omap f (x :: l) = option_list (f x) ++ omap f l.
Proof. cbn. destruct (f x); reflexivity. Qed.

Lemma spec_clause_list (s : IndicatorSignals) (key : SignalKey) (threshold : Q) :
  spec_threshold key = Some threshold ->
  option_list (spec_clause s key)
  = match signal_of s key with
    | Some value =>
        if Qlt_bool threshold (Qabs value)
        then [if Qlt_bool 0 value then phrasing key true else phrasing key false]
        else []
    | None => []
    end.
Proof.
  intros Hthreshold. unfold spec_clause. rewrite Hthreshold.
  destruct (signal_of s key) as [value|]; [|reflexivity].
  destruct (Qlt_bool threshold (Qabs value)); [|reflexivity].
  destruct (Qlt_bool 0 value); reflexivity.
Qed.

Lemma spec_clauses_unfold (s : IndicatorSignals) :
  spec_clauses s
  = option_list (spec_clause s KsmaTrend) ++ option_list (spec_clause s Krsi)
    ++ option_list (spec_clause s Kmacd) ++ option_list (spec_clause s KvolumeSurge)
    ++ option_list (spec_clause s Ksentiment) ++ option_list (spec_clause s KivRank).
Proof.
  unfold spec_clauses, Object_keys. rewrite !omap_cons_app.
  replace (option_list (spec_clause s Kbollinger)) with (@nil string).
  - cbn [omap list_omap app]. rewrite app_nil_r. reflexivity.
  - unfold spec_clause. cbn [spec_threshold]. destruct (signal_of s Kbollinger); reflexivity.
Qed.

Lemma buildExplanation_highlights (s : IndicatorSignals) :
  buildExplanation s
  = if (length (spec_clauses s) =? 0)%nat then neutral_sentence
    else String.concat ". " (spec_clauses s) +:+ ".".
Proof.
  unfold buildExplanation.
  rewrite !push_highlight_clause by discriminate.
  rewrite spec_clauses_unfold.
  rewrite (spec_clause_list s KsmaTrend 0.2), (spec_clause_list s Krsi 0.3),
    (spec_clause_list s Kmacd 0.3), (spec_clause_list s KvolumeSurge 0.3),
    (spec_clause_list s Ksentiment 0.2), (spec_clause_list s KivRank 0.2) by reflexivity.
  cbn [signal_of phrasing app]. rewrite <- !app_assoc. reflexivity.
Qed.

(** C9 (as amended).  For each present signal whose absolute value
    exceeds its threshold (0.2 for trend, sentiment and volatility rank;
    0.3 for oscillator, momentum divergence and volume anomaly) the
    builder emits exactly one clause of the fixed library, bullish for a
    positive value and bearish for a negative one, in the order trend,
    oscillator, momentum divergence, volume anomaly, sentiment,
    volatility rank; it joins the clauses with ". " and ends the result
    with a final "."; when no signal qualifies it returns the neutral
    sentence "Signals are mixed with no single driver dominating the
    setup.". *)
Theorem buildExplanation_spec (s : IndicatorSignals) :
  buildExplanation s
  = match spec_clauses s with
    | [] => "Signals are mixed with no single driver dominating the setup."
    | clauses => String.concat ". " clauses +:+ "."
    end.
Proof.
  rewrite buildExplanation_highlights.
  destruct (spec_clauses s); reflexivity.
Qed.

(** ** The functions on [number] and the functions on rationals *)

Lemma signal_of_number_numeric (s : IndicatorSignals) (key : SignalKey) :
  signal_of_number (with_numbers s) key = Num <$> signal_of s key.
Proof. destruct key; reflexivity. Qed.

Lemma composite_loop_numeric (s : IndicatorSignals) (keys : list SignalKey) :
  forall weightedSum totalWeight,
    fold_left (composite_step_number (with_numbers s)) keys (Num weightedSum, totalWeight)
    = (Num (fst (fold_left (composite_step s) keys (weightedSum, totalWeight))),
       snd (fold_left (composite_step s) keys (weightedSum, totalWeight))).
Proof.
  induction keys as [|key keys IH]; intros weightedSum totalWeight; [reflexivity|].
  cbn [fold_left]. unfold composite_step_number at 2, composite_step at 2 4.
  rewrite signal_of_number_numeric.
  destruct (signal_of s key) as [value|]; cbn [fmap option_fmap option_map]; apply IH.
Qed.

(** On a record of rationals, [weightedComposite_number] is
    [weightedComposite]. *)
Lemma weightedComposite_number_numeric (s : IndicatorSignals) :
  weightedComposite_number (with_numbers s) = Num (weightedComposite s).
Proof.
  unfold weightedComposite_number, weightedComposite.
  rewrite composite_loop_numeric.
  destruct (fold_left (composite_step s) Object_keys (0, 0)) as [weightedSum totalWeight].
  cbn [fst snd].
  destruct (Qeq_bool totalWeight 0) eqn:Hzero; [reflexivity|].
  rewrite number_div_Num by exact Hzero. apply clamp_number_Num.
Qed.

Lemma push_highlight_number_numeric (highlights : list string) (signal : option Q)
    (threshold : Q) (bullish bearish : string) :
  push_highlight_number highlights (Num <$> signal) threshold bullish bearish
  = push_highlight highlights signal threshold bullish bearish.
Proof. destruct signal; reflexivity. Qed.

(** A NaN pushes no clause. *)
Lemma push_highlight_number_NaN (highlights : list string) (threshold : Q)
    (bullish bearish : string) :
  push_highlight_number highlights (Some NaN) threshold bullish bearish = highlights.
Proof. reflexivity. Qed.

(** On a record of rationals, [buildExplanation_number] is
    [buildExplanation]. *)
Lemma buildExplanation_number_numeric (s : IndicatorSignals) :
  buildExplanation_number (with_numbers s) = buildExplanation s.
Proof.
  unfold buildExplanation_number, buildExplanation. cbn [with_numbers smaTrend rsi macd
    bollinger volumeSurge sentiment ivRank].
  rewrite push_highlight_number_numeric. reflexivity.
Qed.

(** A sentiment signal that is NaN makes the score NaN, and leaves the
    explanation as it is without the sentiment signal. *)
Lemma weightedComposite_number_NaN (s : IndicatorSignalsOf number) :
  sentiment s = Some NaN -> weightedComposite_number s = NaN.
Proof.
  destruct s as [trend oscillator convergence band surge mood rank]. cbn [sentiment].
  intros ->. destruct trend, oscillator, convergence, band, surge, rank; reflexivity.
Qed.

Lemma buildExplanation_number_NaN (s : IndicatorSignalsOf number) :
  sentiment s = Some NaN -> buildExplanation_number s = buildExplanation (without_sentiment s).
Proof.
  intros Hsentiment. unfold buildExplanation_number, buildExplanation.
  cbn [without_sentiment smaTrend rsi macd bollinger volumeSurge sentiment ivRank].
  rewrite Hsentiment, push_highlight_number_NaN. reflexivity.
Qed.

(** A record with the sentiment signal [Num value] or without sentiment
    signal is a record of rationals. *)
Lemma with_numbers_numeric (s : IndicatorSignalsOf number) (mood : option Q) :
  sentiment s = Num <$> mood ->
  s = with_numbers {| smaTrend := smaTrend s; rsi := rsi s; macd := macd s;
                      bollinger := bollinger s; volumeSurge := volumeSurge s;
                      sentiment := mood; ivRank := ivRank s |}.
Proof.
  destruct s as [trend oscillator convergence band surge mood' rank]. cbn [sentiment].
  intros ->. reflexivity.
Qed.


(** ** Signal assembly *)

Lemma fetchVolatility_resolves (cfg : Config) (net : Providers) (symbol : string) :
  exists snapshot, fetchVolatility cfg net symbol = Resolved snapshot.
Proof.
  unfold fetchVolatility. destruct (POLYGON_KEY cfg); [|eauto].
  destruct (optionContracts net symbol) as [results|error]; cbn; [|eauto].
  destruct (length results =? 0)%nat; [eauto|].
  destruct (omap finite_value results); eauto.
Qed.

Lemma fetchVolatility_absent (cfg : Config) (net : Providers) (symbol : string) :
  volatility_unavailable cfg net symbol -> fetchVolatility cfg net symbol = Resolved None.
Proof.
  unfold fetchVolatility, volatility_unavailable.
  intros [Hkey|[[error Herror]|(results & Hresults & Hfinite)]].
  - rewrite Hkey. reflexivity.
  - destruct (POLYGON_KEY cfg); [|reflexivity]. rewrite Herror. reflexivity.
  - destruct (POLYGON_KEY cfg); [|reflexivity]. rewrite Hresults. cbn.
    destruct (length results =? 0)%nat; [reflexivity|]. rewrite Hfinite. reflexivity.
Qed.

Lemma fetchFundamentals_caught (cfg : Config) (net : Providers) (symbol : string) :
  exists fundamentals,
    catch_with (fundamentals <- fetchFundamentals cfg net symbol ;; Resolved (Some fundamentals))
               (fun error => None)
    = Resolved fundamentals
    /\ (fundamentals_unavailable cfg net symbol -> fundamentals = None).
Proof.
  unfold fetchFundamentals, fundamentals_unavailable.
  destruct (ALPHA_VANTAGE_KEY cfg) as [key|]; [|cbn; eauto].
  destruct (overview net symbol) as [[data|]|error]; cbn; eexists; (split; [reflexivity|]);
    try reflexivity.
  intros [Hkey|[[error Herror]|Hnone]]; discriminate.
Qed.

(** [fetchPriceHistory] rejects, or resolves to an empty history, exactly
    when the price history cannot be obtained. *)
Lemma fetchPriceHistory_unavailable (cfg : Config) (net : Providers) (symbol : string) :
  price_history_unavailable cfg net symbol <->
  (exists error, fetchPriceHistory cfg net symbol = Rejected error)
  \/ fetchPriceHistory cfg net symbol = Resolved [].
Proof.
  unfold price_history_unavailable, fetchPriceHistory.
  destruct (ALPHA_VANTAGE_KEY cfg) as [key|]; [|split; eauto].
  destruct (daily net symbol) as [[series|]|error]; cbn [await_then].
  - split.
    + intros [Hkey|[[error Herror]|[Hnone|(series' & [= <-] & Hempty)]]]; try discriminate.
      right. rewrite Hempty. reflexivity.
    + intros [[error Herror]|Hempty]; [discriminate|].
      assert (Hnil : omap finite_bar series = []).
      { injection Hempty as Hempty. exact (array_sort_nil _ _ Hempty). }
      right; right; right. eauto.
  - split; [eauto | intros _; right; right; left; reflexivity].
  - split; [eauto | intros _; right; left; eauto].
Qed.

Section AssemblyProperties.
Context {runtime : JsRuntime}.

Lemma getCompositeSignal_outcome (cfg : Config) (net : Providers) (symbol : string) (stamp : Z) :
  exists fundamentals sentiment volatility,
    fetchSentiment cfg net symbol = Resolved sentiment
    /\ fetchVolatility cfg net symbol = Resolved volatility
    /\ (fundamentals_unavailable cfg net symbol -> fundamentals = None)
    /\ getCompositeSignal cfg net symbol stamp
       = (prices <- fetchPriceHistory cfg net symbol ;;
          if (length prices =? 0)%nat
          then Rejected ("No price data returned for " +:+ symbol)
          else Resolved (composePick symbol stamp prices fundamentals sentiment volatility)).
Proof.
  destruct (fetchFundamentals_caught cfg net symbol) as (fundamentals & Hfund & Hnone).
  destruct (fetchSentiment_resolves cfg net symbol) as (sentiment & Hsent).
  destruct (fetchVolatility_resolves cfg net symbol) as (volatility & Hvol).
  exists fundamentals, sentiment, volatility. repeat split; try assumption.
  unfold getCompositeSignal. rewrite Hfund, Hsent, Hvol.
  destruct (fetchPriceHistory cfg net symbol); reflexivity.
Qed.

Lemma getCompositeSignal_rejected_iff (cfg : Config) (net : Providers) (symbol : string)
    (stamp : Z) :
  is_rejected (getCompositeSignal cfg net symbol stamp) = true
  <-> price_history_unavailable cfg net symbol.
Proof.
  destruct (getCompositeSignal_outcome cfg net symbol stamp)
    as (fundamentals & sentiment & volatility & _ & _ & _ & Hrun).
  rewrite Hrun, (fetchPriceHistory_unavailable cfg net symbol).
  destruct (fetchPriceHistory cfg net symbol) as [[|bar prices]|error]; cbn; split;
    try reflexivity; try discriminate; eauto.
  intros [[error Herror]|Hempty]; discriminate.
Qed.

(** Assembly rejects if and only if the mandatory price history cannot
    be obtained (missing API key, provider failure, absent or empty
    series).  When the price history is available, assembly resolves
    whatever the three optional providers do: an unavailable sentiment
    or volatility input makes the sentiment or the volatility-rank signal
    absent; the latest price and the five signals derived from the
    prices are the same for every behaviour of the optional providers
    (fundamentals included) and of their keys; the volatility rank
    depends on the volatility provider alone and the sentiment signal on
    the sentiment provider alone. *)
Lemma getCompositeSignal_fails_iff (cfg : Config) (net : Providers) (symbol : string) (stamp : Z) :
  (is_rejected (getCompositeSignal cfg net symbol stamp) = true
   <-> price_history_unavailable cfg net symbol)
  /\ (~ price_history_unavailable cfg net symbol ->
      exists pick,
        getCompositeSignal cfg net symbol stamp = Resolved pick
        /\ (sentiment_unavailable cfg net symbol -> sentiment (signals pick) = None)
        /\ (volatility_unavailable cfg net symbol -> ivRank (signals pick) = None)
        /\ forall cfg' net',
            ALPHA_VANTAGE_KEY cfg' = ALPHA_VANTAGE_KEY cfg ->
            daily net' symbol = daily net symbol ->
            exists pick',
              getCompositeSignal cfg' net' symbol stamp = Resolved pick'
              /\ price_signals pick' = price_signals pick
              /\ latestPrice pick' = latestPrice pick
              /\ (POLYGON_KEY cfg' = POLYGON_KEY cfg ->
                  optionContracts net' symbol = optionContracts net symbol ->
                  ivRank (signals pick') = ivRank (signals pick))
              /\ (FINNHUB_KEY cfg' = FINNHUB_KEY cfg ->
                  newsSentiment net' symbol = newsSentiment net symbol ->
                  sentiment (signals pick') = sentiment (signals pick))).
Proof.
  destruct (getCompositeSignal_outcome cfg net symbol stamp)
    as (fundamentals & sentiment & volatility & Hsent & Hvol & _ & Hrun).
  pose proof (fetchPriceHistory_unavailable cfg net symbol) as Hprices.
  split; [apply getCompositeSignal_rejected_iff|].
  intros Havailable.
  assert (Hsome : exists bar prices, fetchPriceHistory cfg net symbol = Resolved (bar :: prices)).
  { destruct (fetchPriceHistory cfg net symbol) as [[|bar prices]|error]; [| eauto |];
      exfalso; apply Havailable, Hprices; eauto. }
  destruct Hsome as (bar & prices & Hfetch).
  rewrite Hfetch in Hrun. cbn in Hrun.
  eexists. split; [exact Hrun|]. split; [|split].
  + intros Hnone. apply fetchSentiment_absent in Hnone.
    rewrite Hnone in Hsent. injection Hsent as <-. reflexivity.
  + intros Hnone. apply fetchVolatility_absent in Hnone.
    rewrite Hnone in Hvol. injection Hvol as <-. reflexivity.
  + intros cfg' net' Hkey Hdaily.
    destruct (getCompositeSignal_outcome cfg' net' symbol stamp)
      as (fundamentals' & sentiment' & volatility' & Hsent' & Hvol' & _ & Hrun').
    assert (Hfetch' : fetchPriceHistory cfg' net' symbol = Resolved (bar :: prices)).
    { rewrite <- Hfetch. unfold fetchPriceHistory. rewrite Hkey, Hdaily. reflexivity. }
    rewrite Hfetch' in Hrun'. cbn in Hrun'.
    eexists. split; [exact Hrun'|]. split; [reflexivity|]. split; [reflexivity|]. split.
    * intros Hpolygon Hcontracts.
      assert (Hsame : volatility' = volatility).
      { unfold fetchVolatility in Hvol, Hvol'. rewrite Hpolygon, Hcontracts, Hvol in Hvol'.
        injection Hvol' as <-. reflexivity. }
      rewrite Hsame. reflexivity.
    * intros Hfinnhub Hnews.
      assert (Hsame : sentiment' = sentiment).
      { unfold fetchSentiment in Hsent, Hsent'. rewrite Hfinnhub, Hnews, Hsent in Hsent'.
        injection Hsent' as <-. reflexivity. }
      rewrite Hsame. reflexivity.
Qed.

End AssemblyProperties.

(** ** Result cache *)

Section CacheProperties.
Context {runtime : JsRuntime}.

Lemma fresh_at_dec (cfg : Config) (entries : gmap string CachedSignal) (now : Z) (symbol : string) :
  fresh_at cfg entries now symbol \/ ~ fresh_at cfg entries now symbol.
Proof.
  unfold fresh_at. destruct (entries !! symbol) as [entry|] eqn:Hentry.
  - destruct (Z.ltb_spec (now - cached_updatedAt entry) (CACHE_TTL_MS cfg)).
    + left. eauto.
    + right. intros (entry' & [= <-] & Hlt). lia.
  - right. intros (entry' & [=] & _).
Qed.

Lemma loadSignal_hit (cfg : Config) (net : Providers) (entries : gmap string CachedSignal)
    (now : Z) (symbol : string) (entry : CachedSignal) :
  entries !! symbol = Some entry ->
  (now - cached_updatedAt entry < CACHE_TTL_MS cfg)%Z ->
  loadSignal cfg net entries now symbol
  = {| for_symbol := symbol;
       result := Resolved (cached_payload entry);
       settledAt := now;
       cacheWrite := None;
       upstreamCalls := [] |}.
Proof.
  intros Hentry Hfresh. unfold loadSignal. rewrite Hentry.
  apply Z.ltb_lt in Hfresh. rewrite Hfresh. reflexivity.
Qed.

Lemma loadSignal_miss (cfg : Config) (net : Providers) (entries : gmap string CachedSignal)
    (now : Z) (symbol : string) :
  ~ fresh_at cfg entries now symbol ->
  let settled := (now + Z.of_nat (latency net symbol))%Z in
  loadSignal cfg net entries now symbol
  = {| for_symbol := symbol;
       result := getCompositeSignal cfg net symbol settled;
       settledAt := settled;
       cacheWrite :=
         match getCompositeSignal cfg net symbol settled with
         | Resolved payload => Some {| cached_payload := payload; cached_updatedAt := now |}
         | Rejected _ => None
         end;
       upstreamCalls := [symbol] |}.
Proof.
  intros Hstale. unfold loadSignal.
  destruct (entries !! symbol) as [entry|] eqn:Hentry; [|reflexivity].
  destruct (Z.ltb_spec (now - cached_updatedAt entry) (CACHE_TTL_MS cfg)); [|reflexivity].
  exfalso. apply Hstale. exists entry. auto.
Qed.

Lemma loadSignal_for_symbol (cfg : Config) (net : Providers) (entries : gmap string CachedSignal)
    (now : Z) (symbol : string) :
  for_symbol (loadSignal cfg net entries now symbol) = symbol.
Proof.
  unfold loadSignal. destruct (entries !! symbol) as [entry|]; [|reflexivity].
  destruct (_ <? _)%Z; reflexivity.
Qed.

(** [cache.set] is executed only by a call whose assembly has resolved,
    and it stores the payload that the call returns. *)
Lemma loadSignal_write (cfg : Config) (net : Providers) (entries : gmap string CachedSignal)
    (now : Z) (symbol : string) (entry : CachedSignal) :
  cacheWrite (loadSignal cfg net entries now symbol) = Some entry ->
  result (loadSignal cfg net entries now symbol) = Resolved (cached_payload entry)
  /\ cached_updatedAt entry = now
  /\ upstreamCalls (loadSignal cfg net entries now symbol) = [symbol]
  /\ updatedAt (cached_payload entry) = (now + Z.of_nat (latency net symbol))%Z.
Proof.
  destruct (fresh_at_dec cfg entries now symbol) as [(entry' & Hentry & Hfresh)|Hstale].
  - rewrite (loadSignal_hit _ _ _ _ _ _ Hentry Hfresh). discriminate.
  - rewrite (loadSignal_miss _ _ _ _ _ Hstale). cbn.
    destruct (getCompositeSignal_outcome cfg net symbol (now + Z.of_nat (latency net symbol)))
      as (f & s & v & _ & _ & _ & Hrun).
    rewrite Hrun.
    destruct (fetchPriceHistory cfg net symbol) as [[|bar prices]|error]; cbn; try discriminate.
    intros [= <-]. cbn. auto.
Qed.

Lemma loadSignal_rejected (cfg : Config) (net : Providers) (entries : gmap string CachedSignal)
    (now : Z) (symbol : string) :
  is_rejected (result (loadSignal cfg net entries now symbol)) = true <->
  ~ fresh_at cfg entries now symbol /\ price_history_unavailable cfg net symbol.
Proof.
  destruct (fresh_at_dec cfg entries now symbol) as [(entry' & Hentry & Hfresh)|Hstale].
  - rewrite (loadSignal_hit _ _ _ _ _ _ Hentry Hfresh). cbn. split; [discriminate|].
    intros [Hstale _]. exfalso. apply Hstale. exists entry'. auto.
  - rewrite (loadSignal_miss _ _ _ _ _ Hstale). cbn [result].
    rewrite getCompositeSignal_rejected_iff. tauto.
Qed.

End CacheProperties.

Section CacheContract.
Context {runtime : JsRuntime}.

Lemma settle_hit (srv : Server) (symbol : string) (payload : CompositePick) :
  settle srv {| for_symbol := symbol; result := Resolved payload; settledAt := clock srv;
                cacheWrite := None; upstreamCalls := [] |} = srv.
Proof.
  destruct srv as [entries now log]. unfold settle. cbn.
  rewrite Z.max_id, app_nil_r. reflexivity.
Qed.

Lemma call_loadSignal_hit (cfg : Config) (net : Providers) (symbol : string) (srv : Server)
    (entry : CachedSignal) :
  cache srv !! symbol = Some entry ->
  (clock srv - cached_updatedAt entry < CACHE_TTL_MS cfg)%Z ->
  call_loadSignal cfg net symbol srv = (Resolved (cached_payload entry), srv).
Proof.
  intros Hentry Hfresh. unfold call_loadSignal.
  rewrite (loadSignal_hit _ _ _ _ _ _ Hentry Hfresh). cbn [result].
  rewrite settle_hit. reflexivity.
Qed.

Lemma call_loadSignal_miss (cfg : Config) (net : Providers) (symbol : string) (srv : Server) :
  ~ fresh_at cfg (cache srv) (clock srv) symbol ->
  let settled := (clock srv + Z.of_nat (latency net symbol))%Z in
  call_loadSignal cfg net symbol srv
  = (getCompositeSignal cfg net symbol settled,
     {| cache :=
          match getCompositeSignal cfg net symbol settled with
          | Resolved payload =>
              <[symbol := {| cached_payload := payload; cached_updatedAt := clock srv |}]>
                (cache srv)
          | Rejected _ => cache srv
          end;
        clock := settled;
        assemblies := assemblies srv ++ [symbol] |}).
Proof.
  intros Hstale settled. unfold call_loadSignal.
  rewrite (loadSignal_miss _ _ _ _ _ Hstale). cbn [result]. unfold settle. cbn.
  fold settled. f_equal. f_equal; [|lia].
  destruct (getCompositeSignal cfg net symbol settled); reflexivity.
Qed.

(** A call that resolves leaves (or finds) its payload in the cache. *)
Lemma call_loadSignal_cached (cfg : Config) (net : Providers) (symbol : string)
    (srv srv' : Server) (payload : CompositePick) :
  call_loadSignal cfg net symbol srv = (Resolved payload, srv') ->
  exists entry, cache srv' !! symbol = Some entry /\ cached_payload entry = payload.
Proof.
  destruct (fresh_at_dec cfg (cache srv) (clock srv) symbol) as [(entry & Hentry & Hfresh)|Hstale].
  - rewrite (call_loadSignal_hit _ _ _ _ _ Hentry Hfresh). intros [= <- <-]. eauto.
  - rewrite (call_loadSignal_miss _ _ _ _ Hstale). cbv zeta.
    destruct (getCompositeSignal cfg net symbol _) as [payload'|error]; [|discriminate].
    intros [= <- <-]. cbn [cache]. eexists. split; [apply lookup_insert_eq | reflexivity].
Qed.

Lemma getCompositeSignal_stamp (cfg : Config) (net : Providers) (symbol : string) (stamp : Z)
    (payload : CompositePick) :
  getCompositeSignal cfg net symbol stamp = Resolved payload -> updatedAt payload = stamp.
Proof.
  destruct (getCompositeSignal_outcome cfg net symbol stamp)
    as (f & s & v & _ & _ & _ & Hrun).
  rewrite Hrun. destruct (fetchPriceHistory cfg net symbol) as [prices|error]; [|discriminate].
  cbn. destruct (length prices =? 0)%nat; [discriminate|]. intros [= <-]. reflexivity.
Qed.

(** C4. (1) When the stored entry is younger than the TTL, [loadSignal]
    returns its payload and changes nothing: the cache is not written and
    no assembly is started; the default TTL is 120 seconds.  (2) After a
    call that has resolved, any later call made before the entry's TTL has
    elapsed, with no write in between, returns the same payload and
    starts no assembly, whatever the providers would answer.  (3) Once the
    TTL has elapsed, a call whose assembly resolves starts exactly one
    assembly, overwrites the entry with the new payload (timestamped with
    the time of the call) and returns that payload; its [updatedAt] is
    newer than the one of the replaced payload, given that the replaced
    payload was stamped in the past and that either the reassembly takes
    time or the replaced payload was stamped within the TTL of its
    entry. *)
Theorem loadSignal_cache_contract (cfg : Config) (net : Providers) (symbol : string) (srv : Server) :
  (forall entry,
      cache srv !! symbol = Some entry ->
      (clock srv - cached_updatedAt entry < CACHE_TTL_MS cfg)%Z ->
      call_loadSignal cfg net symbol srv = (Resolved (cached_payload entry), srv))
  /\ (SIGNAL_CACHE_MS cfg = None -> CACHE_TTL_MS cfg = (120 * 1000)%Z)
  /\ (forall payload srv1,
      call_loadSignal cfg net symbol srv = (Resolved payload, srv1) ->
      exists entry,
        cache srv1 !! symbol = Some entry
        /\ forall net' later,
            (later - cached_updatedAt entry < CACHE_TTL_MS cfg)%Z ->
            call_loadSignal cfg net' symbol (at_time later srv1)
            = (Resolved payload, at_time later srv1))
  /\ (forall entry payload,
      cache srv !! symbol = Some entry ->
      (CACHE_TTL_MS cfg <= clock srv - cached_updatedAt entry)%Z ->
      getCompositeSignal cfg net symbol (clock srv + Z.of_nat (latency net symbol)) = Resolved payload ->
      exists srv',
        call_loadSignal cfg net symbol srv = (Resolved payload, srv')
        /\ cache srv'
           = <[symbol := {| cached_payload := payload; cached_updatedAt := clock srv |}]>
               (cache srv)
        /\ assemblies srv' = assemblies srv ++ [symbol]
        /\ ((updatedAt (cached_payload entry) <= clock srv)%Z ->
            (0 < latency net symbol)%nat
            \/ (updatedAt (cached_payload entry) < cached_updatedAt entry + CACHE_TTL_MS cfg)%Z ->
            (updatedAt (cached_payload entry) < updatedAt payload)%Z)).
Proof.
  split; [|split; [|split]].
  - intros entry Hentry Hfresh. apply call_loadSignal_hit; assumption.
  - intros Hunset. unfold CACHE_TTL_MS. rewrite Hunset. reflexivity.
  - intros payload srv1 Hcall.
    destruct (call_loadSignal_cached _ _ _ _ _ _ Hcall) as (entry & Hentry & Hpayload).
    exists entry. split; [exact Hentry|].
    intros net' later Hfresh. rewrite <- Hpayload.
    apply call_loadSignal_hit; assumption.
  - intros entry payload Hentry Hstale Hassembled.
    assert (Hmiss : ~ fresh_at cfg (cache srv) (clock srv) symbol).
    { intros (entry' & Hentry' & Hfresh). rewrite Hentry in Hentry'.
      injection Hentry' as <-. lia. }
    rewrite (call_loadSignal_miss _ _ _ _ Hmiss). cbv zeta. rewrite Hassembled.
    eexists. split; [reflexivity|]. cbn [cache assemblies]. repeat split.
    intros Hpast Hticks. rewrite (getCompositeSignal_stamp _ _ _ _ _ Hassembled).
    destruct Hticks as [Hlatency|Hwithin]; lia.
Qed.

Lemma call_loadSignal_rejected (cfg : Config) (net : Providers) (symbol : string)
    (srv srv' : Server) (error : string) :
  call_loadSignal cfg net symbol srv = (Rejected error, srv') -> cache srv' = cache srv.
Proof.
  destruct (fresh_at_dec cfg (cache srv) (clock srv) symbol) as [(entry & Hentry & Hfresh)|Hstale].
  - rewrite (call_loadSignal_hit _ _ _ _ _ Hentry Hfresh). discriminate.
  - rewrite (call_loadSignal_miss _ _ _ _ Hstale). cbv zeta.
    destruct (getCompositeSignal cfg net symbol _); [discriminate|].
    intros [= _ <-]. reflexivity.
Qed.

(** The time stamps of the cache are consistent with the clock when the
    process starts, and every call of [loadSignal] keeps them so. *)
Lemma stamped_in_past_boot (now : Z) : stamped_in_past (boot now).
Proof. intros symbol entry Hentry. cbn in Hentry. rewrite lookup_empty in Hentry. discriminate. Qed.

Lemma stamped_in_past_later (srv : Server) (later : Z) :
  (clock srv <= later)%Z -> stamped_in_past srv -> stamped_in_past (at_time later srv).
Proof.
  intros Hlater Hpast symbol entry Hentry. cbn in *. specialize (Hpast _ _ Hentry). lia.
Qed.

Lemma stamped_in_past_call (cfg : Config) (net : Providers) (symbol : string) (srv : Server) :
  stamped_in_past srv -> stamped_in_past (call_loadSignal cfg net symbol srv).2.
Proof.
  intros Hpast.
  destruct (fresh_at_dec cfg (cache srv) (clock srv) symbol) as [(entry & Hentry & Hfresh)|Hstale].
  - rewrite (call_loadSignal_hit _ _ _ _ _ Hentry Hfresh). exact Hpast.
  - rewrite (call_loadSignal_miss _ _ _ _ Hstale). cbv zeta. cbn [snd].
    intros key entry Hentry. cbn [cache clock] in *.
    destruct (getCompositeSignal cfg net symbol _) as [payload|error] eqn:Hassembled.
    + destruct (decide (key = symbol)) as [->|Hother].
      * rewrite lookup_insert_eq in Hentry. injection Hentry as <-. cbn.
        rewrite (getCompositeSignal_stamp _ _ _ _ _ Hassembled). lia.
      * rewrite lookup_insert_ne in Hentry by congruence. specialize (Hpast _ _ Hentry). lia.
    + specialize (Hpast _ _ Hentry). lia.
Qed.

End CacheContract.

(** ** Batch handler *)

Lemma sort_insert_sorted {A : Type} (compare : A -> A -> Q) (x : A) (l : list A) :
  (forall a b, compare a b <= 0 \/ compare b a <= 0) ->
  Sorted (fun a b => compare a b <= 0) l ->
  Sorted (fun a b => compare a b <= 0) (sort_insert compare x l).
Proof.
  intros Htotal Hsorted. induction Hsorted as [|y l Hsorted IH Hhead]; cbn [sort_insert].
  - repeat constructor.
  - destruct (Qle_bool (compare x y) 0) eqn:Hxy.
    + apply Qle_bool_iff in Hxy. repeat constructor; assumption.
    + assert (Hyx : compare y x <= 0).
      { destruct (Htotal x y) as [Hle|Hle]; [|exact Hle].
        apply Qle_bool_iff in Hle. congruence. }
      constructor; [exact IH|].
      destruct Hhead as [|z l' Hyz]; cbn [sort_insert].
      * constructor. exact Hyx.
      * destruct (Qle_bool (compare x z) 0); constructor; assumption.
Qed.

Lemma array_sort_sorted {A : Type} (compare : A -> A -> Q) (l : list A) :
  (forall a b, compare a b <= 0 \/ compare b a <= 0) ->
  Sorted (fun a b => compare a b <= 0) (array_sort compare l).
Proof.
  intros Htotal. induction l as [|x l IH]; cbn [array_sort fold_right].
  - constructor.
  - apply sort_insert_sorted; assumption.
Qed.

Lemma Sorted_adjacent {A : Type} (R : A -> A -> Prop) (l : list A) :
  Sorted R l ->
  forall i a b, l !! i = Some a -> l !! S i = Some b -> R a b.
Proof.
  induction 1 as [|x l Hsorted IH Hhead]; intros i a b Ha Hb; [discriminate|].
  destruct i as [|i].
  - cbn in Ha, Hb. injection Ha as <-.
    destruct Hhead as [|y l' Hxy]; [discriminate|]. cbn in Hb. injection Hb as <-. exact Hxy.
  - cbn in Ha, Hb. eapply IH; eassumption.
Qed.

Section BatchProperties.
Context {runtime : JsRuntime}.

Lemma Promise_all_pick_tasks (settlements : list Settlement) :
  Promise_all (map pick_task settlements) = Resolved (map listed_pick settlements).
Proof.
  induction settlements as [|s settlements IH]; cbn [map Promise_all]; [reflexivity|].
  rewrite IH. unfold pick_task, listed_pick. destruct (result s); reflexivity.
Qed.

Lemma getPicks_unfold (cfg : Config) (net : Providers) (symbols : list string) (srv : Server) :
  let settlements := map (loadSignal cfg net (cache srv) (clock srv)) symbols in
  let srv' := fold_left settle settlements srv in
  getPicks cfg net symbols srv
  = (Json {| body_updatedAt := clock srv';
             body_symbols := symbols;
             body_picks := array_sort (fun a b => SortCompare (number_sub (score b) (score a)))
                             (map listed_pick settlements) |},
     srv').
Proof.
  cbv zeta. unfold getPicks. rewrite Promise_all_pick_tasks. reflexivity.
Qed.

(** The cache after the settlements of a batch. *)
Lemma fold_settle_unwritten (settlements : list Settlement) (srv : Server) (key : string) :
  (forall s, In s settlements -> for_symbol s = key -> cacheWrite s = None) ->
  cache (fold_left settle settlements srv) !! key = cache srv !! key.
Proof.
  revert srv. induction settlements as [|s settlements IH]; intros srv Hnone; [reflexivity|].
  cbn [fold_left]. rewrite IH by (intros s' Hin; apply Hnone; right; exact Hin).
  unfold settle. cbn [cache].
  destruct (cacheWrite s) as [entry|] eqn:Hwrite; [|reflexivity].
  apply lookup_insert_ne. intros Hkey.
  rewrite (Hnone s (or_introl eq_refl) Hkey) in Hwrite. discriminate.
Qed.

Lemma fold_settle_entry (settlements : list Settlement) (srv : Server) (key : string)
    (entry : CachedSignal) :
  cache (fold_left settle settlements srv) !! key = Some entry ->
  cache srv !! key = Some entry
  \/ exists s, In s settlements /\ for_symbol s = key /\ cacheWrite s = Some entry.
Proof.
  revert srv. induction settlements as [|s settlements IH]; intros srv Hentry; [left; exact Hentry|].
  cbn [fold_left] in Hentry. destruct (IH _ Hentry) as [Hold|(s' & Hin & Hkey & Hwrite)].
  - unfold settle in Hold. cbn [cache] in Hold.
    destruct (cacheWrite s) as [written|] eqn:Hwrite; [|left; exact Hold].
    destruct (decide (for_symbol s = key)) as [Hkey|Hother].
    + rewrite <- Hkey, lookup_insert_eq in Hold. injection Hold as ->.
      right. exists s. split; [left; reflexivity | auto].
    + rewrite lookup_insert_ne in Hold by exact Hother. left. exact Hold.
  - right. exists s'. split; [right; exact Hin | auto].
Qed.

Lemma fold_settle_clock (settlements : list Settlement) (srv : Server) :
  (clock srv <= clock (fold_left settle settlements srv))%Z.
Proof.
  revert srv. induction settlements as [|s settlements IH]; intros srv; cbn [fold_left]; [lia|].
  etransitivity; [|apply IH]. cbn. lia.
Qed.

Lemma degraded_listed (cfg : Config) (net : Providers) (srv : Server) (symbol : string) :
  is_rejected (result (loadSignal cfg net (cache srv) (clock srv) symbol)) = true ->
  listed_pick (loadSignal cfg net (cache srv) (clock srv) symbol)
  = degraded symbol (clock srv + Z.of_nat (latency net symbol)).
Proof.
  intros Hrejected. pose proof Hrejected as Hwhy.
  apply loadSignal_rejected in Hwhy. destruct Hwhy as [Hstale _].
  unfold listed_pick. rewrite loadSignal_for_symbol.
  destruct (result _) eqn:Hresult; [discriminate|].
  rewrite (loadSignal_miss _ _ _ _ _ Hstale). reflexivity.
Qed.

End BatchProperties.

Section BatchContract.
Context {runtime : JsRuntime}.

Lemma Sorted_weaken {A : Type} (R R' : A -> A -> Prop) (l : list A) :
  (forall a b, R a b -> R' a b) -> Sorted R l -> Sorted R' l.
Proof.
  intros Himpl. induction 1 as [|x l Hsorted IH Hhead]; constructor; [exact IH|].
  destruct Hhead; constructor; auto.
Qed.

(** The comparator of the handler, [b.score - a.score], orders two
    scores that are numbers. *)
Lemma SortCompare_scores (a b : CompositePick) :
  score a <> NaN -> score b <> NaN ->
  SortCompare (number_sub (score b) (score a)) <= 0 -> score_ge a b.
Proof.
  unfold score_ge. destruct (score a) as [x| | |], (score b) as [y| | |]; cbn;
    intros Ha Hb Hle; try congruence; try exact I; lra.
Qed.

Lemma Sorted_weaken_on {A : Type} (P : A -> Prop) (R R' : A -> A -> Prop) (l : list A) :
  (forall a b, P a -> P b -> R a b -> R' a b) ->
  Forall P l -> Sorted R l -> Sorted R' l.
Proof.
  intros Himpl Hall. induction 1 as [|x l Hsorted IH Hhead]; [constructor|].
  inversion Hall as [|x' l' Hx Hl]; subst. constructor; [apply IH, Hl|].
  destruct Hhead as [|y l' Hxy]; constructor.
  inversion Hl; subst. apply Himpl; assumption.
Qed.

(** The comparator of the handler is total, whatever the scores are. *)
Lemma SortCompare_total (a b : CompositePick) :
  SortCompare (number_sub (score b) (score a)) <= 0
  \/ SortCompare (number_sub (score a) (score b)) <= 0.
Proof.
  destruct (score a) as [x| | |], (score b) as [y| | |]; cbn;
    try (left; discriminate); try (right; discriminate).
  destruct (Qlt_le_dec x y); [right | left]; lra.
Qed.

(** The picks come out in descending order of score when no score is
    NaN. *)
Lemma picks_sorted (picks : list CompositePick) :
  Forall (fun pick => score pick <> NaN) picks ->
  Sorted score_ge (array_sort (fun a b => SortCompare (number_sub (score b) (score a))) picks).
Proof.
  intros Hnumbers.
  apply Sorted_weaken_on
    with (P := fun pick => score pick <> NaN)
         (R := fun a b => SortCompare (number_sub (score b) (score a)) <= 0).
  - apply SortCompare_scores.
  - rewrite Forall_forall in *. intros pick Hpick. apply Hnumbers.
    apply list_elem_of_In. eapply Permutation_in; [symmetry; apply array_sort_perm|].
    apply list_elem_of_In, Hpick.
  - apply array_sort_sorted. intros a b. destruct (SortCompare_total a b); auto.
Qed.

(** C3. The batch always answers with a well-formed body (never with
    the failure response), and for every requested symbol whose assembly
    fails -- no fresh cache entry and no price history -- the body lists
    the degraded record: score 0, all seven signals absent, no details, no
    latest price, the explanation "Signal unavailable due to upstream data
    error." (the specification's wording up to the capital and the final
    full stop) and [updatedAt] equal to the time at which the failure is
    caught. *)
Theorem getPicks_degrades_failed_symbols (cfg : Config) (net : Providers)
    (symbols : list string) (srv : Server) :
  exists body srv',
    getPicks cfg net symbols srv = (Json body, srv')
    /\ body_symbols body = symbols
    /\ forall sym,
        In sym symbols ->
        ~ fresh_at cfg (cache srv) (clock srv) sym ->
        price_history_unavailable cfg net sym ->
        exists pick,
          In pick (body_picks body)
          /\ symbol pick = sym
          /\ score pick = Num 0
          /\ (forall key, signal_of_number (signals pick) key = None)
          /\ details pick = []
          /\ latestPrice pick = None
          /\ explanation pick = "Signal unavailable due to upstream data error."
          /\ sentence_text (explanation pick) = "signal unavailable due to upstream data error"
          /\ updatedAt pick = (clock srv + Z.of_nat (latency net sym))%Z.
Proof.
  rewrite getPicks_unfold. cbv zeta. eexists. eexists. split; [reflexivity|].
  cbn [body_symbols body_picks]. split; [reflexivity|].
  intros sym Hin Hstale Hprices.
  exists (degraded sym (clock srv + Z.of_nat (latency net sym))).
  split.
  - eapply Permutation_in; [apply array_sort_perm|].
    rewrite <- (degraded_listed cfg net srv sym) by (apply loadSignal_rejected; auto).
    apply in_map, in_map, Hin.
  - cbn. repeat split. intros key. destruct key; reflexivity.
Qed.

(** The picks of the response are the per-symbol records, and they are
    in descending order of score when no record has the score NaN: each
    pick has a score greater than or equal to the score of the next one,
    for every list of requested symbols. *)
Lemma getPicks_sorted_descending (cfg : Config) (net : Providers)
    (symbols : list string) (srv : Server) :
  exists body srv',
    getPicks cfg net symbols srv = (Json body, srv')
    /\ Permutation
         (map listed_pick (map (loadSignal cfg net (cache srv) (clock srv)) symbols))
         (body_picks body)
    /\ (Forall (fun pick => score pick <> NaN) (body_picks body) ->
        Sorted score_ge (body_picks body)
        /\ forall i earlier later,
            body_picks body !! i = Some earlier ->
            body_picks body !! S i = Some later ->
            number_le (score later) (score earlier)).
Proof.
  rewrite getPicks_unfold. cbv zeta. eexists. eexists. split; [reflexivity|].
  cbn [body_picks]. split; [apply array_sort_perm|].
  intros Hnumbers.
  assert (Hsorted :
            Sorted score_ge
              (array_sort (fun a b => SortCompare (number_sub (score b) (score a)))
                 (map listed_pick (map (loadSignal cfg net (cache srv) (clock srv)) symbols)))).
  { apply picks_sorted. rewrite Forall_forall in *. intros pick Hpick. apply Hnumbers.
    apply list_elem_of_In. eapply Permutation_in; [apply array_sort_perm|].
    apply list_elem_of_In, Hpick. }
  split; [exact Hsorted|].
  intros i earlier later Hearlier Hlater.
  exact (Sorted_adjacent score_ge _ Hsorted i earlier later Hearlier Hlater).
Qed.

(** C10. A call of [loadSignal] that rejects leaves the cache as it
    was, and a call writes the cache only with the payload of a resolved
    assembly.  After a batch, the entry of a symbol whose assembly failed
    is what it was before (absent or stale, neither overwritten nor
    removed); every entry of the cache is an entry it already had or the
    payload resolved by a call of the batch, never the degraded record;
    and any later call for the failed symbol starts an assembly again. *)
Theorem failed_assembly_leaves_cache (cfg : Config) (net : Providers) (sym : string) (srv : Server) :
  (forall error srv',
      call_loadSignal cfg net sym srv = (Rejected error, srv') -> cache srv' = cache srv)
  /\ (forall entry,
      cacheWrite (loadSignal cfg net (cache srv) (clock srv) sym) = Some entry ->
      result (loadSignal cfg net (cache srv) (clock srv) sym) = Resolved (cached_payload entry))
  /\ forall symbols,
      In sym symbols ->
      is_rejected (result (loadSignal cfg net (cache srv) (clock srv) sym)) = true ->
      let srv' := (getPicks cfg net symbols srv).2 in
      cache srv' !! sym = cache srv !! sym
      /\ (forall key entry,
          cache srv' !! key = Some entry ->
          cache srv !! key = Some entry
          \/ result (loadSignal cfg net (cache srv) (clock srv) key)
             = Resolved (cached_payload entry))
      /\ (forall net' later,
          (clock srv <= later)%Z ->
          upstreamCalls (loadSignal cfg net' (cache srv') later sym) = [sym]).
Proof.
  split; [|split].
  - intros error srv'. apply call_loadSignal_rejected.
  - intros entry Hwrite. apply loadSignal_write in Hwrite. tauto.
  - intros symbols Hin Hrejected. rewrite getPicks_unfold. cbv zeta. cbn [snd].
    assert (Hunwritten :
              cache (fold_left settle (map (loadSignal cfg net (cache srv) (clock srv)) symbols) srv)
                !! sym = cache srv !! sym).
    { apply fold_settle_unwritten. intros s Hs Hkey.
      apply in_map_iff in Hs. destruct Hs as (sym' & <- & _).
      rewrite loadSignal_for_symbol in Hkey. subst sym'.
      destruct (cacheWrite _) as [entry|] eqn:Hwrite; [|reflexivity].
      apply loadSignal_write in Hwrite. destruct Hwrite as [Hresult _].
      rewrite Hresult in Hrejected. discriminate. }
    split; [exact Hunwritten|]. split.
    + intros key entry Hentry.
      apply fold_settle_entry in Hentry. destruct Hentry as [Hold|(s & Hs & Hkey & Hwrite)].
      * left. exact Hold.
      * right. apply in_map_iff in Hs. destruct Hs as (sym' & <- & _).
        rewrite loadSignal_for_symbol in Hkey. subst sym'.
        apply loadSignal_write in Hwrite. tauto.
    + intros net' later Hlater.
      apply loadSignal_rejected in Hrejected. destruct Hrejected as [Hstale _].
      rewrite loadSignal_miss; [reflexivity|].
      intros (entry & Hentry & Hfresh). apply Hstale. exists entry.
      rewrite Hunwritten in Hentry. split; [exact Hentry | lia].
Qed.

End BatchContract.

(** ** Time stamps of the reachable states *)

Section ReachableStates.
Context {runtime : JsRuntime}.

Lemma loadSignal_write_stamp (cfg : Config) (net : Providers) (entries : gmap string CachedSignal)
    (now : Z) (symbol : string) (entry : CachedSignal) :
  cacheWrite (loadSignal cfg net entries now symbol) = Some entry ->
  updatedAt (cached_payload entry) = settledAt (loadSignal cfg net entries now symbol).
Proof.
  intros Hwrite. pose proof (loadSignal_write _ _ _ _ _ _ Hwrite) as (_ & _ & _ & Hstamp).
  rewrite Hstamp. revert Hwrite.
  destruct (fresh_at_dec cfg entries now symbol) as [(entry' & Hentry & Hfresh)|Hstale].
  - rewrite (loadSignal_hit _ _ _ _ _ _ Hentry Hfresh). discriminate.
  - rewrite (loadSignal_miss _ _ _ _ _ Hstale). reflexivity.
Qed.

Lemma settle_stamped (srv : Server) (s : Settlement) :
  stamped_in_past srv ->
  (forall entry, cacheWrite s = Some entry -> updatedAt (cached_payload entry) = settledAt s) ->
  stamped_in_past (settle srv s).
Proof.
  intros Hpast Hstamp key entry Hentry. unfold settle in *. cbn [cache clock] in *.
  destruct (cacheWrite s) as [written|] eqn:Hwrite.
  - destruct (decide (for_symbol s = key)) as [Hkey|Hother].
    + rewrite <- Hkey, lookup_insert_eq in Hentry. injection Hentry as <-.
      rewrite (Hstamp written eq_refl). lia.
    + rewrite lookup_insert_ne in Hentry by exact Hother.
      specialize (Hpast _ _ Hentry). lia.
  - specialize (Hpast _ _ Hentry). lia.
Qed.

Lemma fold_settle_stamped (settlements : list Settlement) (srv : Server) :
  stamped_in_past srv ->
  (forall s entry, In s settlements -> cacheWrite s = Some entry ->
                   updatedAt (cached_payload entry) = settledAt s) ->
  stamped_in_past (fold_left settle settlements srv).
Proof.
  revert srv. induction settlements as [|s settlements IH]; intros srv Hpast Hstamp; [exact Hpast|].
  cbn [fold_left]. apply IH.
  - apply settle_stamped; [exact Hpast|]. intros entry. apply Hstamp. left. reflexivity.
  - intros s' entry Hin. apply Hstamp. right. exact Hin.
Qed.

Lemma stamped_in_past_getPicks (cfg : Config) (net : Providers) (symbols : list string)
    (srv : Server) :
  stamped_in_past srv -> stamped_in_past (getPicks cfg net symbols srv).2.
Proof.
  intros Hpast. rewrite getPicks_unfold. cbv zeta. cbn [snd].
  apply fold_settle_stamped; [exact Hpast|].
  intros s entry Hin Hwrite. apply in_map_iff in Hin. destruct Hin as (sym & <- & _).
  apply loadSignal_write_stamp. exact Hwrite.
Qed.

(** In every reachable state the cached payloads were stamped in the
    past: the first timing assumption of the refresh property holds for
    every state in which [loadSignal] can be called. *)
Lemma reachable_stamped_in_past (cfg : Config) (srv : Server) :
  reachable cfg srv -> stamped_in_past srv.
Proof.
  induction 1 as [now | srv later _ IH Hlater | srv net symbol _ IH | srv net symbols _ IH].
  - apply stamped_in_past_boot.
  - apply stamped_in_past_later; assumption.
  - apply stamped_in_past_call. exact IH.
  - apply stamped_in_past_getPicks. exact IH.
Qed.

End ReachableStates.

(** ** End-to-end scenarios of the specification *)

(** Scenario C: the empty price series of "ZZZ" makes assembly fail. *)
Example scenario_empty_series :
  getCompositeSignal (runtime := Sample.runtime) Sample.cfg Sample.net "ZZZ" 0
  = Rejected "No price data returned for ZZZ".
Proof. reflexivity. Qed.

(** Scenario D: with 80% bullish and 20% bearish and no other signal
    (three bars are below every window, the volatility provider is not
    configured, the fundamentals request fails), the score is the
    sentiment signal alone, weight renormalised. *)
Example scenario_sentiment_only :
  exists pick value total,
    getCompositeSignal (runtime := Sample.runtime) Sample.cfg Sample.net "AAA" 0 = Resolved pick
    /\ price_signals pick = [None; None; None; None; None]
    /\ ivRank (signals pick) = None
    /\ sentiment (signals pick) = Some (Num value)
    /\ value == 0.6
    /\ score pick = Num total
    /\ total == 0.6
    /\ explanation pick = "News sentiment skewed bullish."
    /\ map detail_name (details pick) = ["Last Price"; "Sentiment (Bull/Bear)"].
Proof.
  eexists. eexists. eexists. split; [vm_compute; reflexivity|].
  cbn [signals score explanation details price_signals smaTrend rsi macd bollinger
       volumeSurge sentiment ivRank].
  repeat split.
Qed.

(** ** Detail list *)

Lemma push_option_rows {A B : Type} (o : option B) (l l' : list A) (f : B -> A) :
  l = l' ->
  match o with Some b => l ++ [f b] | None => l end = l' ++ option_list (f <$> o).
Proof. intros ->. destruct o; cbn; [reflexivity | symmetry; apply app_nil_r]. Qed.

Lemma push_option2_rows {A B C : Type} (o : option B) (o' : option C) (l l' : list A)
    (f : B -> C -> A) :
  l = l' ->
  match o, o' with Some b, Some c => l ++ [f b c] | _, _ => l end
  = l' ++ match o, o' with Some b, Some c => [f b c] | _, _ => [] end.
Proof. intros ->. destruct o, o'; cbn; rewrite ?app_nil_r; reflexivity. Qed.

Section DetailList.
Context {runtime : JsRuntime}.

(** [buildDetails] returns the rows of [detail_rows]. *)
Lemma buildDetails_rows (params : DetailParams) :
  buildDetails params = detail_rows params.
Proof.
  unfold detail_rows, rows_indicators.
  change (row_lastPrice (p_latestPrice params) :: ?l) with ([row_lastPrice (p_latestPrice params)] ++ l).
  rewrite !app_assoc.
  unfold buildDetails. cbv zeta.
  set (indicators := match p_ivRank params with Some _ => _ | None => _ end).
  assert (Hindicators :
            indicators
            = ((((((([row_lastPrice (p_latestPrice params)]
                     ++ match p_sma50 params, p_sma200 params with
                        | Some sma50, Some sma200 => [row_sma sma50 sma200]
                        | _, _ => []
                        end)
                    ++ option_list (row_rsi <$> p_rsi params))
                   ++ option_list (row_macd <$> p_macd params))
                  ++ option_list (row_bollinger (p_latestPrice params) <$> p_bollinger params))
                 ++ option_list (row_volume <$> p_volumeSurge params))
                ++ option_list (row_sentiment <$> p_sentiment params))
               ++ option_list (row_ivRank <$> p_ivRank params))).
  { subst indicators.
    do 6 (apply (push_option_rows _ _ _ _)).
    apply (push_option2_rows _ _ _ _ row_sma). reflexivity. }
  rewrite <- Hindicators. clearbody indicators. clear Hindicators.
  unfold rows_fundamentals, rows_peRatio, rows_profitMargin.
  destruct (p_fundamentals params) as [fundamentals|]; [|symmetry; apply app_nil_r].
  destruct (default (Finite 0) (ProfitMargin fundamentals));
    destruct (default (Finite 0) (PERatio fundamentals)) as [peRatio|];
    try destruct (Qlt_bool 0 peRatio);
    rewrite <- ?app_assoc; cbn [app]; rewrite ?app_nil_r; reflexivity.
Qed.

End DetailList.

Section DetailProperties.
Context {runtime : JsRuntime}.

Lemma option_row_names {B : Type} (row : B -> IndicatorDetail) (name : string) (o : option B) :
  (forall b, detail_name (row b) = name) ->
  map detail_name (option_list (row <$> o)) `sublist_of` [name].
Proof.
  intros Hname. destruct o as [b|]; cbn.
  - rewrite Hname. reflexivity.
  - apply sublist_nil_l.
Qed.

Lemma rows_indicators_length (params : DetailParams) :
  (length (rows_indicators params) <= 7)%nat.
Proof.
  unfold rows_indicators. rewrite !length_app.
  destruct (p_sma50 params), (p_sma200 params), (p_rsi params), (p_macd params),
    (p_bollinger params), (p_volumeSurge params), (p_sentiment params), (p_ivRank params);
    cbn; lia.
Qed.

Lemma rows_fundamentals_shape (fundamentals : option Fundamentals) :
  (length (rows_fundamentals fundamentals) <= 2)%nat
  /\ Forall (fun row => detail_signal row = None) (rows_fundamentals fundamentals)
  /\ map detail_name (rows_fundamentals fundamentals) `sublist_of` ["P/E Ratio"; "Profit Margin"].
Proof.
  unfold rows_fundamentals, rows_peRatio, rows_profitMargin.
  destruct fundamentals as [fundamentals|]; [|cbn; repeat split; [lia | constructor | apply sublist_nil_l]].
  destruct (default (Finite 0) (PERatio fundamentals)) as [peRatio|];
    [destruct (Qlt_bool 0 peRatio)|];
    destruct (default (Finite 0) (ProfitMargin fundamentals));
    cbn; (split; [lia|]); (split; [repeat constructor|]);
    repeat first [ apply sublist_nil_l | apply sublist_skip | apply sublist_cons ].
Qed.

(** The detail list starts with the last price, a row without signal
    that reads "n/a" when no price is known; it has at most ten rows; and
    its rows come in the fixed order of [detail_order], each name at most
    once. *)
Theorem buildDetails_shape (params : DetailParams) :
  (exists rest, buildDetails params = row_lastPrice (p_latestPrice params) :: rest)
  /\ (p_latestPrice params = None ->
      detail_value (row_lastPrice (p_latestPrice params)) = "n/a")
  /\ (1 <= length (buildDetails params) <= 10)%nat
  /\ map detail_name (buildDetails params) `sublist_of` detail_order.
Proof.
  rewrite buildDetails_rows. unfold detail_rows.
  destruct (rows_fundamentals_shape (p_fundamentals params)) as (Hlength & _ & Hnames).
  pose proof (rows_indicators_length params) as Hindicators.
  split; [eauto|]. split; [intros ->; reflexivity|]. split.
  - cbn [length]. rewrite length_app. lia.
  - cbn [map]. apply sublist_skip. rewrite map_app.
    apply (sublist_app _ ["SMA50 / SMA200"; "RSI(14)"; "MACD (Hist)"; "Bollinger Band";
                          "Volume vs Avg"; "Sentiment (Bull/Bear)"; "IV Rank"]
             _ ["P/E Ratio"; "Profit Margin"]); [|exact Hnames].
    unfold rows_indicators. rewrite !map_app.
    apply (sublist_app _ ["SMA50 / SMA200"] _ (_ :: _));
      [destruct (p_sma50 params), (p_sma200 params); cbn;
       first [reflexivity | apply sublist_nil_l]|].
    apply (sublist_app _ ["RSI(14)"] _ (_ :: _)); [apply option_row_names; reflexivity|].
    apply (sublist_app _ ["MACD (Hist)"] _ (_ :: _)); [apply option_row_names; reflexivity|].
    apply (sublist_app _ ["Bollinger Band"] _ (_ :: _)); [apply option_row_names; reflexivity|].
    apply (sublist_app _ ["Volume vs Avg"] _ (_ :: _)); [apply option_row_names; reflexivity|].
    apply (sublist_app _ ["Sentiment (Bull/Bear)"] _ (_ :: _));
      [apply option_row_names; reflexivity|].
    apply option_row_names; reflexivity.
Qed.

(** Fundamentals only append rows: with fundamentals the list is the
    list without them followed by at most two rows, none of which carries
    a signal. *)
Theorem buildDetails_fundamentals_appended (params : DetailParams) (fundamentals : Fundamentals) :
  exists appended,
    buildDetails (with_fundamentals (Some fundamentals) params)
    = buildDetails (with_fundamentals None params) ++ appended
    /\ (length appended <= 2)%nat
    /\ Forall (fun row => detail_signal row = None) appended.
Proof.
  exists (rows_fundamentals (Some fundamentals)).
  destruct (rows_fundamentals_shape (Some fundamentals)) as (Hlength & Hsignals & _).
  split; [|split; assumption].
  rewrite !buildDetails_rows. unfold detail_rows, rows_indicators.
  cbn [with_fundamentals p_latestPrice p_sma50 p_sma200 p_rsi p_macd p_bollinger
       p_volumeSurge p_sentiment p_ivRank p_fundamentals].
  change (rows_fundamentals None) with (@nil IndicatorDetail).
  rewrite app_nil_r. reflexivity.
Qed.

End DetailProperties.

(** * Further properties of the engine *)

(** ** Range of the normalised signals *)

Lemma clamp_sign (value : Q) :
  (0 < clamp value <-> 0 < value) /\ (clamp value < 0 <-> value < 0).
Proof.
  unfold clamp, clamp_between.
  destruct (Q.max_spec (-1) (Qmin 1 value)) as [[Hlt ->]|[Hle ->]];
    destruct (Q.min_spec 1 value) as [[Hlt' Hmin]|[Hle' Hmin]];
    rewrite Hmin in *; split; split; intros; lra.
Qed.

Lemma smaSignal_range (sma50 sma200 : option Q) (value : Q) :
  smaSignal sma50 sma200 = Some value -> -1 <= value <= 1.
Proof.
  unfold smaSignal. destruct sma50, sma200; try discriminate.
  destruct (Qeq_bool _ 0); [discriminate|]. intros [= <-]. apply clamp_bounds.
Qed.

Lemma rsiSignal_range (rsi : option Q) (value : Q) :
  rsiSignal rsi = Some value -> -1 <= value <= 1.
Proof. destruct rsi; [|discriminate]. intros [= <-]. apply clamp_bounds. Qed.

Lemma macdSignal_range (macd : option MacdValue) (value : Q) :
  macdSignal macd = Some value -> -1 <= value <= 1.
Proof. destruct macd; [|discriminate]. intros [= <-]. apply clamp_bounds. Qed.

Lemma bollingerSignal_range (latestPrice : option Q) (bands : option Bands) (value : Q) :
  bollingerSignal latestPrice bands = Some value -> -1 <= value <= 1.
Proof.
  unfold bollingerSignal. destruct bands, latestPrice; try discriminate.
  destruct (Qeq_bool _ 0); intros [= <-]; [split; discriminate | apply clamp_bounds].
Qed.

Lemma calculateVolumeSurge_range (volumes : list Q) (period : nat) (value : Q) :
  calculateVolumeSurge volumes period = Some value -> -1 <= value <= 1.
Proof.
  unfold calculateVolumeSurge. destruct (_ <=? _)%nat; [discriminate|].
  destruct (Qeq_bool _ 0); [discriminate|]. intros [= <-]. apply clamp_bounds.
Qed.

Lemma sentimentSignal_range (snapshot : option SentimentSnapshot) (value : number) :
  sentimentSignal snapshot = Some value ->
  value = NaN \/ exists bounded, value = Num bounded /\ -1 <= bounded <= 1.
Proof.
  destruct snapshot as [snapshot|]; [|discriminate]. intros [= <-].
  destruct (clamp_number_cases (sentiment_score snapshot)) as [[_ ->]|Hbounded]; auto.
Qed.

(** The sentiment signal is NaN exactly when the difference of the two
    percentages is. *)
Lemma clamped_quotient_NaN (difference : number) :
  clamp_number (clamp_number (number_div difference 100)) = NaN <-> difference = NaN.
Proof. destruct difference; cbn; split; intros H; try discriminate; reflexivity. Qed.

Lemma calculateIvRank_range (snapshot : option VolatilitySnapshot) (value : Q) :
  calculateIvRank snapshot = Some value -> -1 <= value <= 1.
Proof.
  unfold calculateIvRank. destruct snapshot; [|discriminate].
  destruct (Qeq_bool _ _); [discriminate|]. intros [= <-]. apply clamp_bounds.
Qed.

Section AssembledPick.
Context {runtime : JsRuntime}.

Lemma composePick_in_range (sym : string) (stamp : Z) (prices : list PriceBar)
    (fundamentals : option Fundamentals) (snapshot : option SentimentSnapshot)
    (volatility : option VolatilitySnapshot) :
  in_signal_range_number
    (signals (composePick sym stamp prices fundamentals snapshot volatility)).
Proof.
  assert (Hnum : forall (signal : option Q) (value : number),
             (forall bounded, signal = Some bounded -> -1 <= bounded <= 1) ->
             Num <$> signal = Some value ->
             exists bounded, value = Num bounded /\ -1 <= bounded <= 1).
  { intros [bounded|] value Hrange; cbn; [|discriminate].
    intros [= <-]. exists bounded. split; [reflexivity | apply Hrange; reflexivity]. }
  intros key value. unfold composePick. cbn [signals].
  destruct key;
    cbn [signal_of_number smaTrend rsi macd bollinger volumeSurge sentiment ivRank];
    intros Hvalue.
  - left. apply (Hnum _ _ (smaSignal_range _ _) Hvalue).
  - left. apply (Hnum _ _ (rsiSignal_range _) Hvalue).
  - left. apply (Hnum _ _ (macdSignal_range _) Hvalue).
  - left. apply (Hnum _ _ (bollingerSignal_range _ _) Hvalue).
  - left. apply (Hnum _ _ (calculateVolumeSurge_range _ _) Hvalue).
  - destruct (sentimentSignal_range _ _ Hvalue) as [->|Hbounded]; auto.
  - left. apply (Hnum _ _ (calculateIvRank_range _) Hvalue).
Qed.

(** The signals of an assembled record are rationals in range, unless
    the sentiment signal is NaN. *)
Lemma composePick_signals (sym : string) (stamp : Z) (prices : list PriceBar)
    (fundamentals : option Fundamentals) (snapshot : option SentimentSnapshot)
    (volatility : option VolatilitySnapshot) :
  let pick := composePick sym stamp prices fundamentals snapshot volatility in
  (exists s, signals pick = with_numbers s /\ in_signal_range s)
  \/ sentiment (signals pick) = Some NaN.
Proof.
  cbv zeta.
  pose proof (composePick_in_range sym stamp prices fundamentals snapshot volatility) as Hrange.
  destruct (sentiment (signals (composePick sym stamp prices fundamentals snapshot volatility)))
    as [[mood| | |]|] eqn:Hmood; [| | |right; reflexivity|].
  - left. eexists. split; [apply (with_numbers_numeric _ (Some mood)); exact Hmood|].
    intros key value. specialize (Hrange key (Num value)).
    destruct key; cbn [signal_of signal_of_number smaTrend rsi macd bollinger volumeSurge
                       sentiment ivRank] in *; intros Hvalue;
      (destruct Hrange as [(bounded & [= <-] & Hbounded)|[_ [=]]];
       [first [rewrite Hvalue; reflexivity | rewrite Hmood; congruence] | exact Hbounded]).
  - destruct (Hrange Ksentiment PlusInfinity Hmood) as [(bounded & [=] & _)|[_ [=]]].
  - destruct (Hrange Ksentiment MinusInfinity Hmood) as [(bounded & [=] & _)|[_ [=]]].
  - left. eexists. split; [apply (with_numbers_numeric _ None); exact Hmood|].
    intros key value. specialize (Hrange key (Num value)).
    destruct key; cbn [signal_of signal_of_number smaTrend rsi macd bollinger volumeSurge
                       sentiment ivRank] in *; intros Hvalue; try discriminate;
      (destruct Hrange as [(bounded & [= <-] & Hbounded)|[_ [=]]];
       [rewrite Hvalue; reflexivity | exact Hbounded]).
Qed.

Lemma getCompositeSignal_composed (cfg : Config) (net : Providers) (symbol : string) (stamp : Z)
    (pick : CompositePick) :
  getCompositeSignal cfg net symbol stamp = Resolved pick ->
  exists prices fundamentals sentiment volatility,
    fetchPriceHistory cfg net symbol = Resolved prices
    /\ prices <> []
    /\ fetchSentiment cfg net symbol = Resolved sentiment
    /\ fetchVolatility cfg net symbol = Resolved volatility
    /\ pick = composePick symbol stamp prices fundamentals sentiment volatility.
Proof.
  destruct (getCompositeSignal_outcome cfg net symbol stamp)
    as (fundamentals & sentiment & volatility & Hsent & Hvol & _ & Hrun).
  rewrite Hrun. destruct (fetchPriceHistory cfg net symbol) as [[|bar prices]|error];
    cbn; try discriminate.
  intros [= <-]. exists (bar :: prices), fundamentals, sentiment, volatility.
  repeat split; try assumption. discriminate.
Qed.

Lemma weightedComposite_bounds (s : IndicatorSignals) : -1 <= weightedComposite s <= 1.
Proof.
  rewrite weightedComposite_unfold. cbv zeta.
  destruct (Qeq_bool _ 0); [split; discriminate | apply clamp_bounds].
Qed.

Lemma getCompositeSignal_record (cfg : Config) (net : Providers) (sym : string)
    (stamp : Z) (pick : CompositePick) :
  getCompositeSignal cfg net sym stamp = Resolved pick ->
  symbol pick = sym
  /\ updatedAt pick = stamp
  /\ in_signal_range_number (signals pick)
  /\ score pick = weightedComposite_number (signals pick)
  /\ explanation pick = buildExplanation_number (signals pick)
  /\ ((exists s total,
         signals pick = with_numbers s
         /\ in_signal_range s
         /\ score pick = Num total
         /\ total = weightedComposite s
         /\ -1 <= total <= 1
         /\ explanation pick = buildExplanation s)
      \/ (sentiment (signals pick) = Some NaN
          /\ score pick = NaN
          /\ explanation pick = buildExplanation (without_sentiment (signals pick))))
  /\ (sentiment (signals pick) = Some NaN
      <-> exists snapshot,
            fetchSentiment cfg net sym = Resolved (Some snapshot)
            /\ number_sub (bullishPercent snapshot) (bearishPercent snapshot) = NaN)
  /\ is_Some (latestPrice pick)
  /\ details pick <> [].
Proof.
  intros Hresolved.
  destruct (getCompositeSignal_composed _ _ _ _ _ Hresolved)
    as (prices & fundamentals & snapshot & volatility & _ & Hprices & Hsnapshot & _ & ->).
  split; [reflexivity|]. split; [reflexivity|].
  split; [apply composePick_in_range|].
  split; [reflexivity|]. split; [reflexivity|]. split; [|split; [|split]].
  - destruct (composePick_signals sym stamp prices fundamentals snapshot volatility)
      as [(s & Hs & Hrange)|Hnan].
    + left. exists s, (weightedComposite s).
      split; [exact Hs|]. split; [exact Hrange|].
      split; [|split; [reflexivity|split; [apply weightedComposite_bounds|]]].
      * change (score (composePick sym stamp prices fundamentals snapshot volatility))
          with (weightedComposite_number
                  (signals (composePick sym stamp prices fundamentals snapshot volatility))).
        rewrite Hs. apply weightedComposite_number_numeric.
      * change (explanation (composePick sym stamp prices fundamentals snapshot volatility))
          with (buildExplanation_number
                  (signals (composePick sym stamp prices fundamentals snapshot volatility))).
        rewrite Hs. apply buildExplanation_number_numeric.
    + right. split; [exact Hnan|]. split.
      * apply weightedComposite_number_NaN, Hnan.
      * apply buildExplanation_number_NaN, Hnan.
  - unfold composePick. cbn [signals sentiment]. rewrite Hsnapshot.
    destruct snapshot as [snapshot|]; cbn [sentimentSignal].
    + rewrite (fetchSentiment_score _ _ _ _ Hsnapshot). split.
      * intros [= Hnan]. exists snapshot. split; [reflexivity|].
        apply clamped_quotient_NaN, Hnan.
      * intros (snapshot' & [= <-] & Hnan). f_equal. apply clamped_quotient_NaN, Hnan.
    + split; [discriminate|]. intros (snapshot' & [=] & _).
  - unfold composePick. cbn [latestPrice].
    destruct (exists_last Hprices) as (init & bar & ->).
    rewrite map_app. cbn [map]. rewrite last_snoc. eauto.
  - unfold composePick. cbn [details]. rewrite buildDetails_rows. discriminate.
Qed.



Lemma calculateVolumeSurge_clamped (volumes : list Q) (period : nat) (value : Q) :
  calculateVolumeSurge volumes period = Some value -> clamp value = value.
Proof.
  unfold calculateVolumeSurge. destruct (_ <=? _)%nat; [discriminate|].
  destruct (Qeq_bool _ 0); [discriminate|]. intros [= <-]. apply clamp_idempotent.
Qed.

Lemma option_rows_agree {B : Type} (s : IndicatorSignalsOf number) (row : B -> IndicatorDetail)
    (o : option B) :
  (forall b, o = Some b -> row_agrees s (row b)) ->
  Forall (row_agrees s) (option_list (row <$> o)).
Proof.
  intros Hrow. destruct o as [b|]; cbn; constructor; [apply Hrow; reflexivity | constructor].
Qed.

(** The detail list of an assembled record never disagrees with its
    signals: the row of each of the seven signals displays exactly the
    signal that the record holds for it, and the other rows (last price,
    fundamentals) display none. *)
Theorem getCompositeSignal_details_agree (cfg : Config) (net : Providers) (sym : string)
    (stamp : Z) (pick : CompositePick) :
  getCompositeSignal cfg net sym stamp = Resolved pick ->
  Forall (row_agrees (signals pick)) (details pick)
  /\ Forall (fun row => detail_key (detail_name row) = None -> detail_signal row = None)
       (details pick).
Proof.
  intros Hresolved.
  destruct (getCompositeSignal_composed _ _ _ _ _ Hresolved)
    as (prices & fundamentals & sentiment & volatility & _ & _ & _ & _ & ->).
  unfold composePick. cbn [details signals]. rewrite buildDetails_rows.
  unfold detail_rows, rows_indicators.
  cbn [p_latestPrice p_sma50 p_sma200 p_rsi p_macd p_bollinger p_volumeSurge p_sentiment
       p_ivRank p_fundamentals].
  destruct (rows_fundamentals_shape fundamentals) as (_ & Hnone & Hnames).
  split.
  - constructor; [intros key [=]|].
    repeat apply Forall_app_2.
    + destruct (calculateSMA (map bar_close prices) 50) as [sma50|] eqn:H50;
        destruct (calculateSMA (map bar_close prices) 200) as [sma200|] eqn:H200;
        constructor; [|constructor].
      intros key [= <-]. reflexivity.
    + apply option_rows_agree. intros value -> key [= <-]. reflexivity.
    + apply option_rows_agree. intros value -> key [= <-]. reflexivity.
    + apply option_rows_agree. intros value -> key [= <-]. reflexivity.
    + apply option_rows_agree. intros value Hvalue key [= <-]. cbn.
      rewrite (calculateVolumeSurge_clamped _ _ _ Hvalue), Hvalue. reflexivity.
    + apply option_rows_agree. intros value -> key [= <-]. reflexivity.
    + apply option_rows_agree. intros value Hvalue key [= <-]. cbn. rewrite Hvalue. reflexivity.
    + unfold rows_fundamentals, rows_peRatio, rows_profitMargin.
      destruct fundamentals as [fundamentals|]; [|constructor].
      destruct (default (Finite 0) (PERatio fundamentals)) as [peRatio|];
        [destruct (Qlt_bool 0 peRatio)|];
        destruct (default (Finite 0) (ProfitMargin fundamentals));
        repeat constructor; intros key [=].
  - constructor; [reflexivity|].
    repeat apply Forall_app_2;
      try (apply Forall_impl with (P := fun row => detail_signal row = None);
           [exact Hnone | auto]).
    + destruct (calculateSMA (map bar_close prices) 50), (calculateSMA (map bar_close prices) 200);
        repeat constructor; discriminate.
    + destruct (calculateRSI _ _); repeat constructor; discriminate.
    + destruct (calculateMACD _); repeat constructor; discriminate.
    + destruct (calculateBollinger _ _ _); repeat constructor; discriminate.
    + destruct (calculateVolumeSurge _ _); repeat constructor; discriminate.
    + destruct sentiment; repeat constructor; discriminate.
    + destruct (calculateIvRank _); repeat constructor; discriminate.
Qed.

End AssembledPick.

(** ** Fetch layer *)

Lemma dates_total (a b : PriceBar) :
  inject_Z (bar_date a) - inject_Z (bar_date b) <= 0
  \/ inject_Z (bar_date b) - inject_Z (bar_date a) <= 0.
Proof.
  destruct (Z.le_ge_cases (bar_date a) (bar_date b)) as [Hle|Hle];
    rewrite Zle_Qle in Hle; [left | right]; lra.
Qed.

Lemma last_of_strongly_sorted {A : Type} (R : A -> A -> Prop) (l : list A) (x y : A) :
  StronglySorted R l -> last l = Some y -> In x l -> x = y \/ R x y.
Proof.
  induction 1 as [|a l Hsorted IH Hall]; intros Hlast Hin; [discriminate|].
  destruct l as [|b l'].
  - cbn in Hlast. injection Hlast as <-. destruct Hin as [->|[]]. left. reflexivity.
  - change (last (a :: b :: l')) with (last (b :: l')) in Hlast.
    destruct Hin as [->|Hin]; [|apply IH; assumption].
    right. rewrite Forall_forall in Hall. apply Hall, last_Some_elem_of, Hlast.
Qed.

(** A price history that resolves is the usable part of the provider's
    series (the bars with a finite close and a finite volume, none added,
    none lost), in ascending order of date whatever the order of the
    payload; so its last bar, whose close becomes the latest price, has
    the latest date. *)
Theorem fetchPriceHistory_sorted (cfg : Config) (net : Providers) (sym : string)
    (prices : list PriceBar) :
  fetchPriceHistory cfg net sym = Resolved prices ->
  (exists series,
      daily net sym = Resolved (Some series)
      /\ Permutation (omap finite_bar series) prices)
  /\ Sorted (fun a b => (bar_date a <= bar_date b)%Z) prices
  /\ forall latest bar,
      last prices = Some latest -> In bar prices -> (bar_date bar <= bar_date latest)%Z.
Proof.
  unfold fetchPriceHistory. destruct (ALPHA_VANTAGE_KEY cfg); [|discriminate].
  destruct (daily net sym) as [[series|]|error]; cbn [await_then]; try discriminate.
  intros [= <-].
  assert (Hsorted : Sorted (fun a b => (bar_date a <= bar_date b)%Z)
                      (array_sort (fun a b => inject_Z (bar_date a) - inject_Z (bar_date b))
                         (omap finite_bar series))).
  { eapply Sorted_weaken; [|apply array_sort_sorted, dates_total].
    intros a b Hle. cbv beta in Hle. rewrite Zle_Qle. lra. }
  split; [exists series; split; [reflexivity | apply array_sort_perm]|].
  split; [exact Hsorted|].
  intros latest bar Hlast Hin.
  apply Sorted_StronglySorted in Hsorted; [|intros a b c; apply Z.le_trans].
  destruct (last_of_strongly_sorted _ _ bar latest Hsorted Hlast Hin) as [->|Hle]; [lia | exact Hle].
Qed.

Lemma Math_max_of_spec (x : Q) (xs : list Q) :
  x <= Math_max_of x xs
  /\ Forall (fun v => v <= Math_max_of x xs) xs
  /\ In (Math_max_of x xs) (x :: xs).
Proof.
  unfold Math_max_of. revert x. induction xs as [|y xs IH]; intros x; cbn [fold_left].
  - split; [apply Qle_refl|]. split; [constructor | left; reflexivity].
  - destruct (IH (Qmax x y)) as (Hge & Hall & Hin).
    pose proof (Q.le_max_l x y). pose proof (Q.le_max_r x y).
    split; [lra|]. split.
    + constructor; [lra | exact Hall].
    + destruct Hin as [Heq|Hin]; [|right; right; exact Hin].
      rewrite <- Heq. unfold Qmax, GenericMinMax.gmax.
      destruct (x ?= y); [left | right; left | left]; reflexivity.
Qed.

Lemma Math_min_of_spec (x : Q) (xs : list Q) :
  Math_min_of x xs <= x
  /\ Forall (fun v => Math_min_of x xs <= v) xs
  /\ In (Math_min_of x xs) (x :: xs).
Proof.
  unfold Math_min_of. revert x. induction xs as [|y xs IH]; intros x; cbn [fold_left].
  - split; [apply Qle_refl|]. split; [constructor | left; reflexivity].
  - destruct (IH (Qmin x y)) as (Hle & Hall & Hin).
    pose proof (Q.le_min_l x y). pose proof (Q.le_min_r x y).
    split; [lra|]. split.
    + constructor; [lra | exact Hall].
    + destruct Hin as [Heq|Hin]; [|right; right; exact Hin].
      rewrite <- Heq. unfold Qmin, GenericMinMax.gmin.
      destruct (x ?= y); [left | left | right; left]; reflexivity.
Qed.

(** A volatility snapshot that [fetchVolatility] delivers is built from
    the finite implied volatilities of the listed contracts: the current
    value is the first of them, the low and the high are their minimum and
    maximum, so that low <= current <= high. *)
Theorem fetchVolatility_snapshot (cfg : Config) (net : Providers) (sym : string)
    (snapshot : VolatilitySnapshot) :
  fetchVolatility cfg net sym = Resolved (Some snapshot) ->
  exists results rest,
    optionContracts net sym = Resolved results
    /\ omap finite_value results = currentIv snapshot :: rest
    /\ lowIv snapshot <= currentIv snapshot <= highIv snapshot
    /\ Forall (fun value => lowIv snapshot <= value <= highIv snapshot) rest
    /\ In (lowIv snapshot) (currentIv snapshot :: rest)
    /\ In (highIv snapshot) (currentIv snapshot :: rest).
Proof.
  unfold fetchVolatility. destruct (POLYGON_KEY cfg); [|discriminate].
  destruct (optionContracts net sym) as [results|error]; cbn; [|discriminate].
  destruct (length results =? 0)%nat; [discriminate|].
  destruct (omap finite_value results) as [|current rest] eqn:Hvalues; [discriminate|].
  intros [= <-]. cbn.
  destruct (Math_max_of_spec current rest) as (Hmax & Hmaxes & Hmaxin).
  destruct (Math_min_of_spec current rest) as (Hmin & Hmins & Hminin).
  exists results, rest. repeat split; try assumption; try reflexivity.
  rewrite Forall_forall in *. intros value Hvalue. split; auto.
Qed.

(** For a snapshot whose current value lies between its low and its
    high, the volatility rank is absent exactly when high and low
    coincide, and otherwise it is [2 * (current - low) / (high - low) - 1]
    itself: the clamp never acts. *)
Theorem calculateIvRank_between (snapshot : VolatilitySnapshot) :
  lowIv snapshot <= currentIv snapshot <= highIv snapshot ->
  (calculateIvRank (Some snapshot) = None <-> highIv snapshot == lowIv snapshot)
  /\ forall value,
      calculateIvRank (Some snapshot) = Some value ->
      value == (currentIv snapshot - lowIv snapshot) / (highIv snapshot - lowIv snapshot) * 2 - 1.
Proof.
  intros [Hlow Hhigh]. unfold calculateIvRank.
  destruct (Qeq_bool (highIv snapshot) (lowIv snapshot)) eqn:Hflat.
  - apply Qeq_bool_eq in Hflat. split; [tauto | discriminate].
  - apply Qeq_bool_neq in Hflat. split; [split; [discriminate | contradiction]|].
    intros value [= <-]. apply clamp_inside.
    assert (Hspan : 0 < highIv snapshot - lowIv snapshot) by lra.
    set (rank := (currentIv snapshot - lowIv snapshot) / (highIv snapshot - lowIv snapshot)).
    assert (Hrank : 0 <= rank <= 1).
    { split; [apply Qle_shift_div_l | apply Qle_shift_div_r]; lra. }
    lra.
Qed.

(** ** Indicator library *)








Lemma for_steps_invariant_within {St : Type} (P : St -> Prop) (body : nat -> St -> St) :
  forall steps i s,
    (forall j s, (i <= j < i + steps)%nat -> P s -> P (body j s)) ->
    P s -> P (for_steps steps i body s).
Proof.
  induction steps as [|steps IH]; intros i s Hbody Hs; cbn [for_steps]; [exact Hs|].
  apply IH.
  - intros j s' Hj. apply Hbody. lia.
  - apply Hbody; [lia | exact Hs].
Qed.

Lemma for_range_invariant_within {St : Type} (P : St -> Prop) (body : nat -> St -> St)
    (lo hi : nat) (s : St) :
  (forall i s, (lo <= i < hi)%nat -> P s -> P (body i s)) ->
  P s -> P (for_range lo hi body s).
Proof.
  intros Hbody Hs. unfold for_range. apply for_steps_invariant_within; [|exact Hs].
  intros j s' Hj. apply Hbody. lia.
Qed.



Section MovingAverages.
Context {runtime : JsRuntime}.


End MovingAverages.

(** ** Oscillator on monotone series *)



Lemma rsiAverages_no_loss (values : list Q) (period : nat) :
  (0 < period < length values)%nat ->
  never_falls values ->
  snd (rsiAverages values period) == 0.
Proof.
  intros [Hperiod Hlength] Hrising. unfold rsiAverages.
  pose proof (number_of_nat_positive period Hperiod) as Hpos.
  match goal with
  | |- context [for_range 1 (period + 1) ?body (0, 0)] =>
      pose proof (for_range_invariant_within (fun sums : Q * Q => snd sums = 0)
                    body 1 (period + 1) (0, 0)) as Hsums
  end.
  cbv beta in Hsums.
  match type of Hsums with
  | _ -> _ -> snd ?sums = 0 => destruct sums as [gains losses] eqn:Esums
  end.
  assert (Hlosses : losses = 0).
  { apply Hsums; [|reflexivity].
    intros i [g l] Hi Hl. cbn [snd] in Hl. subst l.
    pose proof (Hrising i ltac:(lia)) as Hstep.
    destruct (Qle_bool 0 _) eqn:Hchange; [reflexivity|].
    exfalso. apply Bool.not_true_iff_false in Hchange. apply Hchange, Qle_bool_iff. lra. }
  subst losses.
  apply (for_range_invariant_within (fun averages : Q * Q => snd averages == 0)).
  - intros i [avgGain avgLoss] Hi Hzero. cbn [snd] in *.
    pose proof (Hrising i ltac:(lia)) as Hstep.
    rewrite Hzero, (Q.max_r (- _) 0) by lra.
    unfold Qdiv. ring.
  - cbn [snd]. unfold Qdiv. ring.
Qed.

Lemma calculateRSI_no_loss (values : list Q) (period : nat) :
  (0 < period < length values)%nat ->
  never_falls values ->
  calculateRSI values period = Some 100.
Proof.
  intros Hwindow Hrising. unfold calculateRSI.
  destruct (Nat.leb_spec (length values) period); [lia|].
  pose proof (rsiAverages_no_loss values period Hwindow Hrising) as Hloss.
  destruct (rsiAverages values period) as [avgGain avgLoss]. cbn [snd] in Hloss.
  apply Qeq_eq_bool in Hloss. rewrite Hloss. reflexivity.
Qed.

(** On a series that never falls (a flat series included) there is no
    loss, so the oscillator is exactly 100 and its signal is exactly 1:
    the most bullish reading. *)
Theorem calculateRSI_never_falls (values : list Q) (period : nat) :
  (0 < period < length values)%nat ->
  never_falls values ->
  calculateRSI values period = Some 100
  /\ rsiSignal (calculateRSI values period) = Some 1.
Proof.
  intros Hwindow Hrising.
  pose proof (calculateRSI_no_loss values period Hwindow Hrising) as Hrsi.
  split; [exact Hrsi|]. rewrite Hrsi. reflexivity.
Qed.



(** ** Composite scorer and narrative *)

Lemma clamp_opp (value : Q) : clamp (- value) == - clamp value.
Proof.
  unfold clamp, clamp_between.
  destruct (Q.max_spec (-1) (Qmin 1 (- value))) as [[Hlt ->]|[Hle ->]];
    destruct (Q.min_spec 1 (- value)) as [[Hlt' Hmin]|[Hle' Hmin]];
    destruct (Q.max_spec (-1) (Qmin 1 value)) as [[Hlt2 ->]|[Hle2 ->]];
    destruct (Q.min_spec 1 value) as [[Hlt3 Hmin3]|[Hle3 Hmin3]];
    rewrite ?Hmin, ?Hmin3 in *; lra.
Qed.

Lemma clamp_monotone (x y : Q) : x <= y -> clamp x <= clamp y.
Proof.
  intros Hle. unfold clamp, clamp_between.
  apply Q.max_le_compat_l, Q.min_le_compat_l, Hle.
Qed.

Lemma signal_of_reversed (s : IndicatorSignals) (key : SignalKey) :
  signal_of (reversed s) key = Qopp <$> signal_of s key.
Proof. destruct key; reflexivity. Qed.

Lemma spec_sums_reversed (s : IndicatorSignals) (keys : list SignalKey) :
  fold_right (fun key sum => match signal_of (reversed s) key with
                             | Some value => value * spec_weight key + sum
                             | None => sum
                             end) 0 keys
  == - fold_right (fun key sum => match signal_of s key with
                                  | Some value => value * spec_weight key + sum
                                  | None => sum
                                  end) 0 keys
  /\ fold_right (fun key sum => match signal_of (reversed s) key with
                                | Some _ => spec_weight key + sum
                                | None => sum
                                end) 0 keys
     == fold_right (fun key sum => match signal_of s key with
                                   | Some _ => spec_weight key + sum
                                   | None => sum
                                   end) 0 keys.
Proof.
  induction keys as [|key keys [IHsum IHweight]]; cbn [fold_right]; [split; reflexivity|].
  rewrite signal_of_reversed. destruct (signal_of s key); cbn; [|split; assumption].
  rewrite IHsum, IHweight. split; ring.
Qed.

(** The score in the terms of the specification, for any record. *)
Lemma weightedComposite_quotient (s : IndicatorSignals) :
  weightedComposite s
  == if Qeq_bool (spec_present_weight s) 0 then 0
     else clamp (spec_weighted_sum s / spec_present_weight s).
Proof.
  rewrite weightedComposite_unfold.
  destruct (composite_sums s) as [Hsum Hweight]. cbv zeta in *.
  rewrite Hweight. destruct (Qeq_bool (spec_present_weight s) 0); [reflexivity|].
  rewrite Hsum, Hweight. reflexivity.
Qed.

(** The scorer treats bullish and bearish readings alike: reversing
    every signal reverses the score. *)
Theorem weightedComposite_reversed (s : IndicatorSignals) :
  weightedComposite (reversed s) == - weightedComposite s.
Proof.
  rewrite !weightedComposite_quotient.
  destruct (spec_sums_reversed s Object_keys) as [Hsum Hweight].
  fold (spec_weighted_sum (reversed s)) (spec_weighted_sum s) in Hsum.
  fold (spec_present_weight (reversed s)) (spec_present_weight s) in Hweight.
  rewrite Hweight. destruct (Qeq_bool (spec_present_weight s) 0); [reflexivity|].
  rewrite Hsum, Hweight, <- clamp_opp. apply clamp_proper. unfold Qdiv. ring.
Qed.

Lemma spec_sums_le (s s' : IndicatorSignals) (keys : list SignalKey) :
  signals_le s s' ->
  fold_right (fun key sum => match signal_of s key with
                             | Some value => value * spec_weight key + sum
                             | None => sum
                             end) 0 keys
  <= fold_right (fun key sum => match signal_of s' key with
                                | Some value => value * spec_weight key + sum
                                | None => sum
                                end) 0 keys
  /\ fold_right (fun key sum => match signal_of s key with
                                | Some _ => spec_weight key + sum
                                | None => sum
                                end) 0 keys
     == fold_right (fun key sum => match signal_of s' key with
                                   | Some _ => spec_weight key + sum
                                   | None => sum
                                   end) 0 keys.
Proof.
  intros Hle. induction keys as [|key keys [IHsum IHweight]]; cbn [fold_right].
  - split; [apply Qle_refl | reflexivity].
  - specialize (Hle key).
    destruct (signal_of s key) as [value|], (signal_of s' key) as [value'|];
      try contradiction; [|split; assumption].
    pose proof (weights_positive key) as Hpositive. rewrite (weights_spec key) in Hpositive.
    rewrite IHweight. split; [nra | reflexivity].
Qed.

(** The score is monotone: when the same signals are present and none
    of them goes down, the score does not go down. *)
Theorem weightedComposite_monotone (s s' : IndicatorSignals) :
  signals_le s s' -> weightedComposite s <= weightedComposite s'.
Proof.
  intros Hle. rewrite !weightedComposite_quotient.
  destruct (spec_sums_le s s' Object_keys Hle) as [Hsum Hweight].
  fold (spec_weighted_sum s) (spec_weighted_sum s') in Hsum.
  fold (spec_present_weight s) (spec_present_weight s') in Hweight.
  rewrite <- Hweight.
  destruct (Qeq_bool (spec_present_weight s) 0) eqn:Hzero; [apply Qle_refl|].
  apply Qeq_bool_neq in Hzero.
  pose proof (present_weight_nonneg s Object_keys) as Hnonneg.
  rewrite (proj2 (spec_sums s Object_keys)) in Hnonneg.
  fold (spec_present_weight s) in Hnonneg.
  apply clamp_monotone. rewrite <- Hweight.
  unfold Qdiv. apply Qmult_le_compat_r; [exact Hsum|].
  apply Qlt_le_weak, Qinv_lt_0_compat. lra.
Qed.



Lemma spec_clause_none (s : IndicatorSignals) (key : SignalKey) :
  within_thresholds s -> spec_clause s key = None.
Proof.
  intros Hwithin. unfold spec_clause.
  destruct (signal_of s key) as [value|] eqn:Hvalue; [|reflexivity].
  destruct (spec_threshold key) as [threshold|] eqn:Hthreshold; [|reflexivity].
  specialize (Hwithin key value threshold Hvalue Hthreshold).
  destruct (Qlt_bool threshold (Qabs value)) eqn:Hstrong; [|reflexivity].
  apply Qlt_bool_iff in Hstrong. lra.
Qed.

Lemma joined_head (c : ascii) (rest : string) (clauses : list string) :
  exists tail, String.concat ". " (String c rest :: clauses) +:+ "." = String c tail.
Proof. destruct clauses; cbn; eexists; reflexivity. Qed.

Lemma spec_clause_initial (s : IndicatorSignals) (key : SignalKey) (clause : string) :
  spec_clause s key = Some clause ->
  exists c rest, clause = String c rest /\ c <> "S"%char.
Proof.
  unfold spec_clause. destruct (signal_of s key) as [value|]; [|discriminate].
  destruct (spec_threshold key) as [threshold|] eqn:Hthreshold; [|discriminate].
  destruct (Qlt_bool threshold (Qabs value)); [|discriminate].
  intros [= <-].
  destruct key, (Qlt_bool 0 value); try discriminate Hthreshold;
    cbn [phrasing]; eexists; eexists; (split; [reflexivity | discriminate]).
Qed.

(** The narrative is the neutral sentence exactly when no present
    signal is beyond its threshold (a value equal to the threshold is not
    beyond it); and the band-position signal never enters the narrative,
    which is the same whatever that signal is. *)
Theorem buildExplanation_neutral_iff (s : IndicatorSignals) :
  (buildExplanation s = neutral_sentence <-> within_thresholds s)
  /\ forall band, buildExplanation (with_bollinger band s) = buildExplanation s.
Proof.
  split; [|reflexivity].
  rewrite buildExplanation_highlights. split.
  - intros Hneutral key value threshold Hvalue Hthreshold.
    destruct (Qlt_le_dec threshold (Qabs value)) as [Hstrong|Hweak]; [|exact Hweak].
    exfalso.
    assert (Hclause : spec_clause s key = Some (phrasing key (Qlt_bool 0 value))).
    { unfold spec_clause. rewrite Hvalue, Hthreshold.
      apply Qlt_bool_iff in Hstrong. rewrite Hstrong. reflexivity. }
    assert (Hin : phrasing key (Qlt_bool 0 value) ∈ spec_clauses s).
    { unfold spec_clauses. apply list_elem_of_omap. exists key.
      split; [apply list_elem_of_In, Object_keys_complete | exact Hclause]. }
    destruct (spec_clauses s) as [|clause clauses] eqn:Hclauses; [inversion Hin|].
    assert (Hfirst : clause ∈ spec_clauses s) by (rewrite Hclauses; left).
    unfold spec_clauses in Hfirst. apply list_elem_of_omap in Hfirst.
    destruct Hfirst as (key' & _ & Hclause').
    destruct (spec_clause_initial s key' clause Hclause') as (c & rest & -> & Hinitial).
    destruct (joined_head c rest clauses) as (tail & Hjoined).
    cbn [length Nat.eqb] in Hneutral. rewrite Hjoined in Hneutral.
    unfold neutral_sentence in Hneutral. injection Hneutral as Hc _. contradiction.
  - intros Hwithin.
    assert (Hnone : spec_clauses s = []).
    { unfold spec_clauses. induction Object_keys as [|key keys IH]; [reflexivity|].
      cbn. rewrite (spec_clause_none s key Hwithin). exact IH. }
    rewrite Hnone. reflexivity.
Qed.

(** ** Direction of the normalised signals *)



(** A percentage that the payload omits counts as 0, so a payload with
    a [sentiment] object but no percentage yields a present, neutral
    signal rather than an absent one; and for percentages that are
    numbers between 0 and 100 the signal is [(bullish - bearish) / 100]
    with no clamping. *)
Theorem fetchSentiment_percentages (cfg : Config) (net : Providers) (sym : string)
    (snapshot : SentimentSnapshot) :
  fetchSentiment cfg net sym = Resolved (Some snapshot) ->
  (exists payload,
      newsSentiment net sym = Resolved (Some payload)
      /\ bullishPercent snapshot = default (Num 0) (payload_bullishPercent payload)
      /\ bearishPercent snapshot = default (Num 0) (payload_bearishPercent payload))
  /\ (forall bullish bearish,
      bullishPercent snapshot = Num bullish -> bearishPercent snapshot = Num bearish ->
      0 <= bullish <= 100 -> 0 <= bearish <= 100 ->
      exists value,
        sentimentSignal (Some snapshot) = Some (Num value)
        /\ value == (bullish - bearish) / 100).
Proof.
  intros Hfetch. pose proof (fetchSentiment_score _ _ _ _ Hfetch) as Hscore.
  split.
  - revert Hfetch. unfold fetchSentiment. destruct (FINNHUB_KEY cfg); [|discriminate].
    destruct (newsSentiment net sym) as [[payload|]|error]; cbn; try discriminate.
    intros [= <-]. exists payload. repeat split.
  - intros bullish bearish Hbullish Hbearish Hbull Hbear.
    exists (clamp ((bullish - bearish) / 100)). split.
    + cbn [sentimentSignal]. rewrite Hscore, Hbullish, Hbearish, clamp_number_idempotent.
      reflexivity.
    + apply clamp_inside.
      split; [apply Qle_shift_div_l | apply Qle_shift_div_r]; lra.
Qed.

(** The volume anomaly on a positive baseline: the signal is positive
    exactly when the latest volume is above the mean of the [period]
    volumes before it, negative exactly when it is below, saturates at 1
    from twice the baseline on, and is -1 for a latest volume of zero. *)
Theorem calculateVolumeSurge_reading (volumes : list Q) (period : nat) :
  (period < length volumes)%nat ->
  let recent := at_index volumes (length volumes - 1) in
  let baseline := rollingAverage (slice volumes (- (Z.of_nat period + 1)) (-1)) in
  0 < baseline ->
  exists value,
    calculateVolumeSurge volumes period = Some value
    /\ (0 < value <-> baseline < recent)
    /\ (value < 0 <-> recent < baseline)
    /\ (2 * baseline <= recent -> value == 1)
    /\ (recent == 0 -> value == -1).
Proof.
  intros Hlength recent baseline Hbaseline. unfold calculateVolumeSurge.
  destruct (Nat.leb_spec (length volumes) period); [lia|].
  fold baseline recent.
  destruct (Qeq_bool baseline 0) eqn:Hzero; [apply Qeq_bool_eq in Hzero; lra|].
  eexists. split; [reflexivity|].
  destruct (clamp_sign (recent / baseline - 1)) as [Hup Hdown].
  assert (Hratio : recent == recent / baseline * baseline) by (field; lra).
  split; [|split; [|split]].
  - rewrite Hup. split; intros Hsign.
    + rewrite Hratio. nra.
    + assert (1 < recent / baseline) by (apply Qlt_shift_div_l; lra). lra.
  - rewrite Hdown. split; intros Hsign.
    + rewrite Hratio. nra.
    + assert (recent / baseline < 1) by (apply Qlt_shift_div_r; lra). lra.
  - intros Hdouble.
    assert (Htwo : 2 <= recent / baseline) by (apply Qle_shift_div_l; lra).
    unfold clamp, clamp_between. rewrite (Q.min_l 1) by lra. reflexivity.
  - intros Hnone.
    assert (Hquotient : recent / baseline - 1 == -1) by (rewrite Hnone; field; lra).
    rewrite Hquotient. reflexivity.
Qed.

(** ** Cache and batch handler *)

Lemma array_sort_sorted_id {A : Type} (compare : A -> A -> Q) (l : list A) :
  Sorted (fun a b => compare a b <= 0) l -> array_sort compare l = l.
Proof.
  induction 1 as [|x l Hsorted IH Hhead]; [reflexivity|].
  cbn [array_sort fold_right]. fold (array_sort compare l). rewrite IH.
  destruct Hhead as [|y l' Hxy]; [reflexivity|].
  cbn [sort_insert]. apply Qle_bool_iff in Hxy. rewrite Hxy. reflexivity.
Qed.

(** [Array.prototype.sort] as the handler uses it: the result is a
    rearrangement of the input; an input that is already in order is
    returned as it is, so that equal elements keep their order; and
    sorting a second time changes nothing. *)
Theorem array_sort_stable_on_sorted {A : Type} (compare : A -> A -> Q) (l : list A) :
  (forall a b, compare a b <= 0 \/ compare b a <= 0) ->
  Permutation l (array_sort compare l)
  /\ (Sorted (fun a b => compare a b <= 0) l -> array_sort compare l = l)
  /\ ((forall a b, In a l -> In b l -> compare a b == 0) -> array_sort compare l = l)
  /\ array_sort compare (array_sort compare l) = array_sort compare l.
Proof.
  intros Htotal. split; [apply array_sort_perm|]. split; [apply array_sort_sorted_id|].
  split.
  - intros Hties. apply array_sort_sorted_id.
    induction l as [|x l IH]; [constructor|].
    constructor.
    + apply IH. intros a b Ha Hb. apply Hties; right; assumption.
    + destruct l as [|y l']; constructor.
      rewrite (Hties x y); [discriminate | left; reflexivity | right; left; reflexivity].
  - apply array_sort_sorted_id, array_sort_sorted, Htotal.
Qed.

Section ServerProperties.
Context {runtime : JsRuntime}.

Lemma is_fresh_spec (cfg : Config) (entries : gmap string CachedSignal) (now : Z) (sym : string) :
  is_fresh cfg entries now sym = true <-> fresh_at cfg entries now sym.
Proof.
  unfold is_fresh, fresh_at. destruct (entries !! sym) as [entry|]; split.
  - intros Hfresh. apply Z.ltb_lt in Hfresh. eauto.
  - intros (entry' & [= <-] & Hfresh). apply Z.ltb_lt. exact Hfresh.
  - discriminate.
  - intros (entry' & [=] & _).
Qed.

Lemma loadSignal_calls (cfg : Config) (net : Providers) (entries : gmap string CachedSignal)
    (now : Z) (sym : string) :
  upstreamCalls (loadSignal cfg net entries now sym)
  = if is_fresh cfg entries now sym then [] else [sym].
Proof.
  destruct (is_fresh cfg entries now sym) eqn:Hfresh.
  - apply is_fresh_spec in Hfresh. destruct Hfresh as (entry & Hentry & Hfresh).
    rewrite (loadSignal_hit _ _ _ _ _ _ Hentry Hfresh). reflexivity.
  - rewrite loadSignal_miss; [reflexivity|].
    intros Hfresh'. apply is_fresh_spec in Hfresh'. congruence.
Qed.

Lemma fold_settle_assemblies (settlements : list Settlement) (srv : Server) :
  assemblies (fold_left settle settlements srv)
  = assemblies srv ++ concat (map upstreamCalls settlements).
Proof.
  revert srv. induction settlements as [|s settlements IH]; intros srv; cbn [fold_left map concat].
  - symmetry. apply app_nil_r.
  - rewrite IH. cbn [settle assemblies]. rewrite <- app_assoc. reflexivity.
Qed.

Lemma fold_settle_kept (settlements : list Settlement) (srv : Server) (key : string) :
  is_Some (cache srv !! key) -> is_Some (cache (fold_left settle settlements srv) !! key).
Proof.
  revert srv. induction settlements as [|s settlements IH]; intros srv Hsome; [exact Hsome|].
  cbn [fold_left]. apply IH. unfold settle. cbn [cache].
  destruct (cacheWrite s) as [entry|]; [|exact Hsome].
  destruct (decide (for_symbol s = key)) as [<-|Hother].
  - rewrite lookup_insert_eq. eauto.
  - rewrite lookup_insert_ne by exact Hother. exact Hsome.
Qed.

Lemma fold_settle_settled (settlements : list Settlement) (srv : Server) (s : Settlement) :
  In s settlements -> (settledAt s <= clock (fold_left settle settlements srv))%Z.
Proof.
  revert srv. induction settlements as [|s' settlements IH]; intros srv Hin; [contradiction|].
  cbn [fold_left]. destruct Hin as [->|Hin]; [|apply IH, Hin].
  etransitivity; [|apply fold_settle_clock]. cbn. lia.
Qed.

(** The log of assemblies of a batch: one assembly is started for each
    occurrence of a requested symbol that has no fresh entry when the
    request arrives -- twice for a symbol requested twice, the two calls
    not seeing each other's result -- and none for a symbol with a fresh
    entry. *)
Theorem getPicks_assemblies (cfg : Config) (net : Providers) (symbols : list string)
    (srv : Server) :
  assemblies (getPicks cfg net symbols srv).2
  = assemblies srv
    ++ List.filter (fun sym => negb (is_fresh cfg (cache srv) (clock srv) sym)) symbols.
Proof.
  rewrite getPicks_unfold. cbv zeta. cbn [snd]. rewrite fold_settle_assemblies. f_equal.
  induction symbols as [|sym symbols IH]; [reflexivity|].
  cbn [map concat List.filter]. rewrite IH, loadSignal_calls.
  destruct (is_fresh cfg (cache srv) (clock srv) sym); reflexivity.
Qed.

(** Cache writes are confined and nothing is evicted: a call of
    [loadSignal] leaves the entries of all other symbols as they are, a
    batch leaves the entries of all symbols that were not requested as
    they are, and neither removes an entry. *)
Theorem cache_writes_confined (cfg : Config) (net : Providers) (srv : Server) :
  (forall sym key,
      key <> sym ->
      cache (call_loadSignal cfg net sym srv).2 !! key = cache srv !! key)
  /\ (forall symbols key,
      ~ In key symbols ->
      cache (getPicks cfg net symbols srv).2 !! key = cache srv !! key)
  /\ (forall sym key,
      is_Some (cache srv !! key) ->
      is_Some (cache (call_loadSignal cfg net sym srv).2 !! key))
  /\ (forall symbols key,
      is_Some (cache srv !! key) ->
      is_Some (cache (getPicks cfg net symbols srv).2 !! key)).
Proof.
  assert (Hcall : forall sym,
             (call_loadSignal cfg net sym srv).2
             = fold_left settle [loadSignal cfg net (cache srv) (clock srv) sym] srv)
    by reflexivity.
  split; [|split; [|split]].
  - intros sym key Hother. rewrite Hcall. apply fold_settle_unwritten.
    intros s [<-|[]] Hkey. rewrite loadSignal_for_symbol in Hkey. congruence.
  - intros symbols key Hnotin. rewrite getPicks_unfold. cbv zeta. cbn [snd].
    apply fold_settle_unwritten. intros s Hs Hkey.
    apply in_map_iff in Hs. destruct Hs as (sym & <- & Hin).
    rewrite loadSignal_for_symbol in Hkey. subst sym. contradiction.
  - intros sym key. rewrite Hcall. apply fold_settle_kept.
  - intros symbols key. rewrite getPicks_unfold. cbv zeta. cbn [snd]. apply fold_settle_kept.
Qed.

(** A batch whose symbols all have a fresh entry is served from the
    cache alone: the server is left exactly as it was (no provider is
    contacted, the cache and the clock are untouched) and the picks are
    the cached payloads, sorted. *)
Theorem getPicks_all_fresh (cfg : Config) (net : Providers) (symbols : list string)
    (srv : Server) :
  (forall sym, In sym symbols -> fresh_at cfg (cache srv) (clock srv) sym) ->
  exists payloads,
    Forall2 (fun sym payload =>
               exists entry, cache srv !! sym = Some entry /\ cached_payload entry = payload)
            symbols payloads
    /\ getPicks cfg net symbols srv
       = (Json {| body_updatedAt := clock srv;
                  body_symbols := symbols;
                  body_picks := array_sort (fun a b => SortCompare (number_sub (score b) (score a)))
                                  payloads |},
          srv).
Proof.
  intros Hfresh. rewrite getPicks_unfold. cbv zeta.
  assert (Hhits : exists payloads,
             Forall2 (fun sym payload =>
                        exists entry, cache srv !! sym = Some entry
                                      /\ cached_payload entry = payload) symbols payloads
             /\ map listed_pick (map (loadSignal cfg net (cache srv) (clock srv)) symbols)
                = payloads
             /\ fold_left settle (map (loadSignal cfg net (cache srv) (clock srv)) symbols) srv
                = srv).
  { induction symbols as [|sym symbols IH].
    - exists []. repeat split. constructor.
    - destruct IH as (payloads & Hall & Hpicks & Hsrv);
        [intros sym' Hin; apply Hfresh; right; exact Hin|].
      destruct (Hfresh sym (or_introl eq_refl)) as (entry & Hentry & Hyoung).
      exists (cached_payload entry :: payloads). cbn [map fold_left].
      rewrite (loadSignal_hit _ _ _ _ _ _ Hentry Hyoung), settle_hit, Hsrv, Hpicks.
      repeat split. constructor; eauto. }
  destruct Hhits as (payloads & Hall & -> & ->). exists payloads. split; [exact Hall | reflexivity].
Qed.

(** When the Alpha Vantage key is missing and nothing fresh is cached,
    every requested symbol is degraded: the picks are the degraded
    records of the requested symbols, in the order of the request. *)
Theorem getPicks_without_key (cfg : Config) (net : Providers) (symbols : list string)
    (srv : Server) :
  ALPHA_VANTAGE_KEY cfg = None ->
  (forall sym, In sym symbols -> ~ fresh_at cfg (cache srv) (clock srv) sym) ->
  exists srv',
    getPicks cfg net symbols srv
    = (Json {| body_updatedAt := clock srv';
               body_symbols := symbols;
               body_picks :=
                 map (fun sym => degraded sym (clock srv + Z.of_nat (latency net sym))) symbols |},
       srv')
    /\ cache srv' = cache srv.
Proof.
  intros Hkey Hstale. rewrite getPicks_unfold. cbv zeta.
  set (settlements := map (loadSignal cfg net (cache srv) (clock srv)) symbols).
  assert (Hrejected : forall sym, In sym symbols ->
             is_rejected (result (loadSignal cfg net (cache srv) (clock srv) sym)) = true).
  { intros sym Hin. apply loadSignal_rejected. split; [apply Hstale, Hin | left; exact Hkey]. }
  assert (Hpicks : map listed_pick settlements
                   = map (fun sym => degraded sym (clock srv + Z.of_nat (latency net sym)))
                       symbols).
  { unfold settlements. rewrite map_map. apply map_ext_in.
    intros sym Hin. apply degraded_listed, Hrejected, Hin. }
  eexists. split.
  - rewrite Hpicks. f_equal. f_equal. f_equal. apply array_sort_sorted_id.
    clear. induction symbols as [|sym symbols IH]; cbn [map]; [constructor|].
    constructor; [exact IH|]. destruct symbols; constructor. cbn. discriminate.
  - apply map_eq. intros key.
    apply fold_settle_unwritten. intros s Hs _.
    unfold settlements in Hs. apply in_map_iff in Hs. destruct Hs as (sym & <- & Hin).
    destruct (cacheWrite _) as [entry|] eqn:Hwrite; [|reflexivity].
    apply loadSignal_write in Hwrite. destruct Hwrite as [Hresult _].
    pose proof (Hrejected sym Hin) as Hrej. rewrite Hresult in Hrej. discriminate.
Qed.

End ServerProperties.

(** ** The cache of the reachable states *)

Section CacheInvariant.
Context {runtime : JsRuntime}.

Lemma loadSignal_written_entry (cfg : Config) (net : Providers)
    (entries : gmap string CachedSignal) (now : Z) (sym : string) (entry : CachedSignal) :
  cacheWrite (loadSignal cfg net entries now sym) = Some entry ->
  symbol (cached_payload entry) = sym
  /\ cached_updatedAt entry = now
  /\ updatedAt (cached_payload entry) = settledAt (loadSignal cfg net entries now sym)
  /\ (now <= settledAt (loadSignal cfg net entries now sym))%Z
  /\ details (cached_payload entry) <> [].
Proof.
  intros Hwrite.
  pose proof (loadSignal_write_stamp _ _ _ _ _ _ Hwrite) as Hstamp.
  pose proof (loadSignal_write _ _ _ _ _ _ Hwrite) as (Hresult & Hnow & _ & Hlatency).
  assert (Hassembled : getCompositeSignal cfg net sym (now + Z.of_nat (latency net sym))
                       = Resolved (cached_payload entry)).
  { revert Hresult Hwrite.
    destruct (fresh_at_dec cfg entries now sym) as [(entry' & Hentry & Hfresh)|Hstale].
    - rewrite (loadSignal_hit _ _ _ _ _ _ Hentry Hfresh). discriminate 2.
    - rewrite (loadSignal_miss _ _ _ _ _ Hstale). cbn. auto. }
  destruct (getCompositeSignal_record _ _ _ _ _ Hassembled)
    as (Hsymbol & _ & _ & _ & _ & _ & _ & _ & Hdetails).
  repeat split; try assumption. rewrite <- Hstamp, Hlatency. lia.
Qed.

Lemma settle_consistent (srv : Server) (s : Settlement) :
  cache_consistent srv ->
  (forall entry,
      cacheWrite s = Some entry ->
      symbol (cached_payload entry) = for_symbol s
      /\ (cached_updatedAt entry <= updatedAt (cached_payload entry))%Z
      /\ updatedAt (cached_payload entry) = settledAt s
      /\ details (cached_payload entry) <> []) ->
  cache_consistent (settle srv s).
Proof.
  intros Hconsistent Hwritten key entry Hentry. unfold settle in *. cbn [cache clock] in *.
  assert (Hold : cache srv !! key = Some entry ->
                 symbol (cached_payload entry) = key
                 /\ (cached_updatedAt entry <= updatedAt (cached_payload entry)
                     <= Z.max (clock srv) (settledAt s))%Z
                 /\ details (cached_payload entry) <> []).
  { intros Hlookup. destruct (Hconsistent _ _ Hlookup) as (Hsymbol & Htimes & Hdetails).
    repeat split; try assumption; lia. }
  destruct (cacheWrite s) as [written|] eqn:Hwrite; [|apply Hold, Hentry].
  destruct (decide (for_symbol s = key)) as [Hkey|Hother].
  - rewrite <- Hkey, lookup_insert_eq in Hentry. injection Hentry as <-.
    destruct (Hwritten written eq_refl) as (Hsymbol & Hbefore & Hstamp & Hdetails).
    repeat split; try assumption; try congruence; lia.
  - rewrite lookup_insert_ne in Hentry by exact Hother. apply Hold, Hentry.
Qed.

Lemma fold_settle_consistent (cfg : Config) (net : Providers) (symbols : list string)
    (entries : gmap string CachedSignal) (now : Z) (srv : Server) :
  cache_consistent srv ->
  cache_consistent (fold_left settle (map (loadSignal cfg net entries now) symbols) srv).
Proof.
  revert srv. induction symbols as [|sym symbols IH]; intros srv Hconsistent; [exact Hconsistent|].
  cbn [map fold_left]. apply IH, settle_consistent; [exact Hconsistent|].
  intros entry Hwrite. rewrite loadSignal_for_symbol.
  destruct (loadSignal_written_entry _ _ _ _ _ _ Hwrite)
    as (Hsymbol & Hnow & Hstamp & Hsettled & Hdetails).
  repeat split; try assumption. lia.
Qed.

(** An invariant of the cache.  In every state that the server can
    reach, each entry is filed under the symbol of its payload, was
    written no later than its payload was stamped, holds a payload that
    was not stamped in the future, and holds an assembled record, never
    the degraded one. *)
Theorem reachable_cache_consistent (cfg : Config) (srv : Server) :
  reachable cfg srv -> cache_consistent srv.
Proof.
  induction 1 as [now | srv later _ IH Hlater | srv net sym _ IH | srv net symbols _ IH].
  - intros key entry Hentry. cbn in Hentry. rewrite lookup_empty in Hentry. discriminate.
  - intros key entry Hentry. cbn [at_time cache clock] in *.
    destruct (IH _ _ Hentry) as (Hsymbol & Htimes & Hdetails). repeat split; try assumption; lia.
  - change (call_loadSignal cfg net sym srv).2
      with (fold_left settle (map (loadSignal cfg net (cache srv) (clock srv)) [sym]) srv).
    apply fold_settle_consistent, IH.
  - rewrite getPicks_unfold. cbv zeta. cbn [snd]. apply fold_settle_consistent, IH.
Qed.

Lemma listed_pick_symbol (cfg : Config) (net : Providers) (srv : Server) (sym : string) :
  cache_consistent srv ->
  symbol (listed_pick (loadSignal cfg net (cache srv) (clock srv) sym)) = sym.
Proof.
  intros Hconsistent.
  destruct (fresh_at_dec cfg (cache srv) (clock srv) sym) as [(entry & Hentry & Hfresh)|Hstale].
  - rewrite (loadSignal_hit _ _ _ _ _ _ Hentry Hfresh). unfold listed_pick. cbn.
    apply (Hconsistent _ _ Hentry).
  - rewrite (loadSignal_miss _ _ _ _ _ Hstale). unfold listed_pick. cbn.
    destruct (getCompositeSignal cfg net sym _) as [pick|error] eqn:Hassembled; [|reflexivity].
    apply (getCompositeSignal_record _ _ _ _ _ Hassembled).
Qed.

(** The response answers the request symbol by symbol: when the cache
    is consistent (as it is in every reachable state), the picks carry
    exactly the requested symbols, one pick for each occurrence of a
    symbol in the request. *)
Theorem getPicks_one_pick_per_symbol (cfg : Config) (net : Providers) (symbols : list string)
    (srv : Server) :
  cache_consistent srv ->
  exists body srv',
    getPicks cfg net symbols srv = (Json body, srv')
    /\ length (body_picks body) = length symbols
    /\ Permutation symbols (map symbol (body_picks body)).
Proof.
  intros Hconsistent. rewrite getPicks_unfold. cbv zeta.
  eexists. eexists. split; [reflexivity|]. cbn [body_picks]. split.
  - rewrite array_sort_length, !length_map. reflexivity.
  - rewrite <- (array_sort_perm (fun a b => SortCompare (number_sub (score b) (score a)))).
    rewrite !map_map.
    erewrite map_ext; [rewrite map_id; reflexivity|].
    intros sym. cbv beta. apply listed_pick_symbol, Hconsistent.
Qed.

(** Time stamps of a batch: the clock never runs backwards, and when the
    cache is consistent no pick of the response carries a time stamp
    later than the time stamp of the response itself. *)
Theorem getPicks_timestamps (cfg : Config) (net : Providers) (symbols : list string)
    (srv : Server) :
  cache_consistent srv ->
  exists body srv',
    getPicks cfg net symbols srv = (Json body, srv')
    /\ body_updatedAt body = clock srv'
    /\ (clock srv <= clock srv')%Z
    /\ forall pick, In pick (body_picks body) -> (updatedAt pick <= body_updatedAt body)%Z.
Proof.
  intros Hconsistent. rewrite getPicks_unfold. cbv zeta.
  eexists. eexists. split; [reflexivity|]. cbn [body_picks body_updatedAt].
  split; [reflexivity|]. split; [apply fold_settle_clock|].
  intros pick Hin.
  eapply Permutation_in in Hin; [|symmetry; apply array_sort_perm].
  rewrite map_map in Hin. apply in_map_iff in Hin. destruct Hin as (sym & <- & Hsym).
  assert (Hsettled : (settledAt (loadSignal cfg net (cache srv) (clock srv) sym)
                      <= clock (fold_left settle
                                  (map (loadSignal cfg net (cache srv) (clock srv)) symbols)
                                  srv))%Z).
  { apply fold_settle_settled, in_map, Hsym. }
  etransitivity; [|exact Hsettled]. clear Hsettled.
  destruct (fresh_at_dec cfg (cache srv) (clock srv) sym) as [(entry & Hentry & Hfresh)|Hstale].
  - rewrite (loadSignal_hit _ _ _ _ _ _ Hentry Hfresh). unfold listed_pick. cbn.
    apply (Hconsistent _ _ Hentry).
  - rewrite (loadSignal_miss _ _ _ _ _ Hstale). unfold listed_pick. cbn.
    destruct (getCompositeSignal cfg net sym _) as [pick|error] eqn:Hassembled; [|cbn; lia].
    rewrite (getCompositeSignal_stamp _ _ _ _ _ Hassembled). lia.
Qed.

(** A TTL of zero (or less) turns the cache off: in a consistent state
    no entry is ever fresh, so every call starts an assembly. *)
Theorem loadSignal_without_ttl (cfg : Config) (net : Providers) (sym : string) (srv : Server) :
  (CACHE_TTL_MS cfg <= 0)%Z ->
  cache_consistent srv ->
  upstreamCalls (loadSignal cfg net (cache srv) (clock srv) sym) = [sym].
Proof.
  intros Httl Hconsistent. rewrite loadSignal_miss; [reflexivity|].
  intros (entry & Hentry & Hfresh).
  destruct (Hconsistent _ _ Hentry) as (_ & Htimes & _). lia.
Qed.

End CacheInvariant.

(** ** A flat market *)









Section FlatMarket.
Context {runtime : JsRuntime}.



End FlatMarket.

(** ** Requested symbols *)

Lemma uppercase_ascii_facts (c : ascii) :
  is_lower_case (uppercase_ascii c) = false
  /\ is_white_space (uppercase_ascii c) = is_white_space c
  /\ Ascii.eqb (uppercase_ascii c) "," = Ascii.eqb c ","
  /\ (is_lower_case c = false -> uppercase_ascii c = c).
Proof.
  destruct c as [b0 b1 b2 b3 b4 b5 b6 b7];
    destruct b0, b1, b2, b3, b4, b5, b6, b7; vm_compute; repeat split; congruence.
Qed.

Lemma split_commas_nonempty (s : string) : split_commas s <> [].
Proof.
  destruct s as [|c rest]; cbn; [discriminate|].
  destruct (Ascii.eqb c ","); [discriminate|]. destruct (split_commas rest); discriminate.
Qed.

Lemma split_commas_no_comma (s : string) :
  Forall (fun piece => has_char (fun c => Ascii.eqb c ",") piece = false) (split_commas s).
Proof.
  induction s as [|c rest IH]; cbn [split_commas]; [repeat constructor|].
  destruct (Ascii.eqb c ",") eqn:Hcomma; [constructor; [reflexivity | exact IH]|].
  destruct (split_commas rest) as [|piece pieces]; [repeat constructor; cbn; rewrite Hcomma; reflexivity|].
  inversion IH as [|? ? Hpiece Hpieces]; subst.
  constructor; [cbn; rewrite Hcomma; exact Hpiece | exact Hpieces].
Qed.

Lemma trimStart_spec (test : ascii -> bool) (s : string) :
  (has_char test s = false -> has_char test (trimStart s) = false)
  /\ (forall c, first_char (trimStart s) = Some c -> is_white_space c = false).
Proof.
  induction s as [|c rest [IHhas IHfirst]]; cbn [trimStart]; [split; [auto | discriminate]|].
  destruct (is_white_space c) eqn:Hspace.
  - split; [|exact IHfirst]. cbn [has_char]. intros Hhas.
    apply Bool.orb_false_iff in Hhas. apply IHhas, Hhas.
  - split; [auto|]. cbn. intros c' [= <-]. exact Hspace.
Qed.

Lemma trimEnd_spec (test : ascii -> bool) (s : string) :
  (has_char test s = false -> has_char test (trimEnd s) = false)
  /\ (forall c, first_char (trimEnd s) = Some c -> first_char s = Some c)
  /\ (forall c, last_char (trimEnd s) = Some c -> is_white_space c = false).
Proof.
  induction s as [|c rest (IHhas & IHfirst & IHlast)]; cbn [trimEnd];
    [split; [auto | split; discriminate]|].
  destruct (trimEnd rest) as [|c' kept] eqn:Hkept.
  - destruct (is_white_space c) eqn:Hspace; cbn.
    + split; [auto | split; discriminate].
    + split; [|split; [auto | intros ? [= <-]; exact Hspace]].
      intros Hhas. apply Bool.orb_false_iff in Hhas. rewrite (proj1 Hhas). reflexivity.
  - split; [|split; [cbn; auto|]].
    + cbn [has_char]. intros Hhas. apply Bool.orb_false_iff in Hhas.
      destruct Hhas as [Hc Hrest]. specialize (IHhas Hrest). cbn [has_char] in IHhas.
      rewrite Hc. exact IHhas.
    + intros c0 Hlast. apply IHlast. exact Hlast.
Qed.

Lemma toUpperCase_spec (s : string) :
  has_char is_lower_case (toUpperCase s) = false
  /\ has_char (fun c => Ascii.eqb c ",") (toUpperCase s)
     = has_char (fun c => Ascii.eqb c ",") s
  /\ (forall c, first_char (toUpperCase s) = Some c ->
                exists c', first_char s = Some c' /\ c = uppercase_ascii c')
  /\ (forall c, last_char (toUpperCase s) = Some c ->
                exists c', last_char s = Some c' /\ c = uppercase_ascii c')
  /\ (toUpperCase s = EmptyString -> s = EmptyString).
Proof.
  induction s as [|c rest (IHlower & IHcomma & IHfirst & IHlast & IHempty)]; cbn [toUpperCase].
  - repeat split; discriminate.
  - destruct (uppercase_ascii_facts c) as (Hlower & _ & Hcomma & _).
    cbn [has_char first_char]. rewrite Hlower, Hcomma, IHlower, IHcomma.
    split; [reflexivity|]. split; [reflexivity|].
    split; [intros ? [= <-]; eauto|]. split; [|discriminate].
    intros c0. cbn [last_char]. destruct rest as [|c1 rest']; cbn [toUpperCase].
    + intros [= <-]. eauto.
    + intros Hlast. apply IHlast. exact Hlast.
Qed.

Lemma normalised_symbol (piece : string) :
  has_char (fun c => Ascii.eqb c ",") piece = false ->
  toUpperCase (trim piece) <> EmptyString ->
  well_formed_symbol (toUpperCase (trim piece)).
Proof.
  intros Hcomma Hnonempty. unfold trim in *.
  destruct (trimStart_spec (fun c => Ascii.eqb c ",") piece) as [Hstart Hfirst].
  destruct (trimEnd_spec (fun c => Ascii.eqb c ",") (trimStart piece))
    as (Hend & Hkeep & Hlast).
  destruct (toUpperCase_spec (trimEnd (trimStart piece)))
    as (Hlower & Hsame & Hupfirst & Huplast & _).
  split; [exact Hnonempty|]. split; [rewrite Hsame; auto|]. split; [exact Hlower|]. split.
  - intros c Hc. destruct (Hupfirst c Hc) as (c' & Hc' & ->).
    rewrite (proj1 (proj2 (uppercase_ascii_facts c'))). apply Hfirst, Hkeep, Hc'.
  - intros c Hc. destruct (Huplast c Hc) as (c' & Hc' & ->).
    rewrite (proj1 (proj2 (uppercase_ascii_facts c'))). apply Hlast, Hc'.
Qed.

Lemma parseSymbols_well_formed (s : string) : Forall well_formed_symbol (parseSymbols s).
Proof.
  unfold parseSymbols. apply Forall_forall. intros sym Hsym.
  apply list_elem_of_In, filter_In in Hsym. destruct Hsym as [Hin Htruthy].
  apply in_map_iff in Hin. destruct Hin as (piece & <- & Hpiece).
  pose proof (split_commas_no_comma s) as Hcomma. rewrite Forall_forall in Hcomma.
  apply normalised_symbol; [apply Hcomma, list_elem_of_In, Hpiece|].
  intros Hempty. rewrite Hempty in Htruthy. discriminate.
Qed.

(** Whatever the query string and the watch list are, every symbol that
    the handler works on is well formed: not empty, free of commas and of
    lower-case letters, and without white space at either end.  The query
    is used when it yields at least one symbol; when there is no query or
    the query yields no symbol, the symbols are those of the watch list:
    the parsed [WATCHLIST] when it is set, and SPY, QQQ, AAPL, MSFT, NVDA
    when it is not.  So the list of symbols is empty only if the watch
    list itself yields none, which cannot happen when [WATCHLIST] is
    unset. *)
Theorem requestedSymbols_well_formed (WATCHLIST query : option string) :
  Forall well_formed_symbol (requestedSymbols WATCHLIST query)
  /\ (forall q, query = Some q -> parseSymbols q <> [] ->
                requestedSymbols WATCHLIST query = parseSymbols q)
  /\ (forall q, query = Some q -> parseSymbols q = [] ->
                requestedSymbols WATCHLIST query = DEFAULT_SYMBOLS WATCHLIST)
  /\ (query = None -> requestedSymbols WATCHLIST query = DEFAULT_SYMBOLS WATCHLIST)
  /\ (forall list, WATCHLIST = Some list -> DEFAULT_SYMBOLS WATCHLIST = parseSymbols list)
  /\ (WATCHLIST = None -> DEFAULT_SYMBOLS WATCHLIST = ["SPY"; "QQQ"; "AAPL"; "MSFT"; "NVDA"])
  /\ (requestedSymbols WATCHLIST query = [] -> DEFAULT_SYMBOLS WATCHLIST = [])
  /\ (WATCHLIST = None -> requestedSymbols WATCHLIST query <> []).
Proof.
  assert (Hcases : requestedSymbols WATCHLIST query = DEFAULT_SYMBOLS WATCHLIST
                   \/ exists q, query = Some q /\ parseSymbols q <> []
                                /\ requestedSymbols WATCHLIST query = parseSymbols q).
  { unfold requestedSymbols. destruct query as [q|]; cbn; [|left; reflexivity].
    destruct (parseSymbols q) as [|sym syms] eqn:Hparsed; cbn; [left; reflexivity|].
    right. exists q. rewrite Hparsed. repeat split. discriminate. }
  split; [|split; [|split; [|split; [|split; [|split; [|split]]]]]].
  - destruct Hcases as [->|(q & _ & _ & ->)]; apply parseSymbols_well_formed.
  - intros q -> Hparsed. unfold requestedSymbols. cbn.
    destruct (parseSymbols q); [contradiction | reflexivity].
  - intros q -> Hparsed. unfold requestedSymbols. cbn. rewrite Hparsed. reflexivity.
  - intros ->. reflexivity.
  - intros list ->. reflexivity.
  - intros ->. reflexivity.
  - destruct Hcases as [->|(q & _ & Hparsed & ->)]; [auto | contradiction].
  - intros ->. destruct Hcases as [->|(q & _ & Hparsed & ->)]; [discriminate | exact Hparsed].
Qed.

Lemma split_commas_single (s : string) :
  has_char (fun c => Ascii.eqb c ",") s = false -> split_commas s = [s].
Proof.
  induction s as [|c rest IH]; cbn [split_commas has_char]; [reflexivity|].
  intros Hcomma. apply Bool.orb_false_iff in Hcomma. destruct Hcomma as [Hc Hrest].
  rewrite Hc, (IH Hrest). reflexivity.
Qed.

Lemma split_commas_app (s rest : string) :
  has_char (fun c => Ascii.eqb c ",") s = false ->
  split_commas (s +:+ "," +:+ rest) = s :: split_commas rest.
Proof.
  induction s as [|c s' IH]; simpl; [reflexivity|].
  intros Hcomma. apply Bool.orb_false_iff in Hcomma. destruct Hcomma as [Hc Hrest].
  rewrite Hc. simpl in IH. rewrite (IH Hrest). reflexivity.
Qed.

Lemma split_commas_joined (symbols : list string) :
  symbols <> [] ->
  Forall (fun sym => has_char (fun c => Ascii.eqb c ",") sym = false) symbols ->
  split_commas (String.concat "," symbols) = symbols.
Proof.
  induction symbols as [|sym symbols IH]; [contradiction|]. intros _ Hcomma.
  inversion Hcomma as [|? ? Hsym Hrest]; subst.
  destruct symbols as [|sym' symbols']; cbn [String.concat].
  - apply split_commas_single, Hsym.
  - rewrite (split_commas_app _ _ Hsym). f_equal. apply IH; [discriminate | exact Hrest].
Qed.

Lemma trimEnd_kept (s : string) :
  (forall c, last_char s = Some c -> is_white_space c = false) -> trimEnd s = s.
Proof.
  induction s as [|c rest IH]; cbn [trimEnd]; [reflexivity|]. intros Hlast.
  destruct rest as [|c' rest'].
  - cbn. rewrite (Hlast c eq_refl). reflexivity.
  - rewrite IH by (intros c0 Hc0; apply Hlast; exact Hc0). reflexivity.
Qed.

Lemma toUpperCase_kept (s : string) :
  has_char is_lower_case s = false -> toUpperCase s = s.
Proof.
  induction s as [|c rest IH]; cbn [toUpperCase has_char]; [reflexivity|].
  intros Hlower. apply Bool.orb_false_iff in Hlower. destruct Hlower as [Hc Hrest].
  rewrite (IH Hrest), (proj2 (proj2 (proj2 (uppercase_ascii_facts c))) Hc). reflexivity.
Qed.

(** Round trip: parsing the comma-separated list of well-formed symbols
    gives these symbols back, in the same order and with their
    repetitions; so a list that the handler reports in [symbols] can be
    sent again as a query and is read as the same list. *)
Theorem parseSymbols_joined (symbols : list string) :
  Forall well_formed_symbol symbols ->
  parseSymbols (String.concat "," symbols) = symbols.
Proof.
  intros Hwell. destruct symbols as [|sym0 symbols0] eqn:Hsymbols; [reflexivity|].
  rewrite <- Hsymbols in *. assert (Hnonempty : symbols <> []) by (rewrite Hsymbols; discriminate).
  clear Hsymbols. unfold parseSymbols.
  rewrite split_commas_joined; [|exact Hnonempty|].
  - clear Hnonempty. induction Hwell as [|sym symbols Hsym Hrest IH]; [reflexivity|].
    destruct Hsym as (Hne & Hcomma & Hlower & Hfirst & Hlast).
    cbn [map List.filter].
    assert (Htrim : trim sym = sym).
    { unfold trim. destruct sym as [|c rest]; [contradiction|].
      cbn [trimStart]. rewrite (Hfirst c eq_refl). apply trimEnd_kept, Hlast. }
    rewrite Htrim, (toUpperCase_kept sym Hlower), IH.
    destruct sym; [contradiction | reflexivity].
  - eapply Forall_impl; [exact Hwell|]. intros sym Hsym. apply Hsym.
Qed.

(** * The properties on the sample data *)

(** The composite score of scenario D, and of the record with no signal. *)
Lemma weightedComposite_spec_witness :
  weightedComposite Sample.sentiment_only
  == clamp (spec_weighted_sum Sample.sentiment_only / spec_present_weight Sample.sentiment_only)
  /\ weightedComposite Sample.nothing_present = 0.
Proof.
  split.
  - apply (weightedComposite_spec Sample.sentiment_only).
    exists Ksentiment, 0.6. reflexivity.
  - apply (weightedComposite_spec Sample.nothing_present).
    intros key. destruct key; reflexivity.
Defined.


(** Three values against a window of 50; fifteen values against a
    window of 20 and against the 35 values of the trend-convergence
    indicator. *)
Lemma indicators_absent_below_window_witness :
  calculateSMA [1; 2; 3] 50 = None
  /\ calculateRSI Sample.closes 20 = None
  /\ calculateMACD Sample.closes = None.
Proof.
  pose proof (indicators_absent_below_window (runtime := Sample.runtime) [1; 2; 3] 50 2) as Hshort.
  pose proof (indicators_absent_below_window (runtime := Sample.runtime) Sample.closes 20 2) as Hcloses.
  split; [|split].
  - apply Hshort. cbn. lia.
  - apply Hcloses. cbn. lia.
  - apply Hcloses. cbn. lia.
Defined.

(** The snapshot 80% / 20% delivered by the sample provider. *)
Lemma sentimentSignal_spec_witness :
  exists snapshot value,
    fetchSentiment Sample.cfg Sample.net "AAA" = Resolved (Some snapshot)
    /\ sentimentSignal (Some snapshot) = Some (Num value)
    /\ value == 0.6.
Proof.
  eexists.
  destruct (sentimentSignal_spec Sample.cfg Sample.net "AAA") as (_ & _ & _ & _ & Hscenario).
  edestruct Hscenario as (value & Hvalue & Hsix).
  - reflexivity.
  - reflexivity.
  - reflexivity.
  - reflexivity.
  - reflexivity.
  - exists value. split; [reflexivity|]. split; assumption.
Defined.

(** C9, as the specification words it, fails on the code.  With the
    sentiment signal 0.6 as the only signal, the builder returns the
    single clause followed by a full stop, whereas joining the emitted
    clauses with ". " yields the clause alone; and with no signal at all
    it returns a neutral sentence that is not the one the specification
    quotes. *)
Lemma buildExplanation_not_joined_clauses :
  buildExplanation Sample.sentiment_only = "News sentiment skewed bullish."
  /\ spec_explanation Sample.sentiment_only = "News sentiment skewed bullish"
  /\ buildExplanation Sample.sentiment_only <> spec_explanation Sample.sentiment_only
  /\ buildExplanation Sample.nothing_present
     = "Signals are mixed with no single driver dominating the setup."
  /\ buildExplanation Sample.nothing_present <> spec_explanation Sample.nothing_present.
Proof.
  repeat split; discriminate.
Qed.

(** Assembly fails for the empty series of "ZZZ" and resolves for "AAA",
    without a volatility rank since that provider is not configured. *)
Lemma getCompositeSignal_fails_iff_witness :
  is_rejected (getCompositeSignal (runtime := Sample.runtime) Sample.cfg Sample.net "ZZZ" 0) = true
  /\ exists pick,
      getCompositeSignal (runtime := Sample.runtime) Sample.cfg Sample.net "AAA" 0 = Resolved pick
      /\ ivRank (signals pick) = None.
Proof.
  split.
  - apply (getCompositeSignal_fails_iff (runtime := Sample.runtime) Sample.cfg Sample.net "ZZZ" 0).
    right; right; right. exists []. split; reflexivity.
  - destruct (getCompositeSignal_fails_iff (runtime := Sample.runtime) Sample.cfg Sample.net "AAA" 0)
      as [_ Havailable].
    destruct Havailable as (pick & Hpick & _ & Hvolatility & _).
    + intros [Hkey|[[error Herror]|[Hnone|(series & Hseries & Hempty)]]];
        try discriminate.
      injection Hseries as <-. discriminate.
    + exists pick. split; [exact Hpick|]. apply Hvolatility. left. reflexivity.
Defined.

(** The batch lists the degraded record for "ZZZ". *)
Lemma getPicks_degrades_failed_symbols_witness :
  exists body srv' pick,
    getPicks (runtime := Sample.runtime) Sample.cfg Sample.net ["ZZZ"; "AAA"] (boot 0) = (Json body, srv')
    /\ In pick (body_picks body)
    /\ symbol pick = "ZZZ"
    /\ score pick = Num 0
    /\ explanation pick = "Signal unavailable due to upstream data error."
    /\ updatedAt pick = 250%Z.
Proof.
  destruct (getPicks_degrades_failed_symbols (runtime := Sample.runtime)
              Sample.cfg Sample.net ["ZZZ"; "AAA"] (boot 0))
    as (body & srv' & Hresponse & _ & Hdegraded).
  destruct (Hdegraded "ZZZ") as (pick & Hin & Hsymbol & Hscore & _ & _ & _ & Htext & _ & Hstamp).
  - left. reflexivity.
  - intros (entry & Hentry & _). cbn in Hentry. rewrite lookup_empty in Hentry. discriminate.
  - right; right; right. exists []. split; reflexivity.
  - exists body, srv', pick. repeat split; assumption.
Defined.

(** The batch for "ZZZ", "AAA" lists "AAA" first. *)
Lemma getPicks_sorted_descending_witness :
  exists body srv' earlier later,
    getPicks (runtime := Sample.runtime) Sample.cfg Sample.net ["ZZZ"; "AAA"] (boot 0) = (Json body, srv')
    /\ body_picks body !! 0%nat = Some earlier
    /\ body_picks body !! 1%nat = Some later
    /\ symbol earlier = "AAA"
    /\ symbol later = "ZZZ"
    /\ number_le (score later) (score earlier).
Proof.
  destruct (getPicks_sorted_descending (runtime := Sample.runtime)
              Sample.cfg Sample.net ["ZZZ"; "AAA"] (boot 0))
    as (body & srv' & Hresponse & _ & Hsorted).
  assert (Hpicks : exists earlier later,
             body_picks body = [earlier; later]
             /\ symbol earlier = "AAA" /\ symbol later = "ZZZ"
             /\ score earlier <> NaN /\ score later <> NaN).
  { vm_compute in Hresponse. injection Hresponse as <- _.
    eexists. eexists. repeat split; try reflexivity; discriminate. }
  destruct Hpicks as (earlier & later & Hpicks & Hfirst & Hsecond & Hearlier & Hlater).
  destruct Hsorted as [_ Hadjacent].
  - rewrite Hpicks. repeat constructor; assumption.
  - exists body, srv', earlier, later. rewrite Hpicks in *.
    split; [exact Hresponse|]. split; [reflexivity|]. split; [reflexivity|].
    split; [exact Hfirst|]. split; [exact Hsecond|].
    apply (Hadjacent 0%nat earlier later); reflexivity.
Defined.

(** C2 (a defect of the code).  The sentiment payload of "AAA" has the
    text "n/a" for its bullish percentage, which [Number.parseFloat]
    reads as NaN.  [fetchSentiment] does not filter it (as
    [fetchPriceHistory], [fetchVolatility] and [buildDetails] filter what
    they parse, with [Number.isFinite]): the malformed input does not
    make the sentiment signal absent.  The record has the sentiment
    signal NaN, its score is NaN, and its detail row shows "NaN%" for
    the bullish percentage.  Without the sentiment provider, the same
    record has no sentiment signal and the score 0. *)
Theorem getCompositeSignal_malformed_sentiment :
  (exists pick row,
      getCompositeSignal (runtime := Sample.runtime) Sample.cfg Sample.net_malformed "AAA" 0
      = Resolved pick
      /\ sentiment (signals pick) = Some NaN
      /\ score pick = NaN
      /\ price_signals pick = [None; None; None; None; None]
      /\ ivRank (signals pick) = None
      /\ details pick !! 1%nat = Some row
      /\ detail_name row = "Sentiment (Bull/Bear)"
      /\ detail_value row
         = "NaN% / " +:+ toFixed (JsRuntime := Sample.runtime) 20 1 +:+ "%"
      /\ detail_signal row = Some NaN)
  /\ (exists pick,
      getCompositeSignal (runtime := Sample.runtime) Sample.cfg_no_sentiment
        Sample.net_malformed "AAA" 0
      = Resolved pick
      /\ sentiment (signals pick) = None
      /\ score pick = Num 0).
Proof.
  split.
  - eexists. eexists. split; [vm_compute; reflexivity|].
    cbn [signals score details price_signals smaTrend rsi macd bollinger volumeSurge
         sentiment ivRank].
    repeat split.
  - eexists. split; [vm_compute; reflexivity|]. split; reflexivity.
Qed.

(** C7 (a defect of the code, the same as for C2).  In the batch for
    "ZZZ" and "AAA" with the malformed sentiment payload, the response
    lists the degraded record of "ZZZ", of score 0, and the record of
    "AAA", of score NaN.  The comparator [b.score - a.score] is NaN on
    them, and the picks are not in descending order: in the response, and
    in every arrangement of its picks, some pick has a score that is not
    greater than or equal to the score of the next one. *)
Theorem getPicks_unsorted_on_NaN_score :
  exists body srv' failed malformed,
    getPicks (runtime := Sample.runtime) Sample.cfg Sample.net_malformed ["ZZZ"; "AAA"] (boot 0)
    = (Json body, srv')
    /\ Permutation [failed; malformed] (body_picks body)
    /\ symbol failed = "ZZZ" /\ score failed = Num 0
    /\ symbol malformed = "AAA" /\ score malformed = NaN
    /\ number_sub (score malformed) (score failed) = NaN
    /\ number_sub (score failed) (score malformed) = NaN
    /\ ~ Sorted score_ge (body_picks body)
    /\ forall arrangement,
        Permutation (body_picks body) arrangement ->
        exists i earlier later,
          arrangement !! i = Some earlier /\ arrangement !! S i = Some later
          /\ ~ number_le (score later) (score earlier).
Proof.
  eexists. eexists. eexists. eexists. split; [vm_compute; reflexivity|].
  cbn [body_picks]. split; [reflexivity|].
  split; [reflexivity|]. split; [reflexivity|]. split; [reflexivity|].
  split; [reflexivity|]. split; [reflexivity|]. split; [reflexivity|]. split.
  - intros Hsorted. inversion Hsorted as [|first rest _ Hhead]; subst.
    inversion Hhead as [|second rest' Hge]; subst. exact Hge.
  - intros arrangement Harrangement.
    apply Permutation_length_2_inv in Harrangement. destruct Harrangement as [->| ->].
    + eexists 0%nat, _, _. split; [reflexivity|]. split; [reflexivity|]. intros [].
    + eexists 0%nat, _, _. split; [reflexivity|]. split; [reflexivity|]. intros [].
Qed.

(** A second call one second after the first one is served from the
    cache; a call 120 seconds after the first one reassembles once and
    returns a newer payload. *)
Lemma loadSignal_cache_contract_witness :
  exists entry refreshed srv',
    cache Sample.warm !! "AAA" = Some entry
    /\ call_loadSignal (runtime := Sample.runtime) Sample.cfg Sample.net "AAA" (at_time 1000 Sample.warm)
       = (Resolved (cached_payload entry), at_time 1000 Sample.warm)
    /\ call_loadSignal (runtime := Sample.runtime) Sample.cfg Sample.net "AAA" (at_time 120000 Sample.warm)
       = (Resolved refreshed, srv')
    /\ assemblies srv' = ["AAA"; "AAA"]
    /\ (updatedAt (cached_payload entry) < updatedAt refreshed)%Z.
Proof.
  destruct (cache Sample.warm !! "AAA") as [entry|] eqn:Hentry; [|vm_compute in Hentry; discriminate].
  assert (Hstamp : cached_updatedAt entry = 0%Z /\ updatedAt (cached_payload entry) = 250%Z).
  { vm_compute in Hentry. injection Hentry as <-. split; reflexivity. }
  destruct Hstamp as [Hwritten Hstamped].
  destruct (getCompositeSignal (runtime := Sample.runtime) Sample.cfg Sample.net "AAA"
              (120000 + Z.of_nat (latency Sample.net "AAA"))) as [refreshed|error] eqn:Hrefreshed;
    [|vm_compute in Hrefreshed; discriminate].
  destruct (loadSignal_cache_contract (runtime := Sample.runtime) Sample.cfg Sample.net "AAA"
              (at_time 1000 Sample.warm)) as (Hhit & _ & _ & _).
  destruct (loadSignal_cache_contract (runtime := Sample.runtime) Sample.cfg Sample.net "AAA"
              (at_time 120000 Sample.warm)) as (_ & Httl & _ & Hrefresh).
  assert (Hdefault : CACHE_TTL_MS Sample.cfg = (120 * 1000)%Z) by (apply Httl; reflexivity).
  destruct (Hrefresh entry refreshed) as (srv' & Hcall & _ & Hlog & Hnewer).
  - exact Hentry.
  - rewrite Hdefault, Hwritten. cbn. lia.
  - exact Hrefreshed.
  - exists entry, refreshed, srv'. split; [reflexivity|]. split; [|split; [exact Hcall|split]].
    + apply Hhit; [exact Hentry|]. rewrite Hdefault, Hwritten. cbn. lia.
    + rewrite Hlog. reflexivity.
    + apply Hnewer.
      * rewrite Hstamped. cbn. lia.
      * left. cbn. lia.
Defined.

(** After the batch nothing is cached for "ZZZ", and a later call for
    "ZZZ" assembles again. *)
Lemma failed_assembly_leaves_cache_witness :
  cache (getPicks (runtime := Sample.runtime) Sample.cfg Sample.net ["ZZZ"; "AAA"] (boot 0)).2 !! "ZZZ"
  = None
  /\ upstreamCalls
       (loadSignal (runtime := Sample.runtime) Sample.cfg Sample.net
          (cache (getPicks (runtime := Sample.runtime) Sample.cfg Sample.net ["ZZZ"; "AAA"] (boot 0)).2)
          1000 "ZZZ")
     = ["ZZZ"].
Proof.
  destruct (failed_assembly_leaves_cache (runtime := Sample.runtime) Sample.cfg Sample.net "ZZZ" (boot 0))
    as (_ & _ & Hbatch).
  destruct (Hbatch ["ZZZ"; "AAA"]) as (Hkept & _ & Hagain).
  - left. reflexivity.
  - reflexivity.
  - split.
    + rewrite Hkept. reflexivity.
    + apply Hagain. cbn. lia.
Defined.

(** * The further properties on the sample data *)



(** Its rows agree with its signals. *)
Lemma getCompositeSignal_details_agree_witness :
  exists pick,
    getCompositeSignal (runtime := Sample.runtime) Sample.cfg Sample.net "AAA" 7 = Resolved pick
    /\ Forall (row_agrees (signals pick)) (details pick).
Proof.
  destruct (getCompositeSignal (runtime := Sample.runtime) Sample.cfg Sample.net "AAA" 7)
    as [pick|error] eqn:Hpick; [|vm_compute in Hpick; discriminate].
  exists pick. split; [reflexivity|].
  apply (getCompositeSignal_details_agree (runtime := Sample.runtime) _ _ _ _ _ Hpick).
Defined.

(** Without a latest price the first row reads "n/a". *)
Lemma buildDetails_shape_witness :
  let params :=
    {| p_symbol := "AAA"; p_latestPrice := None; p_sma50 := None; p_sma200 := None;
       p_rsi := Some 70; p_macd := None; p_bollinger := None; p_volumeSurge := None;
       p_sentiment := None; p_ivRank := Some 0.5; p_fundamentals := None |} in
  detail_value (row_lastPrice (runtime := Sample.runtime) (p_latestPrice params)) = "n/a"
  /\ (1 <= length (buildDetails (runtime := Sample.runtime) params) <= 10)%nat.
Proof.
  intros params.
  destruct (buildDetails_shape (runtime := Sample.runtime) params) as (_ & Hvalue & Hlength & _).
  split; [apply Hvalue; reflexivity | exact Hlength].
Defined.

(** The usable bars of "AAA" come back in order of date. *)
Lemma fetchPriceHistory_sorted_witness :
  exists prices,
    fetchPriceHistory Sample.cfg Sample.net "AAA" = Resolved prices
    /\ map bar_date prices = [1; 2; 4]%Z
    /\ Sorted (fun a b => (bar_date a <= bar_date b)%Z) prices.
Proof.
  destruct (fetchPriceHistory Sample.cfg Sample.net "AAA") as [prices|error] eqn:Hprices;
    [|vm_compute in Hprices; discriminate].
  exists prices. split; [reflexivity|]. split.
  - vm_compute in Hprices. injection Hprices as <-. reflexivity.
  - apply (fetchPriceHistory_sorted Sample.cfg Sample.net "AAA" prices Hprices).
Defined.

(** The snapshot of the four sample contracts. *)
Lemma fetchVolatility_snapshot_witness :
  exists snapshot,
    fetchVolatility Sample.cfg_polygon Sample.net_polygon "AAA" = Resolved (Some snapshot)
    /\ lowIv snapshot <= currentIv snapshot <= highIv snapshot.
Proof.
  destruct (fetchVolatility Sample.cfg_polygon Sample.net_polygon "AAA")
    as [[snapshot|]|error] eqn:Hsnapshot; try (vm_compute in Hsnapshot; discriminate).
  exists snapshot. split; [reflexivity|].
  destruct (fetchVolatility_snapshot _ _ _ _ Hsnapshot) as (results & rest & _ & _ & Hbetween & _).
  exact Hbetween.
Defined.

(** Low 0.2, current 0.3, high 0.5: the rank is -1/3. *)
Lemma calculateIvRank_between_witness :
  exists value,
    calculateIvRank (Some {| currentIv := 0.3; lowIv := 0.2; highIv := 0.5 |}) = Some value
    /\ value == - (1 # 3).
Proof.
  destruct (calculateIvRank_between {| currentIv := 0.3; lowIv := 0.2; highIv := 0.5 |})
    as [_ Hvalue]; [split; discriminate|].
  eexists. split; [reflexivity|]. rewrite (Hvalue _ eq_refl). reflexivity.
Defined.


(** Sixteen prices that never fall read 100 over fourteen periods. *)
Lemma calculateRSI_never_falls_witness :
  calculateRSI Sample.rising 14 = Some 100
  /\ rsiSignal (calculateRSI Sample.rising 14) = Some 1.
Proof.
  apply (calculateRSI_never_falls Sample.rising 14).
  - cbn. lia.
  - intros i Hi. cbn in Hi.
    do 16 (destruct i as [|i]; [try lia; cbn; discriminate|]). lia.
Defined.


(** A stronger sentiment reading does not lower the composite. *)
Lemma weightedComposite_monotone_witness :
  weightedComposite Sample.strong_trend
  <= weightedComposite
       {| smaTrend := Some 0.5; rsi := None; macd := None; bollinger := None;
          volumeSurge := None; sentiment := Some 0.9; ivRank := None |}.
Proof.
  apply weightedComposite_monotone.
  intros key. destruct key; cbn; try exact I; discriminate.
Defined.


(** Two degraded records, both of score 0, keep the order of the
    request. *)
Lemma array_sort_stable_on_sorted_witness :
  array_sort (fun a b => SortCompare (number_sub (score b) (score a)))
    [degraded "MSFT" 0; degraded "AAPL" 0]
  = [degraded "MSFT" 0; degraded "AAPL" 0].
Proof.
  destruct (array_sort_stable_on_sorted (fun a b => SortCompare (number_sub (score b) (score a)))
              [degraded "MSFT" 0; degraded "AAPL" 0]) as (_ & _ & Hties & _).
  - apply SortCompare_total.
  - apply Hties. intros a b [<-|[<-|[]]] [<-|[<-|[]]]; reflexivity.
Defined.

(** The sentiment of "AAA" is read from the payload. *)
Lemma fetchSentiment_percentages_witness :
  exists snapshot payload,
    fetchSentiment Sample.cfg Sample.net "AAA" = Resolved (Some snapshot)
    /\ newsSentiment Sample.net "AAA" = Resolved (Some payload)
    /\ bullishPercent snapshot = default (Num 0) (payload_bullishPercent payload)
    /\ bearishPercent snapshot = default (Num 0) (payload_bearishPercent payload).
Proof.
  destruct (fetchSentiment Sample.cfg Sample.net "AAA") as [[snapshot|]|error] eqn:Hsnapshot;
    try (vm_compute in Hsnapshot; discriminate).
  destruct (fetchSentiment_percentages _ _ _ _ Hsnapshot) as ((payload & Hpayload) & _).
  exists snapshot, payload. split; [reflexivity|exact Hpayload].
Defined.

(** A latest volume of three times the baseline saturates the signal. *)
Lemma calculateVolumeSurge_reading_witness :
  exists value, calculateVolumeSurge [100; 100; 300] 2 = Some value /\ value == 1.
Proof.
  destruct (calculateVolumeSurge_reading [100; 100; 300] 2) as (value & Hvalue & _ & _ & Hhigh & _).
  - cbn. lia.
  - vm_compute. reflexivity.
  - exists value. split; [exact Hvalue|]. apply Hhigh. vm_compute. discriminate.
Defined.

(** A second request within the lifetime of the entry is answered from
    the cache alone. *)
Lemma getPicks_all_fresh_witness :
  exists payloads,
    getPicks (runtime := Sample.runtime) Sample.cfg Sample.net ["AAA"] (at_time 1000 Sample.warm)
    = (Json {| body_updatedAt := 1000;
               body_symbols := ["AAA"];
               body_picks := array_sort (fun a b => SortCompare (number_sub (score b) (score a)))
                                  payloads |},
       at_time 1000 Sample.warm).
Proof.
  destruct (getPicks_all_fresh (runtime := Sample.runtime) Sample.cfg Sample.net ["AAA"]
              (at_time 1000 Sample.warm)) as (payloads & _ & Hbody).
  - intros sym [<-|[]].
    apply is_fresh_spec. vm_compute. reflexivity.
  - exists payloads. exact Hbody.
Defined.

(** Without the Alpha Vantage key both symbols are degraded and nothing
    is cached. *)
Lemma getPicks_without_key_witness :
  exists srv',
    getPicks (runtime := Sample.runtime) Sample.cfg_no_key Sample.net ["AAA"; "BBB"] (boot 0)
    = (Json {| body_updatedAt := clock srv';
               body_symbols := ["AAA"; "BBB"];
               body_picks :=
                 map (fun sym => degraded sym (0 + Z.of_nat (latency Sample.net sym)))
                     ["AAA"; "BBB"] |},
       srv')
    /\ cache srv' = ∅.
Proof.
  apply (getPicks_without_key (runtime := Sample.runtime) Sample.cfg_no_key Sample.net
           ["AAA"; "BBB"] (boot 0)).
  - reflexivity.
  - intros sym _ (entry & Hentry & _). cbn in Hentry. rewrite lookup_empty in Hentry.
    discriminate.
Defined.

(** The cache after the first request for "AAA" is consistent. *)
Lemma reachable_cache_consistent_witness : cache_consistent Sample.warm.
Proof.
  apply (reachable_cache_consistent (runtime := Sample.runtime) Sample.cfg).
  unfold Sample.warm. apply reach_call, reach_boot.
Defined.

(** A batch on a server that has just started. *)
Lemma getPicks_one_pick_per_symbol_witness :
  exists body srv',
    getPicks (runtime := Sample.runtime) Sample.cfg Sample.net ["AAA"; "BBB"] (boot 0)
    = (Json body, srv')
    /\ length (body_picks body) = 2%nat
    /\ Permutation ["AAA"; "BBB"] (map symbol (body_picks body)).
Proof.
  apply (getPicks_one_pick_per_symbol (runtime := Sample.runtime) Sample.cfg Sample.net
           ["AAA"; "BBB"] (boot 0)).
  intros key entry Hentry. cbn in Hentry. rewrite lookup_empty in Hentry. discriminate.
Defined.

Lemma getPicks_timestamps_witness :
  exists body srv',
    getPicks (runtime := Sample.runtime) Sample.cfg Sample.net ["AAA"; "BBB"] (boot 0)
    = (Json body, srv')
    /\ body_updatedAt body = clock srv'
    /\ (0 <= clock srv')%Z
    /\ forall pick, In pick (body_picks body) -> (updatedAt pick <= body_updatedAt body)%Z.
Proof.
  apply (getPicks_timestamps (runtime := Sample.runtime) Sample.cfg Sample.net
           ["AAA"; "BBB"] (boot 0)).
  intros key entry Hentry. cbn in Hentry. rewrite lookup_empty in Hentry. discriminate.
Defined.

(** With a lifetime of 0 the entry written a moment ago is not used. *)
Lemma loadSignal_without_ttl_witness :
  let srv :=
    (call_loadSignal (runtime := Sample.runtime) Sample.cfg_polygon Sample.net_polygon "AAA"
       (boot 0)).2 in
  is_Some (cache srv !! "AAA")
  /\ upstreamCalls (loadSignal (runtime := Sample.runtime) Sample.cfg_polygon Sample.net_polygon
                      (cache srv) (clock srv) "AAA") = ["AAA"].
Proof.
  intros srv. split.
  - vm_compute. eexists. reflexivity.
  - apply (loadSignal_without_ttl (runtime := Sample.runtime)).
    + vm_compute. discriminate.
    + change srv with (fold_left settle
                         (map (loadSignal (runtime := Sample.runtime) Sample.cfg_polygon
                                 Sample.net_polygon (cache (boot 0)) (clock (boot 0))) ["AAA"])
                         (boot 0)).
      apply fold_settle_consistent.
      intros key entry Hentry. cbn in Hentry. rewrite lookup_empty in Hentry. discriminate.
Defined.


(** Two symbols joined by a comma are read back as they were. *)
Lemma parseSymbols_joined_witness :
  parseSymbols (String.concat "," ["AAPL"; "BRK B"]) = ["AAPL"; "BRK B"].
Proof.
  apply parseSymbols_joined.
  repeat constructor; try discriminate; intros c [= <-]; reflexivity.
Defined.

(** A query without symbol falls back on the watch list. *)
Lemma requestedSymbols_well_formed_witness :
  requestedSymbols (Some "tsla, amd") (Some " , ") = ["TSLA"; "AMD"]
  /\ requestedSymbols None (Some " , ") = ["SPY"; "QQQ"; "AAPL"; "MSFT"; "NVDA"].
Proof.
  split.
  - destruct (requestedSymbols_well_formed (Some "tsla, amd") (Some " , "))
      as (_ & _ & Hempty & _ & Hlist & _).
    rewrite (Hempty " , " eq_refl eq_refl), (Hlist "tsla, amd" eq_refl). reflexivity.
  - destruct (requestedSymbols_well_formed None (Some " , "))
      as (_ & _ & Hempty & _ & _ & Hdefault & _).
    rewrite (Hempty " , " eq_refl eq_refl). apply Hdefault. reflexivity.
Defined.
